(** * Task orchestrator: plan acquisition, step dispatch and context threading

    A shallow embedding of [orchestrator.py], [agents.py] and the broadcast
    sink of [main.py].  Python strings are sequences of Unicode code points,
    the [re] patterns of the program are kept as data and run by one
    backtracking matcher, and every interaction with the outside (HTTP, the
    search engine, Slack, Twilio, the calendar, the file system, the
    websockets) goes through an explicit record of oracles, so that a
    statement quantified over that record covers every behaviour of the
    collaborators. *)

From Stdlib Require Import String Ascii ZArith NArith List Lia Bool.
From stdpp Require Import base option list gmap pretty.

(* ===================================================================== *)
(** * Part I: the model *)
(* ===================================================================== *)

(** ** Python [str]: a list of code points *)

Abbreviation char := N (only parsing).
Abbreviation pystr := (list N) (only parsing).

(** A literal of the source, written as a Rocq string (ASCII only). *)
Definition py (s : string) : pystr := map N_of_ascii (list_ascii_of_string s).

Definition in_range (lo hi c : char) : bool := (lo <=? c)%N && (c <=? hi)%N.

(** [str.isspace] on one character; it is also what [\s] matches in a [str]
    pattern and what [str.strip()] removes. *)
Definition is_space (c : char) : bool :=
  in_range 0x09 0x0D c || in_range 0x1C 0x20 c || (c =? 0x85)%N || (c =? 0xA0)%N
  || (c =? 0x1680)%N || in_range 0x2000 0x200A c || (c =? 0x2028)%N
  || (c =? 0x2029)%N || (c =? 0x202F)%N || (c =? 0x205F)%N || (c =? 0x3000)%N.

(** First code point of every run of ten decimal digits (category Nd,
    Unicode 14); [\d] matches these runs and the mathematical digits. *)
Definition decimal_runs : list N :=
  [0x30; 0x660; 0x6F0; 0x7C0; 0x966; 0x9E6; 0xA66; 0xAE6; 0xB66; 0xBE6; 0xC66;
   0xCE6; 0xD66; 0xDE6; 0xE50; 0xED0; 0xF20; 0x1040; 0x1090; 0x17E0; 0x1810;
   0x1946; 0x19D0; 0x1A80; 0x1A90; 0x1B50; 0x1BB0; 0x1C40; 0x1C50; 0xA620;
   0xA8D0; 0xA900; 0xA9D0; 0xA9F0; 0xAA50; 0xABF0; 0xFF10; 0x104A0; 0x10D30;
   0x11066; 0x110F0; 0x11136; 0x111D0; 0x112F0; 0x11450; 0x114D0; 0x11650;
   0x116C0; 0x11730; 0x118E0; 0x11950; 0x11C50; 0x11D50; 0x11DA0; 0x16A60;
   0x16AC0; 0x16B50; 0x1E140; 0x1E2F0; 0x1E950; 0x1FBF0]%N.

Definition is_digit (c : char) : bool :=
  existsb (fun lo => in_range lo (lo + 9) c) decimal_runs || in_range 0x1D7CE 0x1D7FF c.

Definition is_ascii_alnum (c : char) : bool :=
  in_range 0x61 0x7A c || in_range 0x41 0x5A c || in_range 0x30 0x39 c.

(** Case folding of [re.IGNORECASE] as far as ASCII pattern letters see it:
    a character matches the pattern letter [l] when both fold to the same
    code point.  Besides [A-Z], the long s (U+017F) matches [s], the Kelvin
    sign (U+212A) matches [k], and the dotted and dotless i (U+0130, U+0131)
    match [i]. *)
Definition fold_case (c : char) : char :=
  if in_range 0x41 0x5A c then (c + 32)%N
  else if (c =? 0x17F)%N then 0x73%N
  else if (c =? 0x212A)%N then 0x6B%N
  else if in_range 0x130 0x131 c then 0x69%N
  else c.

Definition eq_ignorecase (l c : char) : bool := (fold_case l =? fold_case c)%N.

(** Methods of [str] *)
Module Str.

(** [str.lower] where it can produce a character of the ASCII range: [A-Z],
    the Kelvin sign, and U+0130 (which lowers to [i] followed by U+0307).
    Every other character lowers to something outside ASCII and is left as it
    is, which cannot change whether an ASCII needle occurs in the result. *)
Definition lower_char (c : char) : pystr :=
  if in_range 0x41 0x5A c then [(c + 32)%N]
  else if (c =? 0x212A)%N then [0x6B%N]
  else if (c =? 0x130)%N then [0x69%N; 0x307%N]
  else [c].

Definition lower (s : pystr) : pystr := flat_map lower_char s.

Fixpoint startswith (p s : pystr) : bool :=
  match p, s with
  | [], _ => true
  | a :: p', b :: s' => (a =? b)%N && startswith p' s'
  | _ :: _, [] => false
  end.

(** [needle in hay] *)
Fixpoint contains (needle hay : pystr) : bool :=
  startswith needle hay ||
  match hay with
  | [] => false
  | _ :: hay' => contains needle hay'
  end.

Fixpoint lstrip (p : char -> bool) (s : pystr) : pystr :=
  match s with
  | c :: s' => if p c then lstrip p s' else s
  | [] => []
  end.

Definition rstrip (p : char -> bool) (s : pystr) : pystr := rev (lstrip p (rev s)).

(** [s.strip(chars)], the set of characters given as a predicate *)
Definition strip_chars (p : char -> bool) (s : pystr) : pystr := rstrip p (lstrip p s).

(** [s.strip()] *)
Definition strip (s : pystr) : pystr := strip_chars is_space s.

(** [s.split(sep)] for a non-empty [sep]: the pieces between the occurrences
    of [sep] found from left to right without overlap.  [skip] counts the
    characters of an occurrence still to be passed over, [cur] is the piece
    being collected, last character first. *)
Fixpoint split_go (sep : pystr) (skip : nat) (s cur : pystr) : list pystr :=
  match s with
  | [] => [rev cur]
  | c :: s' =>
      match skip with
      | S k => split_go sep k s' cur
      | O =>
          if startswith sep s
          then rev cur :: split_go sep (length sep - 1) s' []
          else split_go sep 0 s' (c :: cur)
      end
  end.

Definition split (sep s : pystr) : list pystr := split_go sep 0 s [].

Fixpoint join (sep : pystr) (l : list pystr) : pystr :=
  match l with
  | [] => []
  | [x] => x
  | x :: l' => x ++ sep ++ join sep l'
  end.

(** [s.replace(old, new)] for a non-empty [old] *)
Definition replace (old new s : pystr) : pystr := join new (split old s).

Definition endswith (suffix s : pystr) : bool := startswith (rev suffix) (rev s).

(** What reading a file in text mode makes of its line ends: [\r\n] and a
    lone [\r] become [\n]. *)
Fixpoint universal_newlines (s : pystr) : pystr :=
  match s with
  | [] => []
  | c :: s' =>
      if (c =? 0x0D)%N then
        0x0A%N :: match s' with
                  | d :: s'' => if (d =? 0x0A)%N then universal_newlines s'' else universal_newlines s'
                  | [] => []
                  end
      else c :: universal_newlines s'
  end.

End Str.

(** [l[-1]] on the result of [split], which is never empty *)
Definition last_piece (l : list pystr) : pystr := List.last l [].

(** ** Regular expressions

    The patterns of the program apply [*], [+], [?] (on a character) and
    [{m,n}] to single-character sets only; [RRep] is that case.  An optional
    group is written with [RAlt].  [rmatch] returns every way the pattern
    matches at the current position, in the order in which the backtracking
    matcher of [re] tries them, so the head of the list is the match
    that [re] reports. *)

Inductive regex : Type :=
| REps
| RBol                                          (* ^ *)
| RSet (p : char -> bool)                       (* literal, class, ., \s, \d *)
| RSeq (a b : regex)
| RAlt (a b : regex)
| RRep (greedy : bool) (lo : nat) (hi : option nat) (p : char -> bool)
| RGroup (i : nat) (a : regex).

Record mstate := MState {
  m_pos : nat;                      (* index in the subject *)
  m_rest : pystr;                   (* the subject from [m_pos] on *)
  m_groups : list (nat * pystr)     (* captured groups, latest first *)
}.

Definition consume (n : nat) (m : mstate) : mstate :=
  MState (m_pos m + n) (drop n (m_rest m)) (m_groups m).

Fixpoint span (p : char -> bool) (s : pystr) : nat :=
  match s with
  | c :: s' => if p c then S (span p s') else 0
  | [] => 0
  end.

(** The repetition counts to try, given that [avail] characters of the set
    follow: from the largest down when greedy, from the smallest up when
    lazy. *)
Definition rep_counts (greedy : bool) (lo : nat) (hi : option nat) (avail : nat) : list nat :=
  let top := match hi with Some h => Nat.min h avail | None => avail end in
  let up := seq lo (S top - lo) in
  if greedy then rev up else up.

Fixpoint rmatch (r : regex) (m : mstate) : list mstate :=
  match r with
  | REps => [m]
  | RBol => if Nat.eqb (m_pos m) 0 then [m] else []
  | RSet p =>
      match m_rest m with
      | c :: _ => if p c then [consume 1 m] else []
      | [] => []
      end
  | RSeq a b => flat_map (rmatch b) (rmatch a m)
  | RAlt a b => rmatch a m ++ rmatch b m
  | RRep g lo hi p =>
      map (fun n => consume n m) (rep_counts g lo hi (span p (m_rest m)))
  | RGroup i a =>
      map (fun m' => MState (m_pos m') (m_rest m')
                       ((i, take (m_pos m' - m_pos m) (m_rest m)) :: m_groups m'))
          (rmatch a m)
  end.

(** A match object: where it starts and ends, and its groups. *)
Record rematch := ReMatch {
  m_start : nat;
  m_end : nat;
  groups : list (nat * pystr)
}.

(** [m.group(i)] for a group that took part in the match *)
Definition group (i : nat) (m : rematch) : pystr :=
  match List.find (fun g => Nat.eqb (fst g) i) (groups m) with
  | Some g => snd g
  | None => []
  end.

(** The match at one position, if any. *)
Definition match_here (r : regex) (pos : nat) (s : pystr) : option rematch :=
  match rmatch r (MState pos s []) with
  | m :: _ => Some (ReMatch pos (m_pos m) (m_groups m))
  | [] => None
  end.

(** [re.search]: the first position, from the left, where the pattern
    matches; the end of the subject is tried too. *)
Fixpoint search_from (r : regex) (pos : nat) (s : pystr) : option rematch :=
  match match_here r pos s with
  | Some m => Some m
  | None =>
      match s with
      | [] => None
      | _ :: s' => search_from r (S pos) s'
      end
  end.

Definition re_search (r : regex) (s : pystr) : option rematch := search_from r 0 s.

(** [re.sub(r, repl, s)] for a pattern that cannot match the empty string
    (the two patterns of the program that are substituted cannot): every
    match found from left to right without overlap is replaced by the
    literal [repl]. *)
Fixpoint sub_go (r : regex) (repl : pystr) (pos skip : nat) (s : pystr) : pystr :=
  match s with
  | [] => []
  | c :: s' =>
      match skip with
      | S k => sub_go r repl (S pos) k s'
      | O =>
          match match_here r pos s with
          | Some m =>
              match m_end m - pos with
              | S k => repl ++ sub_go r repl (S pos) k s'
              | O => c :: sub_go r repl (S pos) 0 s'
              end
          | None => c :: sub_go r repl (S pos) 0 s'
          end
      end
  end.

Definition re_sub (r : regex) (repl s : pystr) : pystr := sub_go r repl 0 0 s.

(** Pattern syntax *)
Definition chr (a : ascii) : regex := RSet (N.eqb (N_of_ascii a)).
Definition chr_i (a : ascii) : regex := RSet (eq_ignorecase (N_of_ascii a)).

Fixpoint lit_i (s : string) : regex :=
  match s with
  | EmptyString => REps
  | String a EmptyString => chr_i a
  | String a s' => RSeq (chr_i a) (lit_i s')
  end.

Fixpoint seqs (l : list regex) : regex :=
  match l with
  | [] => REps
  | [r] => r
  | r :: l' => RSeq r (seqs l')
  end.

Definition not_space (c : char) : bool := negb (is_space c).
Definition dot (c : char) : bool := negb (c =? 0x0A)%N.          (* . *)
Definition plus (p : char -> bool) : regex := RRep true 1 None p.      (* p+ *)
Definition star (p : char -> bool) : regex := RRep true 0 None p.      (* p* *)
Definition plus_lazy (p : char -> bool) : regex := RRep false 1 None p. (* p+? *)
Definition opt (p : char -> bool) : regex := RRep true 0 (Some 1) p.   (* p? *)

(** The patterns of the program *)

Definition quote (c : char) : bool := (c =? 0x22)%N || (c =? 0x27)%N.   (* [QUOTE'] *)

(** [Post\s+[QUOTE'](.+?)[QUOTE']\s+to\s+(#[^\s]+)], IGNORECASE *)
Definition slack_re : regex :=
  seqs [lit_i "Post"; plus is_space; RSet quote; RGroup 1 (plus_lazy dot); RSet quote;
        plus is_space; lit_i "to"; plus is_space;
        RGroup 2 (RSeq (chr "#") (plus not_space))].

(** [(\+?\d[\d\s-]{9,15})] *)
Definition phone_tail (c : char) : bool := is_digit c || is_space c || (c =? 0x2D)%N.
Definition phone_re : regex :=
  RGroup 1 (seqs [opt (N.eqb 0x2B); RSet is_digit; RRep true 9 (Some 15) phone_tail]).

(** [knowledge:\s*['QUOTE](.+?)['QUOTE]\s*in\s+([^\s]+)], IGNORECASE *)
Definition knowledge_re : regex :=
  seqs [lit_i "knowledge:"; star is_space; RSet quote; RGroup 1 (plus_lazy dot); RSet quote;
        star is_space; lit_i "in"; plus is_space; RGroup 2 (plus not_space)].

(** [^(Search for|SearchAgent|find|tell me about)\s+], IGNORECASE *)
Definition search_prefix_re : regex :=
  seqs [RBol;
        RGroup 1 (RAlt (lit_i "Search for") (RAlt (lit_i "SearchAgent")
                 (RAlt (lit_i "find") (lit_i "tell me about"))));
        plus is_space].

(** [[^a-zA-Z0-9]] *)
Definition not_alnum (c : char) : bool := negb (is_ascii_alnum c).
Definition filename_re : regex := RSet not_alnum.

(** [[^a-zA-Z0-9_-]] *)
Definition not_safe (c : char) : bool :=
  negb (is_ascii_alnum c || (c =? 0x5F)%N || (c =? 0x2D)%N).
Definition safe_name_re : regex := RSet not_safe.

(** ** Values, exceptions and the monad of effects *)

(** What [json.loads] and [r.json()] return.  A [dict] keeps its keys
    distinct, in insertion order. *)
#[warnings="-register-all"]
Inductive json : Type :=
| JNull
| JBool (b : bool)
| JInt (n : Z)
| JFloat (mantissa exponent : Z)
| JStr (s : pystr)
| JList (l : list json)
| JObj (items : list (pystr * json)).

Definition type_name (v : json) : string :=
  match v with
  | JNull => "NoneType"
  | JBool _ => "bool"
  | JInt _ => "int"
  | JFloat _ _ => "float"
  | JStr _ => "str"
  | JList _ => "list"
  | JObj _ => "dict"
  end.

(** An exception: its class and [str(e)]. *)
Record exn := Exn { exn_class : string; exn_msg : pystr }.

Inductive result (A : Type) : Type :=
| Ret (a : A)
| Raise (e : exn).
Arguments Ret {A} a.
Arguments Raise {A} e.

Global Instance result_ret : MRet result := fun A a => Ret a.
Global Instance result_bind : MBind result := fun A B k r =>
  match r with
  | Ret a => k a
  | Raise e => Raise e
  end.

Fixpoint dict_get (items : list (pystr * json)) (k : pystr) : option json :=
  match items with
  | [] => None
  | (k', v) :: items' => if decide (k' = k) then Some v else dict_get items' k
  end.

Definition not_subscriptable (v : json) : exn :=
  Exn "TypeError" (py "'" ++ py (type_name v) ++ py "' object is not subscriptable").

(** [v[k]] for a string key (messages as CPython 3.11 words them) *)
Definition getitem (v : json) (k : string) : result json :=
  match v with
  | JObj items =>
      match dict_get items (py k) with
      | Some x => Ret x
      | None => Raise (Exn "KeyError" (py "'" ++ py k ++ py "'"))
      end
  | JStr _ => Raise (Exn "TypeError" (py "string indices must be integers, not 'str'"))
  | JList _ => Raise (Exn "TypeError" (py "list indices must be integers or slices, not str"))
  | _ => Raise (not_subscriptable v)
  end.

(** [v[0]] *)
Definition getitem0 (v : json) : result json :=
  match v with
  | JList (x :: _) => Ret x
  | JList [] => Raise (Exn "IndexError" (py "list index out of range"))
  | JStr (c :: _) => Ret (JStr [c])
  | JStr [] => Raise (Exn "IndexError" (py "string index out of range"))
  | JObj _ => Raise (Exn "KeyError" (py "0"))
  | _ => Raise (not_subscriptable v)
  end.

Inductive log_type := info | error | success.
Inductive step_status := in_progress | completed.

(** The three dictionaries that the program serialises for [broadcast]. *)
Inductive Event : Type :=
| Log (agent : json) (message : pystr) (level : log_type)
| Plan (steps : list json)
| StatusUpdate (step_action : json) (status : step_status).

(** Calls that leave the process, in the order they are made. *)
Inductive Call : Type :=
| PlannerPost (user_prompt : pystr)             (* requests.post, planner payload *)
| Sleep (seconds : Z)                           (* asyncio.sleep *)
| ChatPost (prompt : pystr)                     (* requests.post, knowledge query *)
| DdgsText (query : pystr) (max_results : Z)
| ChatPostMessage (channel text : pystr)        (* Slack *)
| MessagesCreate (body from_ to : pystr)        (* Twilio *)
| CalendarRun (action : pystr).

Record Response := {
  status_code : Z;
  reason : pystr;
  json_body : result json          (* what [r.json()] gives *)
}.

(** One websocket: given the messages broadcast before, [send_text] of the
    next one returns or raises. *)
Definition WebSocket := list Event -> Event -> option exn.

(** The collaborators.  Each oracle sees the calls made so far, so any
    sequence of answers is some [World]. *)
Record World := {
  (* configuration *)
  GROQ_API_KEY : pystr;
  TWILIO_ACCOUNT_SID : pystr;
  TWILIO_PHONE_NUMBER : pystr;
  (* the Python runtime *)
  py_repr : json -> pystr;                        (* [str] of a value that is not a [str] *)
  json_loads : pystr -> result json;
  (* main.py *)
  active_connections : list WebSocket;
  (* services *)
  planner_post : list Call -> pystr -> result Response;
  chat_post : list Call -> pystr -> result Response;
  ddgs_text : list Call -> pystr -> result (list json);
  chat_postMessage : list Call -> pystr -> pystr -> option exn;
  messages_create : list Call -> pystr -> pystr -> pystr -> result pystr;   (* the sid *)
  (** [calendar_agent.run(self._parse_calendar_action(action))]: it reads
      the clock, the credential files and the calendar service; the
      executor sees only the text it returns or the exception it raises. *)
  calendar_run : list Call -> pystr -> result pystr;
  (* the knowledge directory *)
  write_error : list Call -> pystr -> option exn;
  (** After a write that failed: what the file holds if [open] had succeeded
      (nothing when the text could not be encoded, the part that reached the
      device when the device failed), [None] if [open] itself failed. *)
  failed_write : list Call -> pystr -> option pystr;
  read_error : list Call -> pystr -> option exn
}.

Record state := State {
  events : list Event;             (* messages handed to [broadcast] *)
  calls : list Call;
  files : gmap (list N) (list N);  (* knowledge_base: file name to content *)
  knowledge : pystr                (* KnowledgeAgent.knowledge *)
}.

Definition M (A : Type) : Type := state -> result A * state.

Global Instance M_ret : MRet M := fun A a st => (Ret a, st).
Global Instance M_bind : MBind M := fun A B k c st =>
  match c st with
  | (Ret a, st') => k a st'
  | (Raise e, st') => (Raise e, st')
  end.

Definition raise {A} (e : exn) : M A := fun st => (Raise e, st).
Definition try_except {A} (c : M A) (handler : exn -> M A) : M A :=
  fun st => match c st with
            | (Ret a, st') => (Ret a, st')
            | (Raise e, st') => handler e st'
            end.
Definition lift {A} (r : result A) : M A := fun st => (r, st).

(** One call to a collaborator: the oracle answers from the calls made
    before, and the call is recorded. *)
Definition ask {A} (c : Call) (oracle : list Call -> result A) : M A :=
  fun st => (oracle (calls st), State (events st) (calls st ++ [c]) (files st) (knowledge st)).
Definition get : M state := fun st => (Ret st, st).

(** [str(v)] as an f-string inserts it *)
Definition py_str (w : World) (v : json) : pystr :=
  match v with
  | JStr s => s
  | _ => py_repr w v
  end.

(** A [str] method or an [re] function applied to a value that may not be a
    [str]. *)
Definition no_attribute (v : json) (name : string) : exn :=
  Exn "AttributeError" (py "'" ++ py (type_name v) ++ py "' object has no attribute '" ++ py name ++ py "'").
Definition re_type_error (v : json) : exn :=
  Exn "TypeError" (py "expected string or bytes-like object, got '" ++ py (type_name v) ++ py "'").

Definition nonempty (s : pystr) : bool := match s with [] => false | _ => true end.

Definition is_str (name : string) (v : json) : bool :=
  match v with
  | JStr s => bool_decide (s = py name)
  | _ => false
  end.

Definition nl : pystr := [0x0A%N].
Definition dquote : pystr := [0x22%N].

Definition GROQ_API_URL : pystr := py "https://api.groq.com/openai/v1/chat/completions".

(** [r.raise_for_status()] of [requests] *)
Definition raise_for_status (url : pystr) (r : Response) : result unit :=
  let http_error kind :=
    Exn "HTTPError" (py (pretty (status_code r)) ++ py kind ++ reason r ++ py " for url: " ++ url) in
  if (400 <=? status_code r)%Z && (status_code r <? 500)%Z then Raise (http_error " Client Error: ")
  else if (500 <=? status_code r)%Z && (status_code r <? 600)%Z then Raise (http_error " Server Error: ")
  else Ret tt.

(** [r.json()["choices"][0]["message"]["content"]] *)
Definition completion_content (r : Response) : result json :=
  body ← json_body r;
  choices ← getitem body "choices";
  first ← getitem0 choices;
  message ← getitem first "message";
  getitem message "content".

(** ** main.py *)
Module ConnectionManager.

Fixpoint send_all (connections : list WebSocket) (sent : list Event) (message : Event)
  : option exn :=
  match connections with
  | [] => None
  | connection :: rest =>
      match connection sent message with
      | Some e => Some e
      | None => send_all rest sent message
      end
  end.

Definition broadcast (w : World) (message : Event) : M unit :=
  fun st =>
    let st' := State (events st ++ [message]) (calls st) (files st) (knowledge st) in
    match send_all (active_connections w) (events st) message with
    | None => (Ret tt, st')
    | Some e => (Raise e, st')
    end.

End ConnectionManager.

(** ** agents.py *)
Module SlackAgent.

Definition format_help : pystr :=
  py "Slack failed: Ensure format is 'Post " ++ dquote ++ py "message" ++ dquote ++ py " to #channel'".

Definition execute (w : World) (action : pystr) : M pystr :=
  match re_search slack_re action with
  | Some m =>
      let msg := group 1 m in
      let channel := group 2 m in
      try_except
        (ask (ChatPostMessage channel msg)
             (fun h => match chat_postMessage w h channel msg with
                       | None => Ret tt
                       | Some e => Raise e
                       end);;
         mret (py "Message successfully posted to " ++ channel))
        (fun e => mret (py "Slack Error: " ++ exn_msg e))
  | None => mret format_help
  end.

End SlackAgent.

Module KnowledgeAgent.

(** The loop of [_load_knowledge] over [os.listdir]; a read that fails ends
    it with the text read so far.  The files are read in text mode. *)
Fixpoint read_all (w : World) (h : list Call) (entries : list (pystr * pystr))
    (full_text : pystr) : pystr :=
  match entries with
  | [] => full_text
  | (filename, content) :: rest =>
      if Str.endswith (py ".txt") filename then
        match read_error w h filename with
        | Some _ => full_text
        | None => read_all w h rest (full_text ++ Str.universal_newlines content ++ nl)
        end
      else read_all w h rest full_text
  end.

Definition _load_knowledge (w : World) (h : list Call) (dir : gmap (list N) (list N)) : pystr :=
  read_all w h (map_to_list dir) [].

(** The file is opened for writing, which empties it, before the text is
    written (on a system whose line end is [\n], so that the text is written
    as it is).  When that fails the knowledge is not loaded again. *)
Definition add_knowledge (w : World) (filename content : pystr) : M pystr :=
  fun st =>
    let safe_name := re_sub safe_name_re (py "_") filename in
    let file_name := safe_name ++ py ".txt" in
    match write_error w (calls st) file_name with
    | Some e =>
        (Ret (py "Error saving knowledge: " ++ exn_msg e),
         match failed_write w (calls st) file_name with
         | Some kept => State (events st) (calls st) (<[file_name := kept]> (files st)) (knowledge st)
         | None => st
         end)
    | None =>
        let dir := <[file_name := Str.strip content]> (files st) in
        (Ret (py "Knowledge successfully stored in " ++ safe_name ++ py ".txt"),
         State (events st) (calls st) dir (_load_knowledge w (calls st) dir))
    end.

Definition empty_answer : pystr :=
  py "Knowledge base is empty. I don't have internal info on this.".

Definition run (w : World) (query : pystr) : M pystr :=
  st ← get;
  if negb (nonempty (knowledge st)) then mret empty_answer
  else
    let prompt := py "Context: " ++ knowledge st ++ nl ++ nl ++ py "Question: " ++ query
                  ++ nl ++ nl ++ py "Answer only based on context:" in
    try_except
      (r ← ask (ChatPost prompt) (fun h => chat_post w h prompt);
       lift (raise_for_status GROQ_API_URL r);;
       content ← lift (completion_content r);
       match content with
       | JStr s => mret (Str.strip s)
       | v => raise (no_attribute v "strip")
       end)
      (fun e => mret (py "Knowledge retrieval error: " ++ exn_msg e)).

End KnowledgeAgent.

Module SearchAgent.

(** [f"{r['title']}: {r['body']}"] *)
Definition format_result (w : World) (r : json) : result pystr :=
  title ← getitem r "title";
  body ← getitem r "body";
  mret (py_str w title ++ py ": " ++ py_str w body).

Fixpoint format_results (w : World) (results : list json) : result (list pystr) :=
  match results with
  | [] => mret []
  | r :: rest =>
      line ← format_result w r;
      lines ← format_results w rest;
      mret (line :: lines)
  end.

Definition run (w : World) (query : pystr) : M pystr :=
  let clean_query := Str.strip (re_sub search_prefix_re [] query) in
  try_except
    (results ← ask (DdgsText clean_query 3) (fun h => ddgs_text w h clean_query);
     match results with
     | [] => mret (py "No search results found on the web for '" ++ clean_query ++ py "'.")
     | _ => lines ← lift (format_results w results); mret (Str.join nl lines)
     end)
    (fun e => mret (py "Search error: " ++ exn_msg e)).

End SearchAgent.

Module CommunicationAgent.

Definition colon_or_space (c : char) : bool := (c =? 0x3A)%N || (c =? 0x20)%N.

Definition failure : pystr := py "Communication failed: Ensure phone number is valid.".

(** [to_no] and [msg_content], from the matched text [number] *)
Definition to_no (number : pystr) : pystr :=
  let to_no := Str.replace (py "-") [] (Str.replace (py " ") [] number) in
  if Str.startswith (py "+") to_no then to_no else py "+" ++ to_no.

Definition msg_content (number action : pystr) : pystr :=
  Str.strip_chars colon_or_space (last_piece (Str.split number action)).

Definition run (w : World) (action : pystr) : M pystr :=
  match re_search phone_re action with
  | Some phone_match =>
      if nonempty (TWILIO_ACCOUNT_SID w) then      (* self.client is not None *)
        let to_no := to_no (group 1 phone_match) in
        let msg_content := msg_content (group 1 phone_match) action in
        try_except
          (message_sid ← ask (MessagesCreate (take 160 msg_content) (TWILIO_PHONE_NUMBER w) to_no)
                     (fun h => messages_create w h (take 160 msg_content) (TWILIO_PHONE_NUMBER w) to_no);
           mret (py "SMS sent! SID: " ++ message_sid))
          (fun e => mret (py "Twilio Error: " ++ exn_msg e))
      else mret failure
  | None => mret failure
  end.

End CommunicationAgent.

(** ** orchestrator.py *)
Module TaskOrchestrator.

Import ConnectionManager.

Definition missing_key : exn := Exn "RuntimeError" (py "Missing GROQ_API_KEY").

(** The retry loop of [_groq_request]: [attempts] iterations remain and [r]
    is the response of the last iteration, if there was one.  A 429 sleeps
    and goes round again; any other response either raises in
    [raise_for_status] or leaves the loop. *)
Fixpoint retry_loop (w : World) (user_prompt : pystr) (attempts : nat) (r : option Response)
  : M Response :=
  match attempts with
  | O =>
      match r with
      | Some r => mret r
      | None => raise (Exn "UnboundLocalError" (py "cannot access local variable 'r' where it is not associated with a value"))
      end
  | S attempts' =>
      r ← ask (PlannerPost user_prompt) (fun h => planner_post w h user_prompt);
      if (status_code r =? 429)%Z then
        ask (Sleep 5) (fun _ => Ret tt);;
        retry_loop w user_prompt attempts' (Some r)
      else
        lift (raise_for_status GROQ_API_URL r);;
        mret r
  end.

(** [json.loads(result)] *)
Definition loads (w : World) (content : json) : result json :=
  match content with
  | JStr s => json_loads w s
  | v => Raise (Exn "TypeError" (py "the JSON object must be str, bytes or bytearray, not " ++ py (type_name v)))
  end.

(** [parsed.get("steps", parsed) if isinstance(parsed, dict) else parsed] *)
Definition steps_of (parsed : json) : json :=
  match parsed with
  | JObj items =>
      match dict_get items (py "steps") with
      | Some steps => steps
      | None => parsed
      end
  | _ => parsed
  end.

Definition _groq_request (w : World) (user_prompt : pystr) : M json :=
  if negb (nonempty (GROQ_API_KEY w)) then raise missing_key
  else
    r ← retry_loop w user_prompt 3 None;
    result ← lift (completion_content r);
    parsed ← lift (loads w result);
    mret (steps_of parsed).

(** [if not isinstance(self.plan, list): self.plan = [self.plan]] *)
Definition as_list (plan : json) : list json :=
  match plan with
  | JList steps => steps
  | _ => [plan]
  end.

(** The branches of [_execute_step] between the two status messages. *)
Definition dispatch (w : World) (agent action : json) : M pystr :=
  if is_str "KnowledgeAgent" agent then
    match action with
    | JStr a =>
        if Str.contains (py "add knowledge") (Str.lower a) then
          match re_search knowledge_re a with
          | Some m => KnowledgeAgent.add_knowledge w (group 2 m) (group 1 m)
          | None => mret (py "Parse Error")
          end
        else KnowledgeAgent.run w a
    | v => raise (no_attribute v "lower")
    end
  else if is_str "SearchAgent" agent then
    match action with
    | JStr a =>
        msg ← SearchAgent.run w a;
        let filename := re_sub filename_re (py "_") (take 20 a) in
        KnowledgeAgent.add_knowledge w filename msg;;
        broadcast w (Log (JStr (py "KnowledgeAgent"))
                         (py "Auto-saved results for '" ++ a ++ py "' to knowledge base.") info);;
        mret msg
    | v => raise (re_type_error v)
    end
  else if is_str "SlackAgent" agent then
    match action with
    | JStr a => SlackAgent.execute w a
    | v => raise (re_type_error v)
    end
  else if is_str "CommunicationAgent" agent then
    match action with
    | JStr a => CommunicationAgent.run w a
    | v => raise (re_type_error v)
    end
  else if is_str "CalendarAgent" agent then
    match action with
    | JStr a =>
        text ← ask (CalendarRun a) (fun h => calendar_run w h a);
        mret (py "Event: " ++ text)
    | v => raise (re_type_error v)
    end
  else mret (py "Task completed by " ++ py_str w agent).

Definition _execute_step (w : World) (agent action : json) : M pystr :=
  broadcast w (StatusUpdate action in_progress);;
  try_except
    (msg ← dispatch w agent action;
     broadcast w (StatusUpdate action completed);;
     broadcast w (Log agent msg info);;
     mret msg)
    (fun e =>
       broadcast w (Log agent (py "Error: " ++ exn_msg e) error);;
       mret (py "Error: " ++ exn_msg e)).

(** [agent_name in ["CommunicationAgent", "SlackAgent"]] *)
Definition consumes_context (agent_name : json) : bool :=
  is_str "CommunicationAgent" agent_name || is_str "SlackAgent" agent_name.

(** The instruction handed to [_execute_step] *)
Definition with_context (w : World) (context : pystr) (agent_name action : json) : json :=
  if nonempty context && consumes_context agent_name
  then JStr (py_str w action ++ py ". Info: " ++ context)
  else action.

(** [for step in self.plan: ...], with the [context] carried round the loop *)
Fixpoint run_steps (w : World) (context : pystr) (plan : list json) : M unit :=
  match plan with
  | [] => mret tt
  | step :: rest =>
      agent_name ← lift (getitem step "agent");
      action ← lift (getitem step "action");
      result ← _execute_step w agent_name (with_context w context agent_name action);
      run_steps w result rest
  end.

Definition planner : json := JStr (py "PlannerAgent").
Definition system : json := JStr (py "System").

Definition execute_plan (w : World) (prompt : pystr) : M unit :=
  plan ← try_except
           (broadcast w (Log planner (py "Groq is planning...") info);;
            plan ← _groq_request w prompt;
            mret (Some (as_list plan)))
           (fun e =>
              broadcast w (Log system (py "Planning failed: " ++ exn_msg e) error);;
              mret None);
  match plan with
  | None => mret tt
  | Some plan =>
      broadcast w (Plan plan);;
      run_steps w [] plan;;
      broadcast w (Log system (py "All tasks done!") success)
  end.

End TaskOrchestrator.

(** ** Predicates of the statements *)

(** A computation that leaves the list of broadcast messages alone. *)
Definition keeps_events {A} (c : M A) : Prop :=
  forall st, events (c st).2 = events st.

(** A computation that never raises. *)
Definition returns {A} (c : M A) : Prop :=
  forall st, exists a, (c st).1 = Ret a.

(** No websocket ever raises in [send_text]. *)
Definition sink_ok (w : World) : Prop :=
  forall sent message, ConnectionManager.send_all (active_connections w) sent message = None.

(** The state once [message] has been handed to [broadcast]. *)
Definition published (message : Event) (st : state) : state :=
  State (events st ++ [message]) (calls st) (files st) (knowledge st).

(** The state once call [c] has been made. *)
Definition called (c : Call) (st : state) : state :=
  State (events st) (calls st ++ [c]) (files st) (knowledge st).

(** The message that the Search branch of [_execute_step] publishes about the
    automatic save, if this step is a search on a text instruction. *)
Definition autosave_log (agent action : json) : list Event :=
  if is_str "SearchAgent" agent then
    match action with
    | JStr a => [Log (JStr (py "KnowledgeAgent"))
                     (py "Auto-saved results for '" ++ a ++ py "' to knowledge base.") info]
    | _ => []
    end
  else [].

(** A step from which both [step["agent"]] and [step["action"]] can be read. *)
Definition has_fields (step : json) : bool :=
  match getitem step "agent", getitem step "action" with
  | Ret _, Ret _ => true
  | _, _ => false
  end.

Definition is_started (ev : Event) : bool :=
  match ev with
  | StatusUpdate _ in_progress => true
  | _ => false
  end.

(** How many steps the message list shows as started. *)
Definition started (evs : list Event) : nat := length (filter (fun ev => is_started ev = true) evs).

(** The instruction a step is dispatched with, in the words of the
    specification: the context is appended, after [". Info: "], exactly when
    it is not empty and the capability is the messaging or the notification
    one. *)
Definition instruction_per_spec (w : World) (context : pystr) (agent action : json) : json :=
  if nonempty context && (is_str "SlackAgent" agent || is_str "CommunicationAgent" agent)
  then JStr (py_str w action ++ py ". Info: " ++ context)
  else action.

(** The messages of a run of steps, read as the specification describes
    context threading: each step opens with the "in progress" status of the
    instruction it was dispatched with, built from the context it received,
    and closes with the log of its outcome, and that outcome is the context
    of the step that follows. *)
Fixpoint threaded (w : World) (context : pystr) (plan : list json) (evs : list Event) : Prop :=
  match plan with
  | [] => evs = []
  | step :: rest =>
      exists agent action mid outcome level evs',
        getitem step "agent" = Ret agent /\
        getitem step "action" = Ret action /\
        evs = StatusUpdate (instruction_per_spec w context agent action) in_progress
                :: mid ++ Log agent outcome level :: evs' /\
        Forall (fun ev => is_started ev = false) mid /\
        threaded w outcome rest evs'
  end.

Definition planning_log : Event := Log TaskOrchestrator.planner (py "Groq is planning...") info.
Definition done_log : Event := Log TaskOrchestrator.system (py "All tasks done!") success.
Definition planning_failed (e : exn) : Event :=
  Log TaskOrchestrator.system (py "Planning failed: " ++ exn_msg e) error.

(** Every step of the plan that the planner's answer leads to can be read. *)
Definition plan_readable (w : World) (prompt : pystr) (st : state) : bool :=
  match (TaskOrchestrator._groq_request w prompt
           (published planning_log st)).1 with
  | Ret plan => forallb has_fields (TaskOrchestrator.as_list plan)
  | Raise _ => true
  end.

(** The least number of characters a match of the pattern consumes. *)
Fixpoint min_len (r : regex) : nat :=
  match r with
  | REps | RBol => 0
  | RSet _ => 1
  | RSeq a b => min_len a + min_len b
  | RAlt a b => Nat.min (min_len a) (min_len b)
  | RRep _ lo _ _ => lo
  | RGroup _ a => min_len a
  end.

(** [t] is the literal [l] up to the case of its letters. *)
Fixpoint matches_i (l t : pystr) : bool :=
  match l, t with
  | [], [] => true
  | a :: l', c :: t' => eq_ignorecase a c && matches_i l' t'
  | _, _ => false
  end.


(** A phone number as the specification describes it: an optional [+], then
    10 to 16 digits, the first of them at once, with spaces or hyphens
    allowed among them. *)
Definition phone_number_per_spec (t : pystr) : bool :=
  let digits :=
    match t with
    | c :: t' => if (c =? 0x2B)%N then t' else t
    | [] => []
    end in
  match digits with
  | d :: _ =>
      is_digit d
      && forallb (fun c => is_digit c || (c =? 0x20)%N || (c =? 0x2D)%N) digits
      && (10 <=? length (List.filter is_digit digits))
      && (length (List.filter is_digit digits) <=? 16)
  | [] => false
  end.

(** The message body as the specification describes it: the text after the
    matched number, without leading colons and spaces, cut at 160
    characters. *)
Definition body_per_spec (action : pystr) (m : rematch) : pystr :=
  take 160 (Str.lstrip CommunicationAgent.colon_or_space (drop (m_end m) action)).

(** The name of the record of a search, in the words of the specification:
    the first 20 characters of the instruction, every character that is not
    an ASCII letter or digit replaced by an underscore. *)
Definition record_name_per_spec (instruction : pystr) : pystr :=
  map (fun c => if is_ascii_alnum c then c else 0x5F%N) (take 20 instruction).

(** ** The concrete runs *)

Definition step (agent action : string) : json :=
  JObj [(py "agent", JStr (py agent)); (py "action", JStr (py action))].

(** A chat-completion body whose message content is [content]. *)
Definition completion (content : json) : json :=
  JObj [(py "choices", JList [JObj [(py "message", JObj [(py "content", content)])]])].

Definition response (status : Z) (body : json) : Response :=
  {| status_code := status; reason := py "-"; json_body := Ret body |}.

Definition decode_error : exn := Exn "JSONDecodeError" (py "Expecting value: line 1 column 1 (char 0)").

(** A world in which the planner answers [planner] to every attempt, the
    content [plan_text] decodes to [plan] (and nothing else decodes), the
    search engine returns [found], the calendar capability answers
    [calendar], and the websockets are [connections].  Slack and Twilio
    accept every call, the chat endpoint is unreachable and the file system
    never fails. *)
Definition world (connections : list WebSocket) (planner : result Response)
    (plan_text : pystr) (plan : json) (found : list json) (calendar : result pystr) : World :=
  {| GROQ_API_KEY := py "gsk";
     TWILIO_ACCOUNT_SID := py "AC0";
     TWILIO_PHONE_NUMBER := py "+15550100";
     py_repr := fun _ => py "<object>";
     json_loads := fun s => if decide (s = plan_text) then Ret plan else Raise decode_error;
     active_connections := connections;
     planner_post := fun _ _ => planner;
     chat_post := fun _ _ => Raise (Exn "ConnectionError" (py "unreachable"));
     ddgs_text := fun _ _ => Ret found;
     chat_postMessage := fun _ _ _ => None;
     messages_create := fun _ _ _ _ => Ret (py "SM1");
     calendar_run := fun _ _ => calendar;
     write_error := fun _ _ => None;
     failed_write := fun _ _ => None;
     read_error := fun _ _ => None |}.

(** The planner answers 200 with a completion whose content is [plan_text]. *)
Definition planned (connections : list WebSocket) (plan_text : pystr) (plan : json)
    (found : list json) (calendar : result pystr) : World :=
  world connections (Ret (response 200 (completion (JStr plan_text)))) plan_text plan found calendar.

Definition fresh : state := State [] [] ∅ [].

Definition quoted (s : string) : pystr := dquote ++ py s ++ dquote.

(** The JSON text of one step and of an object with a [steps] list. *)
Definition step_text (agent action : string) : pystr :=
  py "{" ++ quoted "agent" ++ py ": " ++ quoted agent ++ py ", "
    ++ quoted "action" ++ py ": " ++ quoted action ++ py "}".
Definition steps_text (steps : list pystr) : pystr :=
  py "{" ++ quoted "steps" ++ py ": [" ++ Str.join (py ", ") steps ++ py "]}".

(** A calendar step followed by a Slack step; the calendar capability raises
    (a malformed [token.json] makes the credentials loader raise before the
    capability's own [try]). *)
Definition standup_text : pystr :=
  steps_text [step_text "CalendarAgent" "Schedule standup for tomorrow";
              step_text "SlackAgent" "Post 'see you' to #general"].
Definition standup_plan : json :=
  JObj [(py "steps", JList [step "CalendarAgent" "Schedule standup for tomorrow";
                            step "SlackAgent" "Post 'see you' to #general"])].
Definition calendar_fails : World :=
  planned [] standup_text standup_plan []
    (Raise (Exn "ValueError" (py "Authorized user info was not in the expected format"))).

(** A websocket whose peer is gone: every [send_text] raises. *)
Definition dead_socket : WebSocket := fun _ _ => Some (Exn "WebSocketDisconnect" (py "1006")).
Definition sink_down : World :=
  planned [dead_socket] standup_text standup_plan [] (Ret (py "Event created: None")).

(** The planner's content is the JSON number 5. *)
Definition number_plan : World := planned [] (py "5") (JInt 5) [] (Ret []).

(** The content is a list with a step that has no [agent]. *)
Definition agentless_text : pystr :=
  py "[{" ++ quoted "action" ++ py ": " ++ quoted "Search for pizza" ++ py "}]".
Definition agentless : World :=
  planned [] agentless_text (JList [JObj [(py "action", JStr (py "Search for pizza"))]]) []
    (Ret []).

(** Every attempt is answered 429, with a body that holds a completion. *)
Definition hello_text : pystr := steps_text [step_text "SlackAgent" "Post 'hello' to #general"].
Definition hello_plan : json :=
  JObj [(py "steps", JList [step "SlackAgent" "Post 'hello' to #general"])].
Definition always_429 : World :=
  world [] (Ret (response 429 (completion (JStr hello_text)))) hello_text hello_plan []
    (Ret []).

(** A search whose one result has a body that ends in a space. *)
Definition pizza_text : pystr := steps_text [step_text "SearchAgent" "Search for best pizza in Rome"].
Definition pizza_plan : json :=
  JObj [(py "steps", JList [step "SearchAgent" "Search for best pizza in Rome"])].
Definition pizza_found : list json :=
  [JObj [(py "title", JStr (py "Pizza guide")); (py "body", JStr (py "Try Da Remo. "))]].
Definition pizza : World := planned [] pizza_text pizza_plan pizza_found (Ret []).

(** A message that repeats the number. *)
Definition call_back : pystr := py "Text 5551234567: call 5551234567 back".

(** The instruction of the planner's format with curly quotes (U+201C,
    U+201D) around the message. *)
Definition curly_post : pystr :=
  py "Post " ++ [0x201C%N] ++ py "Hello" ++ [0x201D%N] ++ py " to #general".

(** ** Further predicates and runs *)

(** [k] rounds of the retry loop that were answered 429: a request and a
    sleep of five seconds each. *)
Fixpoint attempts (prompt : pystr) (k : nat) : list Call :=
  match k with
  | O => []
  | S k' => PlannerPost prompt :: Sleep 5 :: attempts prompt k'
  end.


(** A computation whose final state is always related to its initial state
    by [R]. *)
Definition preserves {A} (R : relation state) (c : M A) : Prop :=
  forall st, R st (c st).2.

(** The knowledge directory and the loaded text are the same. *)
Definition same_store (st st' : state) : Prop :=
  files st' = files st /\ knowledge st' = knowledge st.

(** No record of the knowledge directory is gone. *)
Definition records_kept (st st' : state) : Prop :=
  forall k, is_Some (files st !! k) -> is_Some (files st' !! k).

(** The steps that reach [add_knowledge]: a search, or a knowledge step whose
    instruction holds the words "add knowledge" in any case. *)
Definition saves (agent action : json) : bool :=
  is_str "SearchAgent" agent
  || is_str "KnowledgeAgent" agent
     && match action with
        | JStr a => Str.contains (py "add knowledge") (Str.lower a)
        | _ => false
        end.

(** World [w] with another planner endpoint, key, search engine or file
    system. *)
Definition with_planner (post : list Call -> pystr -> result Response) (w : World) : World :=
  {| GROQ_API_KEY := GROQ_API_KEY w; TWILIO_ACCOUNT_SID := TWILIO_ACCOUNT_SID w;
     TWILIO_PHONE_NUMBER := TWILIO_PHONE_NUMBER w; py_repr := py_repr w;
     json_loads := json_loads w; active_connections := active_connections w;
     planner_post := post; chat_post := chat_post w; ddgs_text := ddgs_text w;
     chat_postMessage := chat_postMessage w; messages_create := messages_create w;
     calendar_run := calendar_run w; write_error := write_error w;
     failed_write := failed_write w; read_error := read_error w |}.

Definition with_key (key : pystr) (w : World) : World :=
  {| GROQ_API_KEY := key; TWILIO_ACCOUNT_SID := TWILIO_ACCOUNT_SID w;
     TWILIO_PHONE_NUMBER := TWILIO_PHONE_NUMBER w; py_repr := py_repr w;
     json_loads := json_loads w; active_connections := active_connections w;
     planner_post := planner_post w; chat_post := chat_post w; ddgs_text := ddgs_text w;
     chat_postMessage := chat_postMessage w; messages_create := messages_create w;
     calendar_run := calendar_run w; write_error := write_error w;
     failed_write := failed_write w; read_error := read_error w |}.

Definition with_search (text : list Call -> pystr -> result (list json)) (w : World) : World :=
  {| GROQ_API_KEY := GROQ_API_KEY w; TWILIO_ACCOUNT_SID := TWILIO_ACCOUNT_SID w;
     TWILIO_PHONE_NUMBER := TWILIO_PHONE_NUMBER w; py_repr := py_repr w;
     json_loads := json_loads w; active_connections := active_connections w;
     planner_post := planner_post w; chat_post := chat_post w; ddgs_text := text;
     chat_postMessage := chat_postMessage w; messages_create := messages_create w;
     calendar_run := calendar_run w; write_error := write_error w;
     failed_write := failed_write w; read_error := read_error w |}.

(** The planner is rate limited once, then answers. *)
Definition busy_once : World :=
  with_planner (fun h _ => match h with
                           | [] => Ret (response 429 (JObj [(py "error", JStr (py "rate_limit_exceeded"))]))
                           | _ => Ret (response 200 (completion (JStr hello_text)))
                           end)
               always_429.

(** The planner answers 503. *)
Definition unavailable : World :=
  with_planner (fun _ _ => Ret (response 503 JNull)) always_429.

(** No API key is configured. *)
Definition keyless : World := with_key [] pizza.

(** The search engine cannot be reached. *)
Definition offline : World :=
  with_search (fun _ _ => Raise (Exn "DuckDuckGoSearchException" (py "timed out"))) pizza.






(** ** The calendar instruction (orchestrator.py, [_parse_calendar_action]) *)

(** [datetime] values without a time zone, as [datetime.now()] returns them,
    and the operations on them that the program uses. *)
Module Datetime.

Record datetime := DateTime {
  year : Z; month : Z; day : Z;
  hour : Z; minute : Z; second : Z; microsecond : Z
}.

Definition is_leap (y : Z) : bool :=
  (y mod 4 =? 0)%Z && (negb (y mod 100 =? 0)%Z || (y mod 400 =? 0)%Z).

Definition days_in_month (y m : Z) : Z :=
  if (m =? 2)%Z then (if is_leap y then 29 else 28)%Z
  else if (m =? 4)%Z || (m =? 6)%Z || (m =? 9)%Z || (m =? 11)%Z then 30%Z
  else 31%Z.

(** The values of the type: years 1 to 9999, a day of the month, a time of
    the day. *)
Definition valid (d : datetime) : bool :=
  (1 <=? year d)%Z && (year d <=? 9999)%Z && (1 <=? month d)%Z && (month d <=? 12)%Z
  && (1 <=? day d)%Z && (day d <=? days_in_month (year d) (month d))%Z
  && (0 <=? hour d)%Z && (hour d <? 24)%Z && (0 <=? minute d)%Z && (minute d <? 60)%Z
  && (0 <=? second d)%Z && (second d <? 60)%Z
  && (0 <=? microsecond d)%Z && (microsecond d <? 1000000)%Z.

Definition set_date (d : datetime) (y m dd : Z) : datetime :=
  DateTime y m dd (hour d) (minute d) (second d) (microsecond d).

(** [d.replace(hour=h, minute=m)] *)
Definition replace (d : datetime) (h m : Z) : datetime :=
  DateTime (year d) (month d) (day d) h m (second d) (microsecond d).

Definition out_of_range : exn := Exn "OverflowError" (py "date value out of range").

(** The day after; there is none after 9999-12-31. *)
Definition next_day (d : datetime) : result datetime :=
  if (day d <? days_in_month (year d) (month d))%Z then Ret (set_date d (year d) (month d) (day d + 1))
  else if (month d <? 12)%Z then Ret (set_date d (year d) (month d + 1) 1)
  else if (year d <? 9999)%Z then Ret (set_date d (year d + 1) 1 1)
  else Raise out_of_range.

Fixpoint add_days (n : nat) (d : datetime) : result datetime :=
  match n with
  | O => Ret d
  | S n' => d' ← next_day d; add_days n' d'
  end.

(** [d + timedelta(days=days, hours=hours, minutes=minutes)] for arguments
    that are not negative: the minutes are added to the time of the day and
    what exceeds a day is carried into the date. *)
Definition add (d : datetime) (days : nat) (hours minutes : Z) : result datetime :=
  let t := (hour d * 60 + minute d + hours * 60 + minutes)%Z in
  d' ← add_days (days + Z.to_nat (t / 1440)) d;
  Ret (replace d' (t mod 1440 / 60) (t mod 60)).

(** [n] written with [width] decimal digits ([%0{width}d], for an [n] that
    fits) *)
Fixpoint digits (width : nat) (n : Z) : pystr :=
  match width with
  | O => []
  | S width' => digits width' (n / 10) ++ [(0x30 + Z.to_N (n mod 10))%N]
  end.

(** [d.isoformat()]: the microseconds are written when they are not zero. *)
Definition isoformat (d : datetime) : pystr :=
  digits 4 (year d) ++ py "-" ++ digits 2 (month d) ++ py "-" ++ digits 2 (day d) ++ py "T"
  ++ digits 2 (hour d) ++ py ":" ++ digits 2 (minute d) ++ py ":" ++ digits 2 (second d)
  ++ (if (microsecond d =? 0)%Z then [] else py "." ++ digits 6 (microsecond d)).

Fixpoint lex_lt (a b : list Z) : bool :=
  match a, b with
  | x :: a', y :: b' => (x <? y)%Z || ((x =? y)%Z && lex_lt a' b')
  | _, _ => false
  end.

(** [d1 < d2] *)
Definition lt (d1 d2 : datetime) : bool :=
  lex_lt [year d1; month d1; day d1; hour d1; minute d1; second d1; microsecond d1]
         [year d2; month d2; day d2; hour d2; minute d2; second d2; microsecond d2].

End Datetime.

(** [schedule\s+(?:a\s+)?(.+?)\s+for], IGNORECASE *)
Definition calendar_re : regex :=
  seqs [lit_i "schedule"; plus is_space; RAlt (RSeq (chr_i "a") (plus is_space)) REps;
        RGroup 1 (plus_lazy dot); plus is_space; lit_i "for"].

Module CalendarAction.

Import Datetime.

Record event_details := EventDetails {
  title : pystr;
  start_time : pystr;
  end_time : pystr
}.

(** The local [title] *)
Definition title_of (action : pystr) : pystr :=
  match re_search calendar_re action with
  | Some title_match => Str.strip (group 1 title_match)
  | None => py "Meeting"
  end.

(** The local [start_time], with the clock showing [now] *)
Definition start_of (now : datetime) (action : pystr) : result datetime :=
  start_time ← (if Str.contains (py "tomorrow") (Str.lower action)
                then add now 1 0 0
                else add now 0 0 30);
  Ret (replace start_time 10 0).

Definition _parse_calendar_action (now : datetime) (action : pystr) : result event_details :=
  let title := title_of action in
  start_time ← start_of now action;
  end_time ← add start_time 0 1 0;
  Ret (EventDetails title (isoformat start_time) (isoformat end_time)).

End CalendarAction.

(** The optional article of [schedule a X for]: absent, in which case the
    title is not the one letter [a] itself, or the letter [a] in either
    case followed by white space. *)
Definition article (art X : pystr) : bool :=
  match art with
  | [] => negb (matches_i (py "a") X)
  | c :: ws => eq_ignorecase 0x61%N c && nonempty ws && forallb is_space ws
  end.

(** The parts of an instruction [Schedule [a] X for ...] whose title [X] is
    one word. *)
Definition title_parts (S ws1 art X ws2 FOR : pystr) : bool :=
  matches_i (py "schedule") S && nonempty ws1 && forallb is_space ws1 && article art X
  && nonempty X && forallb not_space X && nonempty ws2 && forallb is_space ws2
  && matches_i (py "for") FOR.

(** ** Runs with a client that leaves *)

Definition is_error_log (ev : Event) : bool :=
  match ev with
  | Log _ _ error => true
  | _ => false
  end.

(** A websocket whose client closes the connection once it has been sent an
    error log: every later [send_text] raises. *)
Definition hangs_up_on_error : WebSocket :=
  fun sent _ =>
    if existsb is_error_log sent then Some (Exn "WebSocketDisconnect" (py "1001")) else None.

(** The calendar step followed by the Slack step, sent to that client: once
    with a calendar capability that raises, once with one that answers. *)
Definition leaves_on_error : World :=
  planned [hangs_up_on_error] standup_text standup_plan []
    (Raise (Exn "ValueError" (py "Authorized user info was not in the expected format"))).
Definition stays : World :=
  planned [hangs_up_on_error] standup_text standup_plan [] (Ret (py "Event created: None")).

(** A number written with spaces around its hyphens. *)
Definition spaced_number : pystr := py "Send SMS to +1 - 555 - 123 - 4567: Lunch at noon".

(** ** Readings of a Slack instruction *)

(** The part of [slack_re] after the message group *)
Definition closing_re : regex :=
  seqs [RSet quote; plus is_space; lit_i "to"; plus is_space;
        RGroup 2 (RSeq (chr "#") (plus not_space))].

(** One way to read an instruction as [... Post 'X' to #Y ...]: the text
    before, the keyword, white space, the opening quote, the message, the
    closing quote, white space, the keyword, white space, the channel name
    after its [#], and the text after. *)
Record reading := Reading {
  rd_before : pystr;
  rd_post : pystr;
  rd_ws1 : pystr;
  rd_q1 : char;
  rd_message : pystr;
  rd_q2 : char;
  rd_ws2 : pystr;
  rd_to : pystr;
  rd_ws3 : pystr;
  rd_channel : pystr;
  rd_after : pystr
}.

Definition closing_text (r : reading) : pystr :=
  rd_q2 r :: rd_ws2 r ++ rd_to r ++ rd_ws3 r ++ 0x23%N :: rd_channel r ++ rd_after r.

Definition reading_text (r : reading) : pystr :=
  rd_before r ++ rd_post r ++ rd_ws1 r ++ rd_q1 r :: rd_message r ++ closing_text r.

(** The keywords in any case, straight single or double quotes, a message
    of one line that is not empty (it may hold quotes), runs of white space
    between the parts, a channel name without white space. *)
Definition closing_shape (r : reading) : bool :=
  quote (rd_q2 r) && nonempty (rd_ws2 r) && forallb is_space (rd_ws2 r)
  && matches_i (py "to") (rd_to r) && nonempty (rd_ws3 r) && forallb is_space (rd_ws3 r)
  && nonempty (rd_channel r) && forallb not_space (rd_channel r).

Definition post_shape (r : reading) : bool :=
  matches_i (py "Post") (rd_post r) && nonempty (rd_ws1 r) && forallb is_space (rd_ws1 r)
  && quote (rd_q1 r) && nonempty (rd_message r) && forallb dot (rd_message r)
  && closing_shape r.

Definition reads (action : pystr) (r : reading) : Prop :=
  action = reading_text r /\ post_shape r = true.

(** [r] is the first reading of the instruction and, among the readings
    that start there, one with the shortest message. *)
Definition first_shortest (action : pystr) (r : reading) : Prop :=
  forall r', reads action r' ->
    length (rd_before r) <= length (rd_before r') /\
    (length (rd_before r') = length (rd_before r) ->
     length (rd_message r) <= length (rd_message r')).

(** The channel of a reading, lengthened up to the next white space. *)
Definition whole_channel (r : reading) : reading :=
  let k := span not_space (rd_after r) in
  Reading (rd_before r) (rd_post r) (rd_ws1 r) (rd_q1 r) (rd_message r) (rd_q2 r) (rd_ws2 r)
    (rd_to r) (rd_ws3 r) (rd_channel r ++ take k (rd_after r)) (drop k (rd_after r)).

(** An instruction with words before and after, and an apostrophe in the
    message. *)
Definition plan_post : pystr :=
  py "Please post " ++ dquote ++ py "Here's the plan" ++ dquote ++ py " to #general now".
Definition plan_reading : reading :=
  Reading (py "Please ") (py "post") (py " ") 0x22%N (py "Here's the plan") 0x22%N (py " ")
    (py "to") (py " ") (py "general") (py " now").

(** ** main.py: the registry of websockets

    [ConnectionManager.connect] and [disconnect], and [websocket_endpoint],
    over websockets that are told apart by identity. *)
Module Registry.

Section Sockets.

Context {Socket : Type} `{EqDecision Socket}.

(** [l.remove(x)]: the list without its first element equal to [x], if it
    has one. *)
Fixpoint remove_first (x : Socket) (l : list Socket) : option (list Socket) :=
  match l with
  | [] => None
  | y :: l' => if decide (y = x) then Some l' else option_map (cons y) (remove_first x l')
  end.

(** [accept] is what [websocket.accept()] raises, if it does. *)
Definition connect (accept : option exn) (websocket : Socket) (active_connections : list Socket)
  : result unit * list Socket :=
  match accept with
  | Some e => (Raise e, active_connections)
  | None => (Ret tt, active_connections ++ [websocket])
  end.

Definition disconnect (websocket : Socket) (active_connections : list Socket)
  : result unit * list Socket :=
  match remove_first websocket active_connections with
  | Some rest => (Ret tt, rest)
  | None => (Raise (Exn "ValueError" (py "list.remove(x): x not in list")), active_connections)
  end.

(** The loop [while True: await websocket.receive_text()], given what the
    successive calls do: the exception that ends it, or [None] while every
    call so far has returned. *)
Fixpoint receive_loop (incoming : list (result pystr)) : option exn :=
  match incoming with
  | [] => None
  | Ret _ :: rest => receive_loop rest
  | Raise e :: _ => Some e
  end.

(** Where the coroutine of an endpoint is. *)
Inductive progress : Type :=
| Receiving                       (* waiting in [receive_text] *)
| Ended (r : result unit).

(** What [except WebSocketDisconnect] does with the exception that ended
    the loop, on the registry as it is by then. *)
Definition leave (e : exn) (websocket : Socket) (active_connections : list Socket)
  : result unit * list Socket :=
  if String.eqb (exn_class e) "WebSocketDisconnect"
  then disconnect websocket active_connections
  else (Raise e, active_connections).

(** [websocket_endpoint] when no other coroutine touches the registry in
    between. *)
Definition websocket_endpoint (accept : option exn) (incoming : list (result pystr))
    (websocket : Socket) (active_connections : list Socket) : progress * list Socket :=
  match connect accept websocket active_connections with
  | (Raise e, registry) => (Ended (Raise e), registry)
  | (Ret _, registry) =>
      match receive_loop incoming with
      | None => (Receiving, registry)
      | Some e => let (r, registry') := leave e websocket registry in (Ended r, registry')
      end
  end.

End Sockets.

End Registry.

(** Some websocket raises in [send_text] whatever the message is. *)
Definition sink_dead (w : World) : Prop :=
  forall sent message, ConnectionManager.send_all (active_connections w) sent message <> None.

(** One of the four prefixes that [SearchAgent.run] removes, in any case. *)
Definition search_prefix (W : pystr) : bool :=
  matches_i (py "Search for") W || matches_i (py "SearchAgent") W
  || matches_i (py "find") W || matches_i (py "tell me about") W.

(* ===================================================================== *)
(** * Part II: properties *)
(* ===================================================================== *)

(** ** The monad *)

Lemma bind_ret {A B} (c : M A) (k : A -> M B) st a st' :
  c st = (Ret a, st') -> (c ≫= k) st = k a st'.
Proof. intros H. unfold mbind, M_bind. now rewrite H. Qed.

Lemma bind_raise {A B} (c : M A) (k : A -> M B) st e st' :
  c st = (Raise e, st') -> (c ≫= k) st = (Raise e, st').
Proof. intros H. unfold mbind, M_bind. now rewrite H. Qed.

Lemma try_ret {A} (c : M A) h st a st' :
  c st = (Ret a, st') -> try_except c h st = (Ret a, st').
Proof. intros H. unfold try_except. now rewrite H. Qed.

Lemma try_raise {A} (c : M A) h st e st' :
  c st = (Raise e, st') -> try_except c h st = h e st'.
Proof. intros H. unfold try_except. now rewrite H. Qed.

Lemma keeps_ret {A} (a : A) : keeps_events (mret a).
Proof. intros st. reflexivity. Qed.

Lemma keeps_raise {A} e : keeps_events (@raise A e).
Proof. intros st. reflexivity. Qed.

Lemma keeps_lift {A} (r : result A) : keeps_events (lift r).
Proof. intros st. reflexivity. Qed.

Lemma keeps_ask {A} c (o : list Call -> result A) : keeps_events (ask c o).
Proof. intros st. reflexivity. Qed.

Lemma keeps_get : keeps_events get.
Proof. intros st. reflexivity. Qed.

Lemma keeps_bind {A B} (c : M A) (k : A -> M B) :
  keeps_events c -> (forall a, keeps_events (k a)) -> keeps_events (c ≫= k).
Proof.
  intros Hc Hk st. unfold mbind, M_bind. specialize (Hc st).
  destruct (c st) as [[a|e] st1]; simpl in *; [|assumption].
  now rewrite Hk.
Qed.

Lemma keeps_try {A} (c : M A) h :
  keeps_events c -> (forall e, keeps_events (h e)) -> keeps_events (try_except c h).
Proof.
  intros Hc Hh st. unfold try_except. specialize (Hc st).
  destruct (c st) as [[a|e] st1]; simpl in *; [assumption|].
  now rewrite Hh.
Qed.

Lemma returns_ret {A} (a : A) : returns (mret a).
Proof. intros st. now exists a. Qed.

Lemma returns_try {A} (c : M A) h : (forall e, returns (h e)) -> returns (try_except c h).
Proof.
  intros Hh st. unfold try_except.
  destruct (c st) as [[a|e] st1]; [now exists a | apply Hh].
Qed.

Create HintDb effects.
#[export] Hint Resolve keeps_ret keeps_raise keeps_lift keeps_ask keeps_get
  keeps_bind keeps_try returns_ret returns_try : effects.

Lemma returns_bind {A B} (c : M A) (k : A -> M B) :
  returns c -> (forall a, returns (k a)) -> returns (c ≫= k).
Proof.
  intros Hc Hk st. unfold mbind, M_bind. destruct (Hc st) as [a Ha].
  destruct (c st) as [r st1]; simpl in Ha; subst r. apply Hk.
Qed.

Lemma returns_get : returns get.
Proof. intros st. now exists st. Qed.

#[export] Hint Resolve returns_bind returns_get : effects.

(** What [returns] and [keeps_events] give at one state. *)
Lemma total_run {A} (c : M A) st :
  returns c -> keeps_events c -> exists a st', c st = (Ret a, st') /\ events st' = events st.
Proof.
  intros Hr Hk. destruct (Hr st) as [a Ha]. specialize (Hk st).
  destruct (c st) as [r st']; simpl in *; subst r. now exists a, st'.
Qed.

(** ** Strings *)

Lemma startswith_app p s : Str.startswith p (p ++ s) = true.
Proof. induction p as [|a p IH]; simpl; [reflexivity|]. now rewrite N.eqb_refl. Qed.

Lemma startswith_spec p s : Str.startswith p s = true <-> exists t, s = p ++ t.
Proof.
  split.
  - revert s. induction p as [|a p IH]; intros s H; [now exists s|].
    destruct s as [|b s]; [discriminate|]. simpl in H.
    apply andb_true_iff in H as [Hab H]. apply N.eqb_eq in Hab as ->.
    destruct (IH _ H) as [t ->]. now exists t.
  - intros [t ->]. apply startswith_app.
Qed.

Lemma contains_startswith x s : Str.startswith x s = true -> Str.contains x s = true.
Proof. intros H. destruct s; simpl; now rewrite H. Qed.

Lemma contains_spec x s : Str.contains x s = true <-> exists pre post, s = pre ++ x ++ post.
Proof.
  split.
  - induction s as [|c s IH]; simpl; intros H.
    + rewrite orb_false_r in H. apply startswith_spec in H as [t ->]. now exists [], t.
    + apply orb_true_iff in H as [H|H].
      * apply startswith_spec in H as [t ->]. now exists [], t.
      * destruct (IH H) as (pre & post & ->). now exists (c :: pre), post.
  - intros (pre & post & ->). induction pre as [|c pre IH]; simpl.
    + apply contains_startswith, startswith_app.
    + rewrite IH. apply orb_true_r.
Qed.

Lemma contains_mono x s pre post :
  Str.contains x s = true -> Str.contains x (pre ++ s ++ post) = true.
Proof.
  intros H. apply contains_spec in H as (a & b & ->). apply contains_spec.
  exists (pre ++ a), (b ++ post). now rewrite <- !app_assoc.
Qed.

Lemma lstrip_suffix p s : exists pre, s = pre ++ Str.lstrip p s.
Proof.
  induction s as [|c s [pre IH]]; simpl; [now exists []|].
  destruct (p c); [|now exists []]. exists (c :: pre). simpl. now f_equal.
Qed.

Lemma rstrip_prefix p s : exists post, s = Str.rstrip p s ++ post.
Proof.
  unfold Str.rstrip. destruct (lstrip_suffix p (rev s)) as [pre H].
  exists (rev pre). rewrite <- rev_app_distr, <- H. symmetry. apply rev_involutive.
Qed.

(** Stripping and truncating only remove characters at the ends. *)
Lemma contains_strip_take x p n s :
  Str.contains x (take n (Str.strip_chars p s)) = true -> Str.contains x s = true.
Proof.
  intros H. unfold Str.strip_chars in H.
  destruct (lstrip_suffix p s) as [pre Hs].
  destruct (rstrip_prefix p (Str.lstrip p s)) as [post Hr].
  rewrite Hs, Hr.
  rewrite <- (take_drop n (Str.rstrip p (Str.lstrip p s))), <- !app_assoc.
  apply (contains_mono x _ pre (drop n (Str.rstrip p (Str.lstrip p s)) ++ post)) in H.
  exact H.
Qed.

Lemma split_go_nonempty sep skip s cur : Str.split_go sep skip s cur <> [].
Proof.
  revert skip cur. induction s as [|c s IH]; intros skip cur; simpl; [discriminate|].
  destruct skip; [|apply IH]. destruct (Str.startswith sep (c :: s)); [discriminate|apply IH].
Qed.

Lemma last_piece_cons x l : l <> [] -> last_piece (x :: l) = last_piece l.
Proof. unfold last_piece. destruct l; [congruence|reflexivity]. Qed.

(** An occurrence found by [contains] starts at some index. *)
Lemma contains_index x s :
  Str.contains x s = true -> exists i, i + length x <= length s /\ Str.startswith x (drop i s) = true.
Proof.
  intros H. apply contains_spec in H as (pre & post & ->).
  exists (length pre). split.
  - rewrite !length_app. lia.
  - rewrite drop_app_length. apply startswith_app.
Qed.

(** The invariant of the scan in [split_go]: no occurrence of the separator
    starts inside the piece being collected. *)
Lemma split_go_last sep s : 
  sep <> [] ->
  forall skip cur,
    (skip = 0 -> forall i, i < length cur -> Str.startswith sep (drop i (rev cur ++ s)) = false) ->
    (skip <> 0 -> cur = []) ->
    Str.contains sep (last_piece (Str.split_go sep skip s cur)) = false.
Proof.
  intros Hsep. induction s as [|c s IH]; intros skip cur Hinv Hcur.
  - simpl. unfold last_piece. simpl. apply not_true_is_false. intros H.
    apply contains_index in H as (i & Hi & Hst).
    destruct skip as [|k].
    + rewrite length_rev in Hi. destruct sep; [congruence|]. simpl in Hi.
      rewrite <- (app_nil_r (rev cur)) in Hst. rewrite (Hinv eq_refl i) in Hst by lia. discriminate.
    + rewrite (Hcur ltac:(discriminate)) in Hst. simpl in Hst.
      destruct sep; [congruence|]. destruct i; discriminate.
  - simpl. destruct skip as [|k].
    + destruct (Str.startswith sep (c :: s)) eqn:E.
      * rewrite last_piece_cons by apply split_go_nonempty.
        apply IH; [intros _ i Hi; simpl in Hi; lia | reflexivity].
      * apply IH; [|intros []; reflexivity]. intros _ i Hi. simpl in Hi. simpl rev. rewrite <- app_assoc. simpl.
        destruct (decide (i = length cur)) as [->|Hne].
        -- rewrite <- length_rev at 1. now rewrite drop_app_length.
        -- apply (Hinv eq_refl). lia.
    + rewrite (Hcur ltac:(discriminate)). apply IH; [intros _ i Hi; simpl in Hi; lia | reflexivity].
Qed.

(** The last piece of a split holds no occurrence of the separator. *)
Lemma split_last_piece sep s :
  sep <> [] -> Str.contains sep (last_piece (Str.split sep s)) = false.
Proof.
  intros Hsep. apply split_go_last; [exact Hsep| |congruence].
  intros _ i Hi. simpl in Hi. lia.
Qed.

(** ** The matcher *)

Lemma span_le p s : span p s <= length s.
Proof. induction s as [|c s IH]; simpl; [lia|]. destruct (p c); simpl; lia. Qed.

Lemma span_app p ws rest : forallb p ws = true -> span p (ws ++ rest) = length ws + span p rest.
Proof.
  induction ws as [|c ws IH]; simpl; [reflexivity|].
  intros H. apply andb_true_iff in H as [-> H]. now rewrite IH.
Qed.

Lemma rep_counts_range g lo hi avail n :
  In n (rep_counts g lo hi avail) -> lo <= n <= avail.
Proof.
  unfold rep_counts. intros H.
  assert (In n (seq lo (S (match hi with Some h => Nat.min h avail | None => avail end) - lo))) as H'.
  { destruct g; [now apply in_rev in H | exact H]. }
  apply in_seq in H'. destruct hi; lia.
Qed.

(** Every result of [rmatch] lies further on in the same subject, by at
    least [min_len] characters. *)
Lemma rmatch_sound r : forall m m',
  In m' (rmatch r m) ->
  exists k, min_len r <= k <= length (m_rest m) /\
            m_pos m' = m_pos m + k /\ m_rest m' = drop k (m_rest m).
Proof.
  induction r as [| |p|a IHa b IHb|a IHa b IHb|g lo hi p|i a IHa]; intros m m' H; simpl in H.
  - destruct H as [<-|[]]. exists 0. simpl. rewrite Nat.add_0_r. repeat split; lia.
  - destruct (Nat.eqb (m_pos m) 0); [|destruct H].
    destruct H as [<-|[]]. exists 0. simpl. rewrite Nat.add_0_r. repeat split; lia.
  - destruct (m_rest m) as [|c rest] eqn:E; [destruct H|].
    destruct (p c); [|destruct H]. destruct H as [<-|[]].
    exists 1. simpl. rewrite E. simpl. repeat split; lia.
  - apply in_flat_map in H as (m1 & H1 & H2).
    destruct (IHa _ _ H1) as (k1 & Hk1 & Hp1 & Hr1).
    destruct (IHb _ _ H2) as (k2 & Hk2 & Hp2 & Hr2).
    exists (k1 + k2). rewrite Hr1, length_drop in Hk2. simpl.
    split; [lia|]. split; [lia|]. rewrite Hr2, Hr1. now rewrite drop_drop.
  - apply in_app_or in H as [H|H]; [destruct (IHa _ _ H) as (k & Hk & ?) | destruct (IHb _ _ H) as (k & Hk & ?)];
      exists k; simpl; (split; [lia|assumption]).
  - apply in_map_iff in H as (n & <- & Hn). apply rep_counts_range in Hn.
    pose proof (span_le p (m_rest m)). exists n. simpl. repeat split; lia.
  - apply in_map_iff in H as (m1 & <- & H1). destruct (IHa _ _ H1) as (k & Hk & ?).
    exists k. simpl. split; [lia|assumption].
Qed.

(** What [search_from] returns is the first result of [rmatch] at some
    position of the subject. *)
Lemma search_from_some r s : forall pos m,
  search_from r pos s = Some m ->
  exists i m' l,
    i <= length s /\ rmatch r (MState (pos + i) (drop i s) []) = m' :: l /\
    m = ReMatch (pos + i) (m_pos m') (m_groups m').
Proof.
  induction s as [|c s IH]; intros pos m H; simpl in H; unfold match_here in H.
  - destruct (rmatch r (MState pos [] [])) as [|m' l] eqn:E; [discriminate|].
    injection H as <-. exists 0, m', l. rewrite Nat.add_0_r. simpl. auto.
  - destruct (rmatch r (MState pos (c :: s) [])) as [|m' l] eqn:E.
    + destruct (IH _ _ H) as (i & m' & l & Hi & Hm & ->).
      exists (S i), m', l. simpl. rewrite <- Nat.add_succ_comm. split; [lia|auto].
    + injection H as <-. exists 0, m', l. rewrite Nat.add_0_r. simpl. split; [lia|auto].
Qed.

(** A position where the pattern matches makes the search succeed. *)
Lemma search_from_finds r s : forall pos i,
  i <= length s -> rmatch r (MState (pos + i) (drop i s) []) <> [] ->
  search_from r pos s <> None.
Proof.
  induction s as [|c s IH]; intros pos i Hi Hm.
  - simpl in Hi. assert (i = 0) as -> by lia. rewrite Nat.add_0_r in Hm. simpl in *.
    unfold match_here. destruct (rmatch r _); [congruence|discriminate].
  - simpl. unfold match_here. destruct (rmatch r (MState pos (c :: s) [])) eqn:E; [|discriminate].
    destruct i as [|i]; [rewrite Nat.add_0_r in Hm; simpl in Hm; congruence|].
    apply (IH (S pos) i); [simpl in Hi; lia|]. now rewrite Nat.add_succ_comm.
Qed.

(** ** The broadcast sink *)

Import ConnectionManager TaskOrchestrator.

Lemma broadcast_ok w ev st : sink_ok w -> broadcast w ev st = (Ret tt, published ev st).
Proof. intros H. unfold broadcast. now rewrite H. Qed.

(** Without a websocket nothing can raise. *)
Lemma no_connection_sink_ok connections planner text plan found calendar :
  connections = [] -> sink_ok (world connections planner text plan found calendar).
Proof. intros -> sent message. reflexivity. Qed.

(** ** The capabilities never raise and publish nothing themselves *)

Lemma slack_keeps w a : keeps_events (SlackAgent.execute w a).
Proof. unfold SlackAgent.execute. destruct (re_search _ _); auto 10 with effects. Qed.

Lemma slack_returns w a : returns (SlackAgent.execute w a).
Proof. unfold SlackAgent.execute. destruct (re_search _ _); auto with effects. Qed.

Lemma communication_keeps w a : keeps_events (CommunicationAgent.run w a).
Proof.
  unfold CommunicationAgent.run.
  destruct (re_search _ _); [destruct (nonempty _)|]; auto 10 with effects.
Qed.

Lemma communication_returns w a : returns (CommunicationAgent.run w a).
Proof.
  unfold CommunicationAgent.run.
  destruct (re_search _ _); [destruct (nonempty _)|]; auto with effects.
Qed.

Lemma search_keeps w q : keeps_events (SearchAgent.run w q).
Proof.
  unfold SearchAgent.run. apply keeps_try; [|auto with effects].
  apply keeps_bind; [auto with effects|]. intros [|r l]; auto 10 with effects.
Qed.

Lemma search_returns w q : returns (SearchAgent.run w q).
Proof. unfold SearchAgent.run. auto with effects. Qed.

Lemma add_knowledge_keeps w f c : keeps_events (KnowledgeAgent.add_knowledge w f c).
Proof.
  intros st. unfold KnowledgeAgent.add_knowledge.
  destruct (write_error _ _ _); [destruct (failed_write _ _ _)|]; reflexivity.
Qed.

Lemma add_knowledge_returns w f c : returns (KnowledgeAgent.add_knowledge w f c).
Proof.
  intros st. unfold KnowledgeAgent.add_knowledge.
  destruct (write_error _ _ _); eexists; reflexivity.
Qed.

Lemma knowledge_run_keeps w q : keeps_events (KnowledgeAgent.run w q).
Proof.
  unfold KnowledgeAgent.run. apply keeps_bind; [auto with effects|]. intros st.
  destruct (negb _); [auto with effects|].
  apply keeps_try; [|auto with effects].
  apply keeps_bind; [auto with effects|]. intros r.
  apply keeps_bind; [auto with effects|]. intros _.
  apply keeps_bind; [auto with effects|]. intros []; auto with effects.
Qed.

Lemma knowledge_run_returns w q : returns (KnowledgeAgent.run w q).
Proof.
  unfold KnowledgeAgent.run. apply returns_bind; [auto with effects|]. intros st.
  destruct (negb _); auto with effects.
Qed.

#[export] Hint Resolve slack_keeps slack_returns communication_keeps communication_returns
  search_keeps search_returns add_knowledge_keeps add_knowledge_returns
  knowledge_run_keeps knowledge_run_returns : effects.

(** ** Claims about the capabilities *)

(** C10.  With no knowledge text loaded, the query is answered by the fixed
    sentence and the state is untouched: no request is made. *)
Theorem C10_empty_knowledge_answer w query st :
  knowledge st = [] ->
  KnowledgeAgent.run w query st
  = (Ret (py "Knowledge base is empty. I don't have internal info on this."), st).
Proof.
  intros H. unfold KnowledgeAgent.run. erewrite bind_ret; [|reflexivity].
  rewrite H. reflexivity.
Qed.

Lemma C10_empty_knowledge_answer_witness :
  knowledge fresh = [] /\
  KnowledgeAgent.run pizza (py "What is the best pizza in Rome?") fresh
  = (Ret (py "Knowledge base is empty. I don't have internal info on this."), fresh).
Proof.
  split; [reflexivity|].
  apply (C10_empty_knowledge_answer pizza (py "What is the best pizza in Rome?") fresh).
  reflexivity.
Defined.

(** ** The messaging capability *)

(** The first result of a sequence, when the first result of its head leads
    to a result of its tail. *)
Lemma head_seq_first a b m m1 l mf :
  rmatch a m = m1 :: l -> head (rmatch b m1) = Some mf ->
  head (rmatch (RSeq a b) m) = Some mf.
Proof.
  intros Ha Hb. simpl. rewrite Ha. simpl.
  destruct (rmatch b m1); [discriminate|exact Hb].
Qed.

(** The same when the earlier results of the head lead nowhere. *)
Lemma head_seq_skip a b m l1 m1 l2 mf :
  rmatch a m = l1 ++ m1 :: l2 -> Forall (fun x => rmatch b x = []) l1 ->
  head (rmatch b m1) = Some mf ->
  head (rmatch (RSeq a b) m) = Some mf.
Proof.
  intros Ha Hl Hb. simpl. rewrite Ha. clear Ha.
  induction Hl as [|x l1 Hx _ IH]; simpl.
  - destruct (rmatch b m1); [discriminate|exact Hb].
  - rewrite Hx. exact IH.
Qed.

Lemma rmatch_set p pos c rest g :
  p c = true -> rmatch (RSet p) (MState pos (c :: rest) g) = [MState (pos + 1) rest g].
Proof. intros H. simpl. now rewrite H. Qed.

(** A literal matched without regard to case. *)
Lemma rmatch_lit_i s : forall t pos rest g,
  s <> EmptyString ->
  matches_i (py s) t = true ->
  rmatch (lit_i s) (MState pos (t ++ rest) g) = [MState (pos + length t) rest g].
Proof.
  induction s as [|a s IH]; intros t pos rest g Hne H; [congruence|].
  destruct t as [|c t]; [discriminate|].
  change (py (String a s)) with (N_of_ascii a :: py s) in H. simpl in H.
  apply andb_true_iff in H as [Hc H].
  destruct s as [|b s'].
  - destruct t; [|discriminate]. simpl. unfold chr_i. simpl. now rewrite Hc.
  - change (lit_i (String a (String b s'))) with (RSeq (chr_i a) (lit_i (String b s'))).
    set (tl := lit_i (String b s')) in *.
    cbn [rmatch]. unfold chr_i. cbn [app].
    rewrite (rmatch_set _ _ _ _ _ Hc). cbn [flat_map]. subst tl.
    rewrite (IH t (pos + 1) rest g) by (discriminate || exact H). rewrite app_nil_r.
    do 2 f_equal. simpl. lia.
Qed.

(** A greedy [+] over a run of the set that ends before [rest]: the first
    result takes the whole run. *)
Lemma rmatch_plus_first p pos ws rest g :
  forallb p ws = true -> ws <> [] -> span p rest = 0 ->
  exists l, rmatch (plus p) (MState pos (ws ++ rest) g)
            = MState (pos + length ws) rest g :: l.
Proof.
  intros Hp Hne Hr. unfold plus. cbn [rmatch m_rest]. unfold rep_counts.
  rewrite span_app, Hr, Nat.add_0_r by exact Hp.
  destruct ws as [|c ws'] using rev_ind; [congruence|]. clear IHws'.
  rewrite length_app. simpl length.
  replace (S (length ws' + 1) - 1) with (S (length ws')) by lia.
  rewrite seq_S, rev_app_distr. simpl rev. simpl map.
  eexists. f_equal. unfold consume. cbn [m_pos m_rest m_groups].
  replace (S (length ws')) with (length (ws' ++ [c])) by (rewrite length_app; simpl; lia).
  rewrite drop_app_length. f_equal. rewrite length_app. reflexivity.
Qed.

Lemma span_head_false p c rest : p c = false -> span p (c :: rest) = 0.
Proof. intros H. simpl. now rewrite H. Qed.

(** A lazy [+] in a group: when the rest of the pattern cannot start on any
    character of [X], the first result is the one where the group holds all
    of [X]. *)
Lemma head_lazy_group i p b pos X c rest g mf :
  forallb p X = true -> X <> [] ->
  (forall m x s', m_rest m = x :: s' -> In x X -> rmatch b m = []) ->
  head (rmatch b (MState (pos + length X) (c :: rest) ((i, X) :: g))) = Some mf ->
  head (rmatch (RSeq (RGroup i (plus_lazy p)) b) (MState pos (X ++ c :: rest) g)) = Some mf.
Proof.
  intros Hp Hne Hfail Hb.
  set (m0 := MState pos (X ++ c :: rest) g).
  set (F := fun n => MState (pos + n) (drop n (X ++ c :: rest))
                       ((i, take (pos + n - pos) (X ++ c :: rest)) :: g)).
  assert (rmatch (RGroup i (plus_lazy p)) m0
          = map F (seq 1 (span p (X ++ c :: rest)))) as E.
  { unfold plus_lazy. cbn [rmatch]. unfold rep_counts. rewrite map_map.
    replace (S (span p (m_rest m0)) - 1) with (span p (X ++ c :: rest)) by (simpl; lia).
    reflexivity. }
  assert (exists n', span p (X ++ c :: rest) = (length X - 1) + S n') as [n' En].
  { rewrite span_app by exact Hp. destruct X; [congruence|]. simpl length.
    exists (span p (c :: rest)). lia. }
  rewrite En, seq_app, map_app in E. simpl seq in E. simpl map in E.
  eapply head_seq_skip; [exact E| |].
  - apply List.Forall_forall. intros m Hm. apply in_map_iff in Hm as (j & <- & Hj).
    apply in_seq in Hj.
    destruct (drop j X) as [|x s'] eqn:Ed.
    { apply (f_equal length) in Ed. rewrite length_drop in Ed. simpl in Ed. lia. }
    apply (Hfail _ x (s' ++ c :: rest)).
    + unfold F. simpl. rewrite drop_app_le by lia. now rewrite Ed.
    + apply list_elem_of_In, (subseteq_drop j X). rewrite Ed. constructor.
  - unfold F.
    replace (S (length X - 1)) with (length X) by (destruct X; [congruence|simpl; lia]).
    rewrite drop_app_length.
    replace (pos + length X - pos) with (length X) by lia.
    now rewrite take_app_length.
Qed.

Lemma nonempty_ne s : nonempty s = true -> s <> [].
Proof. destruct s; [discriminate|discriminate]. Qed.

Lemma quote_not_space q : quote q = true -> is_space q = false.
Proof.
  unfold quote. intros H. apply orb_true_iff in H as [H|H]; apply N.eqb_eq in H as ->; reflexivity.
Qed.

Lemma to_not_space T :
  matches_i (py "to") T = true -> exists c T', T = c :: T' /\ is_space c = false.
Proof.
  destruct T as [|c T']; [discriminate|]. intros H.
  change (py "to") with [0x74%N; 0x6F%N] in H. simpl in H.
  apply andb_true_iff in H as [H _]. exists c, T'. split; [reflexivity|].
  unfold eq_ignorecase, fold_case in H. change (in_range 65 90 116) with false in H.
  change (116 =? 383)%N with false in H. change (116 =? 8490)%N with false in H.
  change (in_range 304 305 116) with false in H. cbv iota in H.
  destruct (in_range 65 90 c) eqn:E1.
  { apply N.eqb_eq in H. assert (c = 0x54%N) as -> by lia. reflexivity. }
  destruct (c =? 383)%N; [discriminate|].
  destruct (c =? 8490)%N; [discriminate|].
  destruct (in_range 304 305 c); [discriminate|].
  apply N.eqb_eq in H as <-. reflexivity.
Qed.

(** One greedy [+] of white space in a sequence, taken whole. *)
Ltac plus_step Hws Hne Hrest :=
  match goal with
  | |- head (rmatch (RSeq (plus ?p) _) (MState ?pos (?ws ++ ?rest) ?g)) = _ =>
      let l := fresh "l" in
      let E := fresh "E" in
      destruct (rmatch_plus_first p pos ws rest g Hws Hne Hrest) as [l E];
      eapply head_seq_first; [exact E|]; clear E l
  end.

Lemma search_from_here r pos s m :
  match_here r pos s = Some m -> search_from r pos s = Some m.
Proof. intros H. destruct s; simpl; now rewrite H. Qed.

Lemma slack_mismatch w action st :
  re_search slack_re action = None ->
  SlackAgent.execute w action st = (Ret SlackAgent.format_help, st).
Proof. intros H. unfold SlackAgent.execute. now rewrite H. Qed.

(** C7 (as stated, refuted).  With curly quotes around the message the
    pattern does not match: nothing is posted and the capability answers
    with the format reminder. *)
Lemma C7_counterexample :
  re_search slack_re curly_post = None /\
  SlackAgent.execute pizza curly_post fresh = (Ret SlackAgent.format_help, fresh).
Proof. split; vm_compute; reflexivity. Qed.

(** ** The notification capability *)

Lemma in_rep g lo hi p m n :
  lo <= n -> n <= span p (m_rest m) -> (forall h, hi = Some h -> n <= h) ->
  In (consume n m) (rmatch (RRep g lo hi p) m).
Proof.
  intros Hlo Hn Hhi. simpl. apply (in_map (fun n => consume n m)). unfold rep_counts.
  assert (In n (seq lo (S (match hi with Some h => Nat.min h (span p (m_rest m))
                                       | None => span p (m_rest m) end) - lo))) as H.
  { apply in_seq. destruct hi as [h|]; [specialize (Hhi h eq_refl)|]; lia. }
  destruct g; [apply in_rev in H|]; exact H.
Qed.

(** A digit followed by nine characters of the tail class is matched. *)
Lemma phone_matches_here pos d tail rest :
  is_digit d = true -> forallb phone_tail tail = true -> 9 <= length tail ->
  rmatch phone_re (MState pos (d :: tail ++ rest) []) <> [].
Proof.
  intros Hd Ht Hl H.
  set (m0 := MState pos (d :: tail ++ rest) []) in *.
  assert (In (consume 9 (consume 1 (consume 0 m0)))
             (rmatch (seqs [opt (N.eqb 0x2B); RSet is_digit; RRep true 9 (Some 15) phone_tail]) m0)) as Hin.
  { simpl seqs. cbn [rmatch]. apply in_flat_map. exists (consume 0 m0). split.
    - apply in_rep; [lia|lia|]. intros h [= <-]. lia.
    - apply in_flat_map. exists (consume 1 (consume 0 m0)). split.
      + simpl. rewrite Hd. now left.
      + apply in_rep; [lia| |intros h [= <-]; lia].
        simpl. rewrite drop_0, span_app by exact Ht. lia. }
  unfold phone_re in H. cbn [rmatch] in H. apply map_eq_nil in H.
  rewrite H in Hin. destruct Hin.
Qed.

Lemma filter_length_bound {A} (f : A -> bool) l : length (List.filter f l) <= length l.
Proof. induction l as [|x l IH]; simpl; [lia|]. destruct (f x); simpl; lia. Qed.

(** An instruction that holds a phone number in the sense of the
    specification is matched by the pattern. *)
Lemma phone_found action pre t post :
  action = pre ++ t ++ post -> phone_number_per_spec t = true ->
  re_search phone_re action <> None.
Proof.
  intros -> H. unfold phone_number_per_spec in H.
  assert (exists pre' d tail, pre ++ t ++ post = pre' ++ d :: tail ++ post /\ is_digit d = true /\
            forallb phone_tail tail = true /\ 9 <= length tail) as (pre' & d & tail & E & Hd & Ht & Hl).
  { assert (forall digits, match digits with
             | d :: _ => is_digit d
                 && forallb (fun c => is_digit c || (c =? 0x20)%N || (c =? 0x2D)%N) digits
                 && (10 <=? length (List.filter is_digit digits))
                 && (length (List.filter is_digit digits) <=? 16)
             | [] => false end = true ->
             exists d tail, digits = d :: tail /\ is_digit d = true /\
                            forallb phone_tail tail = true /\ 9 <= length tail) as K.
    { intros [|d tail] Hx; [discriminate|].
      apply andb_true_iff in Hx as [Hx _]. apply andb_true_iff in Hx as [Hx Hc].
      apply andb_true_iff in Hx as [Hd Hall]. exists d, tail. split; [reflexivity|].
      split; [exact Hd|]. simpl in Hall. apply andb_true_iff in Hall as [_ Hall]. split.
      - apply forallb_forall. intros c Hc'. rewrite forallb_forall in Hall.
        specialize (Hall c Hc'). unfold phone_tail.
        apply orb_true_iff in Hall as [Hall|Hall]; [|now rewrite Hall, orb_true_r].
        apply orb_true_iff in Hall as [Hall|Hall]; [now rewrite Hall|].
        apply N.eqb_eq in Hall as ->. reflexivity.
      - apply Nat.leb_le in Hc. pose proof (filter_length_bound is_digit (d :: tail)) as Hb.
        simpl length in Hb at 2. lia. }
    destruct t as [|c t']; [discriminate|].
    destruct (c =? 0x2B)%N.
    - destruct (K t' H) as (d & tail & -> & ?). exists (pre ++ [c]), d, tail.
      split; [now rewrite <- !app_assoc|assumption].
    - destruct (K (c :: t') H) as (d & tail & [= -> ->] & ?). exists pre, d, tail.
      split; [reflexivity|assumption]. }
  rewrite E. unfold re_search.
  apply (search_from_finds phone_re _ 0 (length pre')).
  - rewrite length_app. lia.
  - rewrite drop_app_length. now apply phone_matches_here.
Qed.

(** The text that the pattern captures is at least ten characters long. *)
Lemma phone_match_length action m :
  re_search phone_re action = Some m -> 10 <= length (group 1 m).
Proof.
  intros H. apply search_from_some in H as (i & m' & l & Hi & Hm & ->).
  unfold phone_re in Hm. cbn [rmatch] in Hm.
  assert (In m' (m' :: l)) as Hin by now left. rewrite <- Hm in Hin.
  apply in_map_iff in Hin as (m1 & <- & H1).
  apply rmatch_sound in H1 as (k & Hk & Hp & _). simpl in Hk, Hp.
  unfold group. simpl. rewrite Hp, length_take. lia.
Qed.

Lemma communication_no_match w action st :
  re_search phone_re action = None \/ nonempty (TWILIO_ACCOUNT_SID w) = false ->
  CommunicationAgent.run w action st = (Ret CommunicationAgent.failure, st).
Proof.
  unfold CommunicationAgent.run. intros [->| ->]; [reflexivity|].
  now destruct (re_search _ _).
Qed.

(** What holds of the notification capability on every instruction that
    holds a phone number (an optional [+] and 10 to 16 digits with spaces or
    hyphens among them): the pattern matches, the number sent to starts with
    [+], the body has at most 160 characters and the matched text does not
    occur in it.  The call returns the text of the result or of the Twilio
    error; without credentials, or when nothing matches, it returns the
    failure sentence and sends nothing; it never raises. *)
Lemma sms_extraction_shape w action st pre t post :
  action = pre ++ t ++ post -> phone_number_per_spec t = true ->
  exists m,
    re_search phone_re action = Some m /\
    let number := group 1 m in
    let to_no := CommunicationAgent.to_no number in
    let body := take 160 (CommunicationAgent.msg_content number action) in
    Str.startswith (py "+") to_no = true /\
    length body <= 160 /\
    Str.contains number body = false /\
    CommunicationAgent.run w action st =
      (if nonempty (TWILIO_ACCOUNT_SID w)
       then (Ret match messages_create w (calls st) body (TWILIO_PHONE_NUMBER w) to_no with
                 | Ret sid => py "SMS sent! SID: " ++ sid
                 | Raise e => py "Twilio Error: " ++ exn_msg e
                 end,
             called (MessagesCreate body (TWILIO_PHONE_NUMBER w) to_no) st)
       else (Ret CommunicationAgent.failure, st)) /\
    (forall other st', re_search phone_re other = None ->
       CommunicationAgent.run w other st' = (Ret CommunicationAgent.failure, st')) /\
    (forall other, returns (CommunicationAgent.run w other)).
Proof.
  intros Ha Ht. pose proof (phone_found _ _ _ _ Ha Ht) as Hm.
  destruct (re_search phone_re action) as [m|] eqn:E; [clear Hm|congruence].
  exists m. split; [reflexivity|]. intros number to_no body.
  repeat split.
  - unfold to_no, CommunicationAgent.to_no.
    destruct (Str.startswith (py "+") (Str.replace _ _ _)) eqn:Hs;
      [exact Hs | apply startswith_app].
  - unfold body. rewrite length_take. lia.
  - apply not_true_is_false. intros H. unfold body, CommunicationAgent.msg_content in H.
    apply contains_strip_take in H. rewrite split_last_piece in H; [discriminate|].
    pose proof (phone_match_length _ _ E) as Hl. fold number in Hl.
    intros Hn. rewrite Hn in Hl. simpl in Hl. lia.
  - unfold CommunicationAgent.run. rewrite E. destruct (nonempty _); [|reflexivity].
    fold number to_no body. unfold try_except, mbind, M_bind, ask, mret, M_ret, called.
    now destruct (messages_create _ _ _ _ _).
  - intros other st' Hn. apply communication_no_match. now left.
  - intros other. apply communication_returns.
Qed.

(** C8 (code defect).  The body is not the text after the matched number,
    and the number is not the number of the instruction.

    With the number repeated in the message, [split(...)[-1]] takes the text
    after its last occurrence: the body sent is ["back"], where the text
    after the matched number, less the leading colon and space, is
    ["call 5551234567 back"].

    With spaces around the hyphens of [+1 - 555 - 123 - 4567], a number of
    eleven digits, the quantifier [{9,15}] counts the separators too: the
    match ends after sixteen characters, the message goes to [+1555123], and
    the last four digits open the body. *)
Theorem C8_body_and_number_diverge :
  (exists m,
     re_search phone_re call_back = Some m /\
     group 1 m = py "5551234567" /\
     body_per_spec call_back m = py "call 5551234567 back" /\
     calls (CommunicationAgent.run pizza call_back fresh).2
     = [MessagesCreate (py "back") (py "+15550100") (py "+5551234567")]) /\
  (exists m,
     phone_number_per_spec (py "+1 - 555 - 123 - 4567") = true /\
     re_search phone_re spaced_number = Some m /\
     group 1 m = py "+1 - 555 - 123 - " /\
     calls (CommunicationAgent.run pizza spaced_number fresh).2
     = [MessagesCreate (py "4567: Lunch at noon") (py "+15550100") (py "+1555123")]).
Proof.
  split; eexists.
  - split; [vm_compute; reflexivity|]. split; [reflexivity|].
    split; vm_compute; reflexivity.
  - split; [vm_compute; reflexivity|]. split; [vm_compute; reflexivity|].
    split; [reflexivity|]. vm_compute. reflexivity.
Qed.

(** ** The messaging capability on every instruction *)

(** *** What every result of the matcher has consumed *)

Lemma span_take p n s : n <= span p s -> forallb p (take n s) = true.
Proof.
  revert n. induction s as [|c s IH]; intros [|n] H; try reflexivity.
  simpl in H. destruct (p c) eqn:E; [|lia]. simpl. rewrite E. apply IH. lia.
Qed.

Lemma in_rmatch_seq a b m m' :
  In m' (rmatch (RSeq a b) m) <-> exists m1, In m1 (rmatch a m) /\ In m' (rmatch b m1).
Proof. cbn [rmatch]. apply in_flat_map. Qed.

Lemma in_rmatch_set p m m' :
  In m' (rmatch (RSet p) m) ->
  exists c, p c = true /\ m_rest m = c :: m_rest m' /\ m_pos m' = m_pos m + 1
            /\ m_groups m' = m_groups m.
Proof.
  cbn [rmatch]. destruct (m_rest m) as [|c s] eqn:E; [intros []|].
  destruct (p c) eqn:Hc; [|intros []]. intros [<-|[]].
  exists c. unfold consume. rewrite E. simpl. rewrite drop_0. auto.
Qed.

Lemma in_rmatch_rep g lo hi p m m' :
  In m' (rmatch (RRep g lo hi p) m) ->
  exists ws, forallb p ws = true /\ lo <= length ws /\ m_rest m = ws ++ m_rest m'
             /\ m_pos m' = m_pos m + length ws /\ m_groups m' = m_groups m.
Proof.
  cbn [rmatch]. intros H. apply in_map_iff in H as (n & <- & Hn).
  apply rep_counts_range in Hn. pose proof (span_le p (m_rest m)) as Hl.
  exists (take n (m_rest m)). unfold consume. cbn [m_rest m_pos m_groups].
  rewrite length_take, take_drop.
  split; [apply span_take; lia|]. split; [lia|]. split; [reflexivity|]. split; [lia|reflexivity].
Qed.

Lemma in_rmatch_lit_i s : forall m m',
  s <> EmptyString ->
  In m' (rmatch (lit_i s) m) ->
  exists t, matches_i (py s) t = true /\ m_rest m = t ++ m_rest m'
            /\ m_pos m' = m_pos m + length t /\ m_groups m' = m_groups m.
Proof.
  induction s as [|a s IH]; intros m m' Hne H; [congruence|].
  change (py (String a s)) with (N_of_ascii a :: py s).
  destruct s as [|b s'].
  - apply in_rmatch_set in H as (c & Hc & Hr & Hp & Hg).
    exists [c]. simpl. rewrite Hc. auto.
  - change (lit_i (String a (String b s'))) with (RSeq (chr_i a) (lit_i (String b s'))) in H.
    apply in_rmatch_seq in H as (m1 & H1 & H2).
    apply in_rmatch_set in H1 as (c & Hc & Hr & Hp & Hg).
    apply IH in H2 as (t & Ht & Hr2 & Hp2 & Hg2); [|discriminate].
    exists (c :: t). cbn [matches_i]. rewrite Hc, Ht, Hr, Hr2, Hp2, Hp, Hg2, Hg.
    repeat split. simpl. lia.
Qed.

Lemma in_rmatch_group i a m m' :
  In m' (rmatch (RGroup i a) m) ->
  exists m1, In m1 (rmatch a m) /\ m_pos m' = m_pos m1 /\ m_rest m' = m_rest m1
             /\ m_groups m' = (i, take (m_pos m1 - m_pos m) (m_rest m)) :: m_groups m1.
Proof.
  cbn [rmatch]. intros H. apply in_map_iff in H as (m1 & <- & H1). exists m1. auto.
Qed.

(** The closing part of the pattern, read back from a result. *)
Lemma closing_sound m m' :
  In m' (rmatch closing_re m) ->
  exists q2 ws2 T ws3 Y,
    closing_shape (Reading [] [] [] 0%N [] q2 ws2 T ws3 Y []) = true /\
    m_rest m = q2 :: ws2 ++ T ++ ws3 ++ 0x23%N :: Y ++ m_rest m' /\
    m_groups m' = (2, 0x23%N :: Y) :: m_groups m.
Proof.
  unfold closing_re. cbn [seqs]. intros H.
  apply in_rmatch_seq in H as (m1 & H1 & H).
  apply in_rmatch_set in H1 as (q2 & Hq2 & R1 & P1 & G1).
  apply in_rmatch_seq in H as (m2 & H2 & H).
  apply in_rmatch_rep in H2 as (ws2 & Hw2 & L2 & R2 & P2 & G2).
  apply in_rmatch_seq in H as (m3 & H3 & H).
  apply in_rmatch_lit_i in H3 as (T & HT & R3 & P3 & G3); [|discriminate].
  apply in_rmatch_seq in H as (m4 & H4 & H).
  apply in_rmatch_rep in H4 as (ws3 & Hw3 & L3 & R4 & P4 & G4).
  apply in_rmatch_group in H as (m5 & H5 & P5 & R5 & G5).
  apply in_rmatch_seq in H5 as (m6 & H6 & H7).
  apply in_rmatch_set in H6 as (h & Hh & R6 & P6 & G6).
  apply in_rmatch_rep in H7 as (Y & HY & LY & R7 & P7 & G7).
  apply N.eqb_eq in Hh. change (N_of_ascii "#") with 0x23%N in Hh. subst h.
  exists q2, ws2, T, ws3, Y. split; [|split].
  - unfold closing_shape. cbn [rd_q2 rd_ws2 rd_to rd_ws3 rd_channel].
    rewrite Hq2, Hw2, HT, Hw3, HY.
    destruct ws2; [simpl in L2; lia|]. destruct ws3; [simpl in L3; lia|].
    destruct Y; [simpl in LY; lia|]. reflexivity.
  - rewrite R1, R2, R3, R4, R6, R7, R5. reflexivity.
  - rewrite G5, G7, G6, G4, G3, G2, G1. do 2 f_equal.
    rewrite R6, R7, P7, P6.
    replace (m_pos m4 + 1 + length Y - m_pos m4) with (S (length Y)) by lia.
    simpl. now rewrite take_app_length.
Qed.

Lemma slack_re_parts :
  slack_re = RSeq (lit_i "Post") (RSeq (plus is_space) (RSeq (RSet quote)
               (RSeq (RGroup 1 (plus_lazy dot)) closing_re))).
Proof. reflexivity. Qed.

Lemma nonempty_length s : 1 <= length s -> nonempty s = true.
Proof. destruct s; simpl; [lia|reflexivity]. Qed.

(** Every result of the pattern on [s], at the end of [pre], is a reading
    of [pre ++ s]. *)
Lemma slack_sound pre s m' :
  In m' (rmatch slack_re (MState (length pre) s [])) ->
  exists r,
    reads (pre ++ s) r /\ rd_before r = pre /\ rd_after r = m_rest m' /\
    m_groups m' = [(2, 0x23%N :: rd_channel r); (1, rd_message r)].
Proof.
  rewrite slack_re_parts. intros H.
  apply in_rmatch_seq in H as (m1 & H1 & H).
  apply in_rmatch_lit_i in H1 as (P & HP & R1 & P1 & G1); [|discriminate].
  apply in_rmatch_seq in H as (m2 & H2 & H).
  apply in_rmatch_rep in H2 as (ws1 & Hw1 & L1 & R2 & P2 & G2).
  apply in_rmatch_seq in H as (m3 & H3 & H).
  apply in_rmatch_set in H3 as (q1 & Hq1 & R3 & P3 & G3).
  apply in_rmatch_seq in H as (m4 & H4 & H).
  apply in_rmatch_group in H4 as (m5 & H5 & P5 & R5 & G5).
  apply in_rmatch_rep in H5 as (X & HX & LX & R6 & P6 & G6).
  apply closing_sound in H as (q2 & ws2 & T & ws3 & Y & Hc & R7 & G7).
  exists (Reading pre P ws1 q1 X q2 ws2 T ws3 Y (m_rest m')).
  cbn [m_rest m_pos m_groups] in *.
  split; [split|split; [reflexivity|split; [reflexivity|]]].
  - unfold reading_text, closing_text. cbn. rewrite R1, R2, R3, R6, <- R5, R7. reflexivity.
  - unfold post_shape. cbn [rd_post rd_ws1 rd_q1 rd_message].
    rewrite HP, Hw1, Hq1, HX, (nonempty_length ws1 L1), (nonempty_length X LX).
    exact Hc.
  - rewrite G7, G5, G6, G3, G2, G1. cbn [rd_channel rd_message]. do 3 f_equal.
    rewrite R6, P6. replace (m_pos m3 + length X - m_pos m3) with (length X) by lia.
    now rewrite take_app_length.
Qed.

(** The closing part on its text: the first result takes the channel up to
    the white space that follows it. *)
Lemma closing_first r pos g :
  closing_shape r = true -> span not_space (rd_after r) = 0 ->
  exists n,
    head (rmatch closing_re (MState pos (closing_text r) g))
    = Some (MState n (rd_after r) ((2, 0x23%N :: rd_channel r) :: g)).
Proof.
  unfold closing_shape. intros H Htail.
  apply andb_true_iff in H as [H HY]. apply andb_true_iff in H as [H HYn].
  apply andb_true_iff in H as [H Hw3]. apply andb_true_iff in H as [H Hw3n].
  apply andb_true_iff in H as [H HT]. apply andb_true_iff in H as [H Hw2].
  apply andb_true_iff in H as [Hq2 Hw2n].
  apply nonempty_ne in HYn, Hw3n, Hw2n.
  destruct (to_not_space _ HT) as (t0 & T' & ET & Ht0).
  assert (forall rest, span is_space (rd_to r ++ rest) = 0) as HTs.
  { intros rest. rewrite ET. apply (span_head_false is_space t0 _ Ht0). }
  eexists. unfold closing_re, closing_text. cbn [seqs].
  eapply head_seq_first; [apply rmatch_set; exact Hq2|].
  plus_step Hw2 Hw2n (HTs (rd_ws3 r ++ 0x23%N :: rd_channel r ++ rd_after r)).
  eapply head_seq_first; [apply rmatch_lit_i; [discriminate|exact HT]|].
  plus_step Hw3 Hw3n (span_head_false is_space 0x23%N (rd_channel r ++ rd_after r) eq_refl).
  cbn [rmatch]. unfold chr. rewrite rmatch_set by reflexivity. cbn [flat_map].
  match goal with |- context [rmatch (plus not_space) (MState ?p (rd_channel r ++ rd_after r) ?g')] =>
    destruct (rmatch_plus_first not_space p (rd_channel r) (rd_after r) g' HY HYn Htail) as [l4 E4];
    rewrite E4
  end.
  simpl. do 3 f_equal.
  match goal with |- (_, take ?k _) = _ => replace k with (S (length (rd_channel r))) by lia end.
  simpl. now rewrite take_app_length.
Qed.

(** A lazy [+] in a group: the first result is at the least count for which
    the rest of the pattern has a result. *)
Lemma head_lazy_least i p b pos s g n mf :
  1 <= n <= span p s ->
  (forall j, 1 <= j < n -> rmatch b (MState (pos + j) (drop j s) ((i, take j s) :: g)) = []) ->
  head (rmatch b (MState (pos + n) (drop n s) ((i, take n s) :: g))) = Some mf ->
  head (rmatch (RSeq (RGroup i (plus_lazy p)) b) (MState pos s g)) = Some mf.
Proof.
  intros Hn Hfail Hb.
  set (F := fun k => MState (pos + k) (drop k s) ((i, take (pos + k - pos) s) :: g)).
  assert (rmatch (RGroup i (plus_lazy p)) (MState pos s g) = map F (seq 1 (span p s))) as E.
  { unfold plus_lazy. cbn [rmatch]. unfold rep_counts. rewrite map_map.
    cbn [m_rest]. replace (S (span p s) - 1) with (span p s) by lia. reflexivity. }
  replace (span p s) with ((n - 1) + S (span p s - n)) in E by lia.
  rewrite seq_app, map_app in E. simpl seq in E. simpl map in E.
  eapply head_seq_skip; [exact E| |].
  - apply List.Forall_forall. intros m Hm. apply in_map_iff in Hm as (j & <- & Hj).
    apply in_seq in Hj. unfold F. replace (pos + j - pos) with j by lia.
    apply Hfail. lia.
  - unfold F. replace (S (n - 1)) with n by lia.
    replace (pos + n - pos) with n by lia. exact Hb.
Qed.

(** [re.search] reports the match at the first position that has one. *)
Lemma search_from_first r pre : forall pos s m,
  (forall j, j < length pre -> rmatch r (MState (pos + j) (drop j (pre ++ s)) []) = []) ->
  match_here r (pos + length pre) s = Some m ->
  search_from r pos (pre ++ s) = Some m.
Proof.
  induction pre as [|c pre IH]; intros pos s m Hno Hm.
  - simpl in *. rewrite Nat.add_0_r in Hm. now apply search_from_here.
  - change ((c :: pre) ++ s) with (c :: pre ++ s). cbn [search_from].
    assert (match_here r pos (c :: pre ++ s) = None) as ->.
    { assert (0 < length (c :: pre)) as H0 by (simpl; lia).
      apply Hno in H0. rewrite Nat.add_0_r, drop_0 in H0.
      unfold match_here. change (c :: pre ++ s) with ((c :: pre) ++ s). now rewrite H0. }
    apply IH.
    + intros j Hj. assert (S j < length (c :: pre)) as H1 by (simpl; lia).
      apply Hno in H1. replace (S pos + j) with (pos + S j) by lia. exact H1.
    + replace (S pos + length pre) with (pos + length (c :: pre)) by (simpl; lia). exact Hm.
Qed.

Lemma forallb_take {A} (p : A -> bool) n l : forallb p l = true -> forallb p (take n l) = true.
Proof.
  revert n. induction l as [|a l IH]; intros [|n] H; try reflexivity.
  simpl in H. apply andb_true_iff in H as [Ha H]. simpl. now rewrite Ha, IH.
Qed.

(** The pattern at the start of the first, shortest reading. *)
Lemma slack_head action r :
  reads action r -> first_shortest action r -> span not_space (rd_after r) = 0 ->
  exists n,
    head (rmatch slack_re
            (MState (0 + length (rd_before r))
               (rd_post r ++ rd_ws1 r ++ rd_q1 r :: rd_message r ++ closing_text r) []))
    = Some (MState n (rd_after r) [(2, 0x23%N :: rd_channel r); (1, rd_message r)]).
Proof.
  intros [Ha Hs] Hmin Htail. pose proof Hs as Hs'. unfold post_shape in Hs.
  apply andb_true_iff in Hs as [Hs Hc]. apply andb_true_iff in Hs as [Hs HX].
  apply andb_true_iff in Hs as [Hs HXn]. apply andb_true_iff in Hs as [Hs Hq1].
  apply andb_true_iff in Hs as [Hs Hw1]. apply andb_true_iff in Hs as [HP Hw1n].
  apply nonempty_ne in Hw1n. pose proof (nonempty_ne _ HXn) as HXne.
  assert (1 <= length (rd_message r)) as HXl by (destruct (rd_message r); [congruence|simpl; lia]).
  set (pos := 0 + length (rd_before r) + length (rd_post r) + length (rd_ws1 r) + 1).
  destruct (closing_first r (pos + length (rd_message r)) [(1, rd_message r)] Hc Htail) as [n Hn].
  exists n. rewrite slack_re_parts.
  eapply head_seq_first; [apply rmatch_lit_i; [discriminate|exact HP]|].
  plus_step Hw1 Hw1n (span_head_false is_space (rd_q1 r) (rd_message r ++ closing_text r)
                        (quote_not_space _ Hq1)).
  eapply head_seq_first; [apply rmatch_set; exact Hq1|]. fold pos.
  apply (head_lazy_least 1 dot closing_re pos (rd_message r ++ closing_text r) []
           (length (rd_message r))).
  - rewrite span_app by exact HX. lia.
  - intros j Hj.
    destruct (rmatch closing_re (MState (pos + j) _ _)) as [|m' l] eqn:E; [reflexivity|exfalso].
    assert (In m' (rmatch closing_re
                     (MState (pos + j) (drop j (rd_message r ++ closing_text r))
                        [(1, take j (rd_message r ++ closing_text r))]))) as Hin
      by (rewrite E; left; reflexivity).
    apply closing_sound in Hin as (q2 & ws2 & T & ws3 & Y & Hc' & R' & _).
    cbn [m_rest] in R'.
    set (r' := Reading (rd_before r) (rd_post r) (rd_ws1 r) (rd_q1 r) (take j (rd_message r))
                 q2 ws2 T ws3 Y (m_rest m')).
    assert (reads action r') as Hr'.
    { split.
      - unfold reading_text at 1. unfold closing_text at 1. unfold r'.
        cbn [rd_before rd_post rd_ws1 rd_q1 rd_message rd_q2 rd_ws2 rd_to rd_ws3 rd_channel
             rd_after].
        rewrite <- R'. rewrite <- (take_app_le (rd_message r) (closing_text r) j) by lia.
        rewrite take_drop. exact Ha.
      - unfold post_shape, r'. cbn [rd_post rd_ws1 rd_q1 rd_message].
        rewrite HP, Hw1, Hq1, (forallb_take _ _ _ HX).
        rewrite (nonempty_length (take j (rd_message r))) by (rewrite length_take; lia).
        destruct (rd_ws1 r); [congruence|]. exact Hc'. }
    destruct (Hmin r' Hr') as [_ Hlen]. specialize (Hlen eq_refl).
    unfold r' in Hlen. cbn [rd_message] in Hlen. rewrite length_take in Hlen. lia.
  - rewrite drop_app_length, take_app_length. exact Hn.
Qed.

(** [re.search] on an instruction finds its first, shortest reading. *)
Lemma slack_search action r :
  reads action r -> first_shortest action r -> span not_space (rd_after r) = 0 ->
  exists n,
    re_search slack_re action
    = Some (ReMatch (length (rd_before r)) n [(2, 0x23%N :: rd_channel r); (1, rd_message r)]).
Proof.
  intros Hr Hmin Htail. destruct (slack_head action r Hr Hmin Htail) as [n Hn].
  exists n. destruct Hr as [Ha Hs]. unfold re_search.
  rewrite Ha at 1. unfold reading_text. apply search_from_first.
  - intros j Hj.
    destruct (rmatch slack_re (MState (0 + j) _ _)) as [|m' l] eqn:E; [reflexivity|exfalso].
    fold (reading_text r) in E. rewrite <- Ha in E.
    assert (j <= length action) as Hja.
    { rewrite Ha. unfold reading_text. rewrite length_app. lia. }
    assert (In m' (rmatch slack_re (MState (length (take j action)) (drop j action) []))) as Hin.
    { rewrite length_take, Nat.min_l by lia. change (0 + j) with j in E. rewrite E. now left. }
    apply slack_sound in Hin as (r' & Hr' & Hb & _). rewrite take_drop in Hr'.
    destruct (Hmin r' Hr') as [Hle _]. rewrite Hb, length_take in Hle. lia.
  - unfold match_here.
    destruct (rmatch slack_re _) as [|m l]; [discriminate|].
    simpl in Hn. injection Hn as ->. reflexivity.
Qed.

(** An instruction that cannot be read is not matched. *)
Lemma unread_is_unmatched action :
  (forall r, ~ reads action r) -> re_search slack_re action = None.
Proof.
  intros Hno. destruct (re_search slack_re action) as [m|] eqn:E; [exfalso|reflexivity].
  apply search_from_some in E as (i & m' & l & Hi & Hm & _).
  assert (In m' (rmatch slack_re (MState (length (take i action)) (drop i action) []))) as Hin.
  { rewrite length_take, Nat.min_l by lia. change (0 + i) with i in Hm. rewrite Hm. now left. }
  apply slack_sound in Hin as (r & Hr & _). rewrite take_drop in Hr. exact (Hno r Hr).
Qed.

Lemma unquoted_is_unread action r :
  forallb (fun c => negb (quote c)) action = true -> ~ reads action r.
Proof.
  intros Hq [Ha Hs]. unfold post_shape in Hs.
  repeat (apply andb_true_iff in Hs as [Hs ?]).
  rewrite Ha in Hq. unfold reading_text in Hq. rewrite !forallb_app in Hq. simpl in Hq.
  repeat (apply andb_true_iff in Hq as [? Hq]).
  match goal with H : quote (rd_q1 r) = true, H' : negb (quote (rd_q1 r)) = true |- _ =>
    rewrite H in H'; discriminate H' end.
Qed.

Lemma in_plus p m n :
  1 <= n <= span p (m_rest m) -> In (consume n m) (rmatch (plus p) m).
Proof. intros H. apply in_rep; [lia|lia|discriminate]. Qed.

Lemma in_plus_app p pos ws rest g :
  ws <> [] -> forallb p ws = true ->
  In (MState (pos + length ws) rest g) (rmatch (plus p) (MState pos (ws ++ rest) g)).
Proof.
  intros Hne Hp.
  replace (MState (pos + length ws) rest g) with (consume (length ws) (MState pos (ws ++ rest) g))
    by (unfold consume; cbn [m_pos m_rest m_groups]; now rewrite drop_app_length).
  apply in_plus. cbn [m_rest]. rewrite span_app by exact Hp.
  destruct ws; [congruence|simpl; lia].
Qed.

Lemma in_lit_i s t pos rest g :
  s <> EmptyString -> matches_i (py s) t = true ->
  In (MState (pos + length t) rest g) (rmatch (lit_i s) (MState pos (t ++ rest) g)).
Proof. intros Hs Ht. rewrite rmatch_lit_i by assumption. now left. Qed.

Lemma in_set p pos c rest g :
  p c = true -> In (MState (pos + 1) rest g) (rmatch (RSet p) (MState pos (c :: rest) g)).
Proof. intros H. rewrite rmatch_set by exact H. now left. Qed.

(** Every reading is among the results of the pattern where it starts. *)
Lemma slack_complete action r :
  reads action r ->
  exists m',
    In m' (rmatch slack_re
             (MState (length (rd_before r)) (drop (length (rd_before r)) action) [])) /\
    m_groups m' = [(2, 0x23%N :: rd_channel r); (1, rd_message r)].
Proof.
  intros [Ha Hs]. unfold post_shape in Hs.
  apply andb_true_iff in Hs as [Hs Hc]. apply andb_true_iff in Hs as [Hs HX].
  apply andb_true_iff in Hs as [Hs HXn]. apply andb_true_iff in Hs as [Hs Hq1].
  apply andb_true_iff in Hs as [Hs Hw1]. apply andb_true_iff in Hs as [HP Hw1n].
  unfold closing_shape in Hc.
  apply andb_true_iff in Hc as [Hc HY]. apply andb_true_iff in Hc as [Hc HYn].
  apply andb_true_iff in Hc as [Hc Hw3]. apply andb_true_iff in Hc as [Hc Hw3n].
  apply andb_true_iff in Hc as [Hc HT]. apply andb_true_iff in Hc as [Hc Hw2].
  apply andb_true_iff in Hc as [Hq2 Hw2n].
  apply nonempty_ne in Hw1n, HXn, Hw2n, Hw3n, HYn.
  rewrite Ha. unfold reading_text. rewrite drop_app_length.
  set (p0 := length (rd_before r)).
  set (p1 := p0 + length (rd_post r)). set (p2 := p1 + length (rd_ws1 r)).
  set (p3 := p2 + 1). set (p4 := p3 + length (rd_message r)).
  set (g1 := [(1, rd_message r)]).
  set (p5 := p4 + 1). set (p6 := p5 + length (rd_ws2 r)). set (p7 := p6 + length (rd_to r)).
  set (p8 := p7 + length (rd_ws3 r)). set (p9 := p8 + 1 + length (rd_channel r)).
  exists (MState p9 (rd_after r) ((2, 0x23%N :: rd_channel r) :: g1)).
  split; [|reflexivity]. rewrite slack_re_parts.
  apply in_rmatch_seq. eexists. split; [apply in_lit_i; [discriminate|exact HP]|]. fold p1.
  apply in_rmatch_seq. eexists. split; [apply in_plus_app; assumption|]. fold p2.
  apply in_rmatch_seq. eexists. split; [apply in_set; exact Hq1|]. fold p3.
  apply in_rmatch_seq. exists (MState p4 (closing_text r) g1). split.
  { cbn [rmatch].
    apply in_map_iff. exists (MState p4 (closing_text r) []). split.
    - cbn [m_pos m_rest m_groups]. unfold g1, p4.
      replace (p3 + length (rd_message r) - p3) with (length (rd_message r)) by lia.
      now rewrite take_app_length.
    - replace (MState p4 (closing_text r) [])
        with (consume (length (rd_message r)) (MState p3 (rd_message r ++ closing_text r) []))
        by (unfold consume, p4; cbn [m_pos m_rest m_groups]; now rewrite drop_app_length).
      apply in_rep; [|cbn [m_rest]; rewrite span_app by exact HX; lia|discriminate].
      destruct (rd_message r); [congruence|simpl; lia]. }
  unfold closing_re, closing_text. cbn [seqs].
  apply in_rmatch_seq. eexists. split; [apply in_set; exact Hq2|]. fold p5.
  apply in_rmatch_seq. eexists. split; [apply in_plus_app; assumption|]. fold p6.
  apply in_rmatch_seq. eexists. split; [apply in_lit_i; [discriminate|exact HT]|]. fold p7.
  apply in_rmatch_seq. eexists. split; [apply in_plus_app; assumption|]. fold p8.
  cbn [rmatch]. apply in_map_iff.
  exists (MState p9 (rd_after r) g1). split.
  - cbn [m_pos m_rest m_groups]. unfold p9.
    replace (p8 + 1 + length (rd_channel r) - p8) with (S (length (rd_channel r))) by lia.
    simpl. now rewrite take_app_length.
  - apply in_flat_map. exists (MState (p8 + 1) (rd_channel r ++ rd_after r) g1). split.
    + unfold chr. apply in_set. reflexivity.
    + unfold p9. apply in_plus_app; assumption.
Qed.

(** The reading of [plan_post] that starts at [post] and ends the message at
    the second double quote is its first, shortest one: no result of the
    pattern starts before it, and none that starts there has a shorter
    message. *)
Lemma plan_reading_first_shortest : first_shortest plan_post plan_reading.
Proof.
  intros r' Hr'. destruct (slack_complete _ _ Hr') as (m' & Hin & Hg).
  assert (length (rd_before r') <= length plan_post) as Hj.
  { destruct Hr' as [-> _]. unfold reading_text. rewrite length_app. lia. }
  assert (forallb (fun j =>
            forallb (fun m => (7 <=? j) && (negb (j =? 7) || (15 <=? length (group 1 (ReMatch 0 0 (m_groups m))))))
              (rmatch slack_re (MState j (drop j plan_post) [])))
            (seq 0 (S (length plan_post))) = true) as Hall by (vm_compute; reflexivity).
  rewrite forallb_forall in Hall.
  specialize (Hall (length (rd_before r'))). rewrite forallb_forall in Hall.
  assert (In (length (rd_before r')) (seq 0 (S (length plan_post)))) as Hseq
    by (apply in_seq; lia).
  specialize (Hall Hseq m' Hin). rewrite Hg in Hall.
  change (group 1 (ReMatch 0 0 [(2, 0x23%N :: rd_channel r'); (1, rd_message r')]))
    with (rd_message r') in Hall.
  apply andb_true_iff in Hall as [H7 H15]. apply Nat.leb_le in H7.
  change (length (rd_before plan_reading)) with 7.
  change (length (rd_message plan_reading)) with 15.
  split; [exact H7|]. intros E. rewrite E in H15.
  change (length (rd_before plan_reading)) with 7 in H15. cbn [Nat.eqb negb orb] in H15.
  now apply Nat.leb_le in H15.
Qed.

Lemma slack_posts w action st i n channel text :
  re_search slack_re action = Some (ReMatch i n [(2, channel); (1, text)]) ->
  SlackAgent.execute w action st =
    (Ret match chat_postMessage w (calls st) channel text with
         | None => py "Message successfully posted to " ++ channel
         | Some e => py "Slack Error: " ++ exn_msg e
         end,
     called (ChatPostMessage channel text) st).
Proof.
  intros E. unfold SlackAgent.execute. rewrite E.
  change (group 1 (ReMatch i n [(2, channel); (1, text)])) with text.
  change (group 2 (ReMatch i n [(2, channel); (1, text)])) with channel.
  unfold try_except, mbind, M_bind, ask, mret, M_ret, called.
  now destruct (chat_postMessage w (calls st) channel text).
Qed.

(** *** Every instruction that can be read has a first, shortest reading *)

Lemma least_length {A} (f : A -> nat) (l : list A) :
  l <> [] -> exists x, In x l /\ forall y, In y l -> f x <= f y.
Proof.
  induction l as [|a l IH]; [congruence|]. intros _.
  destruct l as [|b l'].
  - exists a. split; [now left|]. intros y [<-|[]]. lia.
  - destruct IH as (x & Hx & Hmin); [discriminate|].
    destruct (le_lt_dec (f a) (f x)) as [Hle|Hlt].
    + exists a. split; [now left|]. intros y [<-|Hy]; [lia|]. specialize (Hmin y Hy). lia.
    + exists x. split; [now right|]. intros y [<-|Hy]; [lia|]. now apply Hmin.
Qed.

Lemma least_position (P : nat -> Prop) :
  (forall n, P n \/ ~ P n) -> forall n, P n -> exists k, P k /\ forall j, j < k -> ~ P j.
Proof.
  intros Hdec n. induction n as [n IH] using lt_wf_ind. intros Hn.
  destruct (Nat.eq_dec n 0) as [->|Hn0].
  { exists 0. split; [exact Hn|]. intros j Hj. lia. }
  assert ((exists j, j < n /\ P j) \/ forall j, j < n -> ~ P j) as [(j & Hj & HP)|Hnone].
  { clear IH Hn Hn0. induction n as [|n IHn].
    - right. intros j Hj. lia.
    - destruct IHn as [(j & Hj & HP)|Hnone]; [left; exists j; split; [lia|exact HP]|].
      destruct (Hdec n) as [HP|HnP]; [left; exists n; split; [lia|exact HP]|].
      right. intros j Hj. destruct (Nat.eq_dec j n) as [->|]; [exact HnP|apply Hnone; lia]. }
  - exact (IH j Hj HP).
  - exists n. split; assumption.
Qed.

Lemma span_drop_span p s : span p (drop (span p s) s) = 0.
Proof.
  induction s as [|c s IH]; [reflexivity|]. simpl.
  destruct (p c) eqn:E; [exact IH|]. simpl. now rewrite E.
Qed.

Lemma whole_channel_reads action r : reads action r -> reads action (whole_channel r).
Proof.
  intros [Ha Hs]. split.
  - rewrite Ha. unfold reading_text, closing_text, whole_channel.
    cbn [rd_before rd_post rd_ws1 rd_q1 rd_message rd_q2 rd_ws2 rd_to rd_ws3 rd_channel rd_after].
    now rewrite <- (app_assoc (rd_channel r)), take_drop.
  - unfold post_shape, closing_shape, whole_channel in *.
    cbn [rd_before rd_post rd_ws1 rd_q1 rd_message rd_q2 rd_ws2 rd_to rd_ws3 rd_channel rd_after].
    apply andb_true_iff in Hs as [Hs Hc]. rewrite Hs. cbn [andb].
    apply andb_true_iff in Hc as [Hc HY]. apply andb_true_iff in Hc as [Hc HYn].
    rewrite Hc, forallb_app, HY, span_take by lia.
    now destruct (rd_channel r).
Qed.

Lemma first_reading_exists action r0 :
  reads action r0 ->
  exists r, reads action r /\ first_shortest action r /\ span not_space (rd_after r) = 0.
Proof.
  intros Hr0.
  set (L := fun j => rmatch slack_re (MState j (drop j action) [])).
  set (len := fun m : mstate => length (group 1 (ReMatch 0 0 (m_groups m)))).
  destruct (slack_complete _ _ Hr0) as (m0 & Hin0 & _). fold (L (length (rd_before r0))) in Hin0.
  destruct (least_position (fun j => L j <> [])) with (n := length (rd_before r0))
    as (k & Hk & Hleast).
  { intros n. destruct (L n); [right; congruence|left; discriminate]. }
  { intros E. rewrite E in Hin0. destruct Hin0. }
  destruct (least_length len (L k) Hk) as (m & Hm & Hmin).
  assert (k <= length action) as Hka.
  { destruct (le_lt_dec k (length action)) as [|Hgt]; [assumption|exfalso].
    apply Hk. unfold L. rewrite drop_ge by lia. reflexivity. }
  assert (In m (rmatch slack_re (MState (length (take k action)) (drop k action) []))) as Hin.
  { rewrite length_take, Nat.min_l by lia. exact Hm. }
  apply slack_sound in Hin as (r & Hr & Hb & _ & Hg). rewrite take_drop in Hr.
  exists (whole_channel r). split; [now apply whole_channel_reads|]. split.
  - intros r' Hr'. destruct (slack_complete _ _ Hr') as (m' & Hin' & Hg').
    fold (L (length (rd_before r'))) in Hin'.
    change (rd_before (whole_channel r)) with (rd_before r).
    change (rd_message (whole_channel r)) with (rd_message r).
    rewrite Hb, length_take, Nat.min_l by lia. split.
    + destruct (le_lt_dec k (length (rd_before r'))) as [|Hlt]; [assumption|exfalso].
      apply (Hleast _ Hlt). intros E. rewrite E in Hin'. destruct Hin'.
    + intros E. rewrite E in Hin'. specialize (Hmin m' Hin'). unfold len in Hmin.
      now rewrite Hg, Hg' in Hmin.
  - apply span_drop_span.
Qed.

(** C7 (amended).  An instruction is read as some text, [Post], white
    space, a straight single or double quote, a message [X] of one line, a
    straight quote, white space, [to], white space and [#Y]; the keywords
    are in any case, [X] may hold quotes, and text may come before and
    after.  Of the first such reading, with the shortest message, whose
    channel runs up to white space or the end, exactly [X] is posted to
    exactly [#Y], and the answer is the success sentence or the Slack
    error; every instruction that can be read at all has such a reading.
    An instruction that cannot be read so gets the format reminder
    and nothing is posted; every instruction without a straight quote is
    one, curly quotes or not.  The capability never raises. *)
Theorem C7_post_extraction w action r st :
  reads action r -> first_shortest action r -> span not_space (rd_after r) = 0 ->
  let channel := 0x23%N :: rd_channel r in
  SlackAgent.execute w action st =
    (Ret match chat_postMessage w (calls st) channel (rd_message r) with
         | None => py "Message successfully posted to " ++ channel
         | Some e => py "Slack Error: " ++ exn_msg e
         end,
     called (ChatPostMessage channel (rd_message r)) st) /\
  (forall other r0, reads other r0 ->
     exists r', reads other r' /\ first_shortest other r'
                /\ span not_space (rd_after r') = 0) /\
  (forall other st', (forall r', ~ reads other r') ->
     SlackAgent.execute w other st' = (Ret SlackAgent.format_help, st')) /\
  (forall other r', forallb (fun c => negb (quote c)) other = true -> ~ reads other r') /\
  (forall other, returns (SlackAgent.execute w other)).
Proof.
  intros Hr Hmin Htail channel. split; [|split; [|split; [|split]]].
  - destruct (slack_search action r Hr Hmin Htail) as [n E].
    exact (slack_posts w action st _ n channel (rd_message r) E).
  - intros other r0. apply first_reading_exists.
  - intros other st' Hno. apply slack_mismatch. now apply unread_is_unmatched.
  - intros other r' Hq. now apply unquoted_is_unread.
  - apply slack_returns.
Qed.

Lemma C7_post_extraction_witness :
  reads plan_post plan_reading /\ first_shortest plan_post plan_reading /\
  span not_space (rd_after plan_reading) = 0 /\
  SlackAgent.execute pizza plan_post fresh
  = (Ret (py "Message successfully posted to #general"),
     called (ChatPostMessage (py "#general") (py "Here's the plan")) fresh).
Proof.
  assert (reads plan_post plan_reading) as Hr by (split; reflexivity).
  split; [exact Hr|]. split; [exact plan_reading_first_shortest|]. split; [reflexivity|].
  apply (C7_post_extraction pizza plan_post plan_reading fresh Hr plan_reading_first_shortest).
  reflexivity.
Defined.

(** ** The executor over a sink that accepts every message *)

Section Executor.

Context (w : World).
Hypothesis sink : sink_ok w.

(** *** One step *)

Lemma is_str_excl a b v : is_str a v = true -> is_str b v = true -> py a = py b.
Proof.
  destruct v; simpl; try discriminate.
  intros Ha Hb. apply bool_decide_eq_true in Ha, Hb. congruence.
Qed.

(** A computation that publishes nothing adds nothing to the messages. *)
Lemma quiet_run (c : M (list N)) st :
  keeps_events c ->
  events (c st).2 = events st ++ match (c st).1 with Ret _ => [] | Raise _ => [] end.
Proof. intros Hc. rewrite Hc. destruct (c st).1; now rewrite app_nil_r. Qed.

(** [dispatch] publishes the auto-save message of a search that returned,
    and nothing else. *)
Lemma dispatch_events agent action st :
  events (dispatch w agent action st).2 =
  events st ++ match (dispatch w agent action st).1 with
               | Ret _ => autosave_log agent action
               | Raise _ => []
               end.
Proof.
  unfold dispatch, autosave_log.
  destruct (is_str "KnowledgeAgent" agent) eqn:Hk.
  { destruct (is_str "SearchAgent" agent) eqn:Hsa.
    { pose proof (is_str_excl _ _ _ Hk Hsa) as H. vm_compute in H. discriminate. }
    destruct action as [| | | |a| |]; apply quiet_run; auto with effects.
    destruct (Str.contains _ _); [destruct (re_search _ _)|]; auto with effects. }
  destruct (is_str "SearchAgent" agent) eqn:Hsa.
  { destruct action as [| | | |a| |]; try (simpl; now rewrite app_nil_r).
    destruct (total_run (SearchAgent.run w a) st) as (msg & st1 & E1 & Ev1); auto with effects.
    rewrite (bind_ret _ _ _ _ _ E1).
    destruct (total_run (KnowledgeAgent.add_knowledge w
                (re_sub filename_re (py "_") (take 20 a)) msg) st1) as (r & st2 & E2 & Ev2);
      auto with effects.
    rewrite (bind_ret _ _ _ _ _ E2).
    rewrite (bind_ret _ _ _ _ _ (broadcast_ok w _ st2 sink)).
    simpl. now rewrite Ev2, Ev1. }
  destruct (is_str "SlackAgent" agent).
  { destruct action; apply quiet_run; auto with effects. }
  destruct (is_str "CommunicationAgent" agent).
  { destruct action; apply quiet_run; auto with effects. }
  destruct (is_str "CalendarAgent" agent).
  { destruct action; apply quiet_run; auto 10 with effects. }
  apply quiet_run; auto with effects.
Qed.

(** [_execute_step] in terms of what [dispatch] does, once the "in progress"
    message is out. *)
Lemma execute_step_unfold agent action st :
  _execute_step w agent action st =
  match dispatch w agent action (published (StatusUpdate action in_progress) st) with
  | (Ret msg, st2) =>
      (Ret msg, published (Log agent msg info) (published (StatusUpdate action completed) st2))
  | (Raise e, st2) =>
      (Ret (py "Error: " ++ exn_msg e),
       published (Log agent (py "Error: " ++ exn_msg e) error) st2)
  end.
Proof.
  unfold _execute_step.
  rewrite (bind_ret _ _ _ _ _ (broadcast_ok w _ st sink)).
  destruct (dispatch w agent action _) as [[msg|e] st2] eqn:E.
  - erewrite try_ret; [reflexivity|].
    rewrite (bind_ret _ _ _ _ _ E).
    rewrite (bind_ret _ _ _ _ _ (broadcast_ok w _ st2 sink)).
    now rewrite (bind_ret _ _ _ _ _ (broadcast_ok w _ _ sink)).
  - erewrite try_raise; [|now rewrite (bind_raise _ _ _ _ _ E)].
    now rewrite (bind_ret _ _ _ _ _ (broadcast_ok w _ st2 sink)).
Qed.

(** A step always returns; its messages open with the "in progress" status
    and close with the log of its outcome. *)
Lemma execute_step_total agent action st :
  exists msg st' mid level,
    _execute_step w agent action st = (Ret msg, st') /\
    events st' = events st ++ StatusUpdate action in_progress :: mid ++ [Log agent msg level] /\
    Forall (fun ev => is_started ev = false) mid.
Proof.
  rewrite execute_step_unfold.
  pose proof (dispatch_events agent action (published (StatusUpdate action in_progress) st)) as He.
  destruct (dispatch w agent action _) as [[msg|e] st2]; simpl in He.
  - exists msg, (published (Log agent msg info) (published (StatusUpdate action completed) st2)),
      (autosave_log agent action ++ [StatusUpdate action completed]), info.
    split; [reflexivity|]. split.
    + simpl. rewrite He. now rewrite <- !app_assoc.
    + apply Forall_app. split; [|now repeat constructor].
      unfold autosave_log. destruct (is_str _ _); [destruct action|]; now repeat constructor.
  - eexists _, _, [], error. split; [reflexivity|]. split; [|constructor].
    simpl. rewrite He. now rewrite <- !app_assoc.
Qed.

(** *** The loop over the plan *)

Lemma with_context_per_spec context agent action :
  with_context w context agent action = instruction_per_spec w context agent action.
Proof.
  unfold with_context, instruction_per_spec, consumes_context.
  now rewrite (orb_comm (is_str "SlackAgent" agent)).
Qed.

Lemma run_steps_cons context step rest st agent action msg st' :
  getitem step "agent" = Ret agent ->
  getitem step "action" = Ret action ->
  _execute_step w agent (with_context w context agent action) st = (Ret msg, st') ->
  run_steps w context (step :: rest) st = run_steps w msg rest st'.
Proof.
  intros Ha Hb He. simpl. unfold lift. rewrite Ha, Hb.
  unfold mbind at 1, M_bind. unfold mbind at 1, M_bind.
  now rewrite (bind_ret _ _ _ _ _ He).
Qed.

Lemma started_app evs1 evs2 : started (evs1 ++ evs2) = started evs1 + started evs2.
Proof. unfold started. now rewrite filter_app, length_app. Qed.

Lemma started_none mid : Forall (fun ev => is_started ev = false) mid -> started mid = 0.
Proof.
  unfold started. induction 1 as [|ev mid H _ IH]; [reflexivity|].
  rewrite filter_cons. destruct (decide _) as [E|_]; [congruence | exact IH].
Qed.

(** Over a plan whose steps can be read, the loop runs to its end, one
    "in progress" status per step, and its messages are threaded as
    specified. *)
Lemma run_steps_threaded plan :
  forallb has_fields plan = true ->
  forall context st,
  exists st' evs,
    run_steps w context plan st = (Ret tt, st') /\
    events st' = events st ++ evs /\
    threaded w context plan evs /\
    started evs = length plan.
Proof.
  induction plan as [|step rest IH]; intros Hf context st.
  - exists st, []. simpl. now rewrite app_nil_r.
  - simpl in Hf. apply andb_true_iff in Hf as [Hstep Hrest].
    unfold has_fields in Hstep.
    destruct (getitem step "agent") as [agent|] eqn:Ha; [|discriminate].
    destruct (getitem step "action") as [action|] eqn:Hb; [|discriminate].
    destruct (execute_step_total agent (with_context w context agent action) st)
      as (msg & st1 & mid & level & He & Hev & Hmid).
    destruct (IH Hrest msg st1) as (st' & evs & Hrun & Hev' & Hth & Hn).
    exists st', (StatusUpdate (with_context w context agent action) in_progress
                   :: mid ++ Log agent msg level :: evs).
    split; [|split; [|split]].
    + rewrite (run_steps_cons _ _ _ _ _ _ _ _ Ha Hb He). exact Hrun.
    + rewrite Hev', Hev. rewrite <- !app_assoc. simpl. now rewrite <- !app_assoc.
    + simpl. exists agent, action, mid, msg, level, evs.
      rewrite with_context_per_spec. auto.
    + change (started ([StatusUpdate (with_context w context agent action) in_progress]
                         ++ mid ++ [Log agent msg level] ++ evs) = length (step :: rest)).
      rewrite !started_app, (started_none _ Hmid), Hn. reflexivity.
Qed.

(** *** The whole run *)

Lemma retry_loop_keeps p n r : keeps_events (retry_loop w p n r).
Proof.
  revert r. induction n as [|n IH]; intros r; simpl.
  - destruct r; auto with effects.
  - apply keeps_bind; [auto with effects|]. intros r'.
    destruct (status_code r' =? 429)%Z; auto 10 with effects.
Qed.

Lemma groq_request_keeps p : keeps_events (_groq_request w p).
Proof.
  unfold _groq_request. destruct (negb _); [auto with effects|].
  pose proof (retry_loop_keeps p). auto 10 with effects.
Qed.

(** [execute_plan] in terms of what [_groq_request] does, once the planning
    message is out. *)
Lemma execute_plan_unfold prompt st :
  execute_plan w prompt st =
  match _groq_request w prompt (published planning_log st) with
  | (Ret plan, st2) =>
      (broadcast w (Plan (as_list plan));; run_steps w [] (as_list plan);; broadcast w done_log) st2
  | (Raise e, st2) => (Ret tt, published (planning_failed e) st2)
  end.
Proof.
  unfold execute_plan.
  destruct (_groq_request w prompt (published planning_log st)) as [[plan|e] st2] eqn:E.
  - match goal with |- (?c ≫= _) st = _ =>
      assert (c st = (Ret (Some (as_list plan)), st2)) as T end.
    { apply try_ret. rewrite (bind_ret _ _ _ _ _ (broadcast_ok w _ st sink)).
      fold planning_log. now rewrite (bind_ret _ _ _ _ _ E). }
    now rewrite (bind_ret _ _ _ _ _ T).
  - match goal with |- (?c ≫= _) st = _ =>
      assert (c st = (Ret None, published (planning_failed e) st2)) as T end.
    { erewrite try_raise.
      2:{ rewrite (bind_ret _ _ _ _ _ (broadcast_ok w _ st sink)).
          fold planning_log. now rewrite (bind_raise _ _ _ _ _ E). }
      now rewrite (bind_ret _ _ _ _ _ (broadcast_ok w _ st2 sink)). }
    now rewrite (bind_ret _ _ _ _ _ T).
Qed.

(** The whole run over a plan whose steps can be read. *)
Lemma execute_plan_trace prompt st :
  plan_readable w prompt st = true ->
  exists st',
    execute_plan w prompt st = (Ret tt, st') /\
    match (_groq_request w prompt (published planning_log st)).1 with
    | Raise e => events st' = events st ++ [planning_log; planning_failed e]
    | Ret plan =>
        exists evs,
          events st' = events st ++ [planning_log; Plan (as_list plan)] ++ evs ++ [done_log] /\
          threaded w [] (as_list plan) evs /\
          started evs = length (as_list plan)
    end.
Proof.
  intros Hr. rewrite execute_plan_unfold. unfold plan_readable in Hr.
  pose proof (groq_request_keeps prompt (published planning_log st)) as Hk.
  destruct (_groq_request w prompt (published planning_log st)) as [[plan|e] st2];
    simpl in Hr, Hk |- *.
  - rewrite (bind_ret _ _ _ _ _ (broadcast_ok w _ st2 sink)).
    destruct (run_steps_threaded (as_list plan) Hr [] (published (Plan (as_list plan)) st2))
      as (st3 & evs & Hrun & Hev & Hth & Hn).
    rewrite (bind_ret _ _ _ _ _ Hrun). rewrite (broadcast_ok _ _ _ sink).
    eexists. split; [reflexivity|]. exists evs. split; [|auto].
    simpl. rewrite Hev. simpl. rewrite Hk. simpl. now rewrite <- !app_assoc.
  - eexists. split; [reflexivity|]. simpl. rewrite Hk. simpl. now rewrite <- app_assoc.
Qed.

(** Whenever acquisition raises, the run is the two logs and nothing else:
    no plan, no status, no step. *)
Lemma planning_failure_stops prompt st e st2 :
  _groq_request w prompt (published planning_log st) = (Raise e, st2) ->
  execute_plan w prompt st = (Ret tt, published (planning_failed e) st2) /\
  events (published (planning_failed e) st2) = events st ++ [planning_log; planning_failed e].
Proof.
  intros Hg. rewrite execute_plan_unfold, Hg. split; [reflexivity|].
  pose proof (groq_request_keeps prompt (published planning_log st)) as Hk.
  rewrite Hg in Hk. simpl in *. rewrite Hk. now rewrite <- app_assoc.
Qed.

End Executor.

(** ** The search step and its automatic save *)

(** Substituting one character for every character of a set. *)
Lemma sub_go_set p u s : forall pos,
  sub_go (RSet p) [u] pos 0 s = map (fun c => if p c then u else c) s.
Proof.
  induction s as [|c s IH]; intros pos; [reflexivity|].
  simpl. unfold match_here. simpl. destruct (p c); simpl.
  - replace (pos + 1 - pos) with 1 by lia. simpl. now rewrite IH.
  - now rewrite IH.
Qed.

Lemma re_sub_set p u s :
  re_sub (RSet p) [u] s = map (fun c => if p c then u else c) s.
Proof. apply sub_go_set. Qed.

Lemma record_name_is_safe a :
  re_sub safe_name_re (py "_") (re_sub filename_re (py "_") (take 20 a)) = record_name_per_spec a.
Proof.
  unfold safe_name_re, filename_re, record_name_per_spec.
  change (py "_") with [0x5F%N]. rewrite !re_sub_set, map_map.
  apply map_ext. intros c. unfold not_alnum, not_safe.
  destruct (is_ascii_alnum c) eqn:E; simpl; [now rewrite E|reflexivity].
Qed.

Lemma search_run_state w q st :
  exists msg,
    SearchAgent.run w q st
    = (Ret msg, called (DdgsText (Str.strip (re_sub search_prefix_re [] q)) 3) st).
Proof.
  unfold SearchAgent.run, try_except, mbind, M_bind, ask, lift, mret, M_ret, called.
  destruct (ddgs_text w (calls st) _) as [[|r l]|e]; [eauto| |eauto].
  destruct (SearchAgent.format_results w (r :: l)); eauto.
Qed.

(** C6 (as stated, refuted).  The outcome of the search ends in a space, and
    the record holds the outcome stripped: its content is not the outcome
    text. *)
Lemma C6_counterexample :
  let run := _execute_step pizza (JStr (py "SearchAgent"))
               (JStr (py "Search for best pizza in Rome")) fresh in
  run.1 = Ret (py "Pizza guide: Try Da Remo. ") /\
  files run.2 !! py "Search_for_best_pizz.txt" = Some (py "Pizza guide: Try Da Remo.") /\
  py "Pizza guide: Try Da Remo." <> py "Pizza guide: Try Da Remo. ".
Proof. split; [|split]; vm_compute; [reflexivity|reflexivity|discriminate]. Qed.

(** C6 (amended).  After a Search step on a text instruction whose file can
    be written (the sink accepting every message), exactly one record of
    the knowledge directory is created or replaced: its name is the first
    20 characters of the instruction with every character outside
    [a-zA-Z0-9] replaced by [_], followed by [.txt]; its content is the
    outcome text of the search without leading and trailing white space;
    and one info log about the automatic save is published between the two
    statuses. *)
Theorem C6_search_autosave w a st :
  sink_ok w ->
  let st1 := published (StatusUpdate (JStr a) in_progress) st in
  let st2 := called (DdgsText (Str.strip (re_sub search_prefix_re [] a)) 3) st1 in
  let name := record_name_per_spec a ++ py ".txt" in
  write_error w (calls st2) name = None ->
  exists msg st',
    _execute_step w (JStr (py "SearchAgent")) (JStr a) st = (Ret msg, st') /\
    (SearchAgent.run w a st1).1 = Ret msg /\
    files st' = <[name := Str.strip msg]> (files st) /\
    events st' = events st ++
      [StatusUpdate (JStr a) in_progress;
       Log (JStr (py "KnowledgeAgent")) (py "Auto-saved results for '" ++ a ++ py "' to knowledge base.") info;
       StatusUpdate (JStr a) completed;
       Log (JStr (py "SearchAgent")) msg info].
Proof.
  intros Hs st1 st2 name Hw.
  destruct (search_run_state w a st1) as [msg Hrun]. fold st2 in Hrun.
  exists msg. rewrite (execute_step_unfold _ Hs). fold st1.
  assert (KnowledgeAgent.add_knowledge w (re_sub filename_re (py "_") (take 20 a)) msg st2
          = (Ret (py "Knowledge successfully stored in " ++ record_name_per_spec a ++ py ".txt"),
             State (events st2) (calls st2) (<[name := Str.strip msg]> (files st2))
               (KnowledgeAgent._load_knowledge w (calls st2)
                  (<[name := Str.strip msg]> (files st2))))) as Hadd.
  { unfold KnowledgeAgent.add_knowledge. rewrite record_name_is_safe. fold name. now rewrite Hw. }
  assert (dispatch w (JStr (py "SearchAgent")) (JStr a) st1
          = (Ret msg, published (Log (JStr (py "KnowledgeAgent"))
                                   (py "Auto-saved results for '" ++ a ++ py "' to knowledge base.") info)
                        (State (events st2) (calls st2) (<[name := Str.strip msg]> (files st2))
                           (KnowledgeAgent._load_knowledge w (calls st2)
                              (<[name := Str.strip msg]> (files st2)))))) as Hd.
  { unfold dispatch.
    change (is_str "KnowledgeAgent" (JStr (py "SearchAgent"))) with false.
    change (is_str "SearchAgent" (JStr (py "SearchAgent"))) with true. cbv iota.
    rewrite (bind_ret _ _ _ _ _ Hrun), (bind_ret _ _ _ _ _ Hadd).
    now rewrite (bind_ret _ _ _ _ _ (broadcast_ok w _ _ Hs)). }
  rewrite Hd. eexists. split; [reflexivity|]. split; [now rewrite Hrun|].
  split; [reflexivity|]. simpl. now rewrite <- !app_assoc.
Qed.

Lemma C6_search_autosave_witness :
  exists msg st',
    _execute_step pizza (JStr (py "SearchAgent")) (JStr (py "Search for best pizza in Rome")) fresh
      = (Ret msg, st') /\
    (SearchAgent.run pizza (py "Search for best pizza in Rome")
       (published (StatusUpdate (JStr (py "Search for best pizza in Rome")) in_progress) fresh)).1
      = Ret msg /\
    files st' = <[record_name_per_spec (py "Search for best pizza in Rome") ++ py ".txt"
                  := Str.strip msg]> (files fresh) /\
    events st' = events fresh ++
      [StatusUpdate (JStr (py "Search for best pizza in Rome")) in_progress;
       Log (JStr (py "KnowledgeAgent"))
           (py "Auto-saved results for '" ++ py "Search for best pizza in Rome" ++ py "' to knowledge base.") info;
       StatusUpdate (JStr (py "Search for best pizza in Rome")) completed;
       Log (JStr (py "SearchAgent")) msg info].
Proof.
  apply (C6_search_autosave pizza (py "Search for best pizza in Rome") fresh).
  - apply no_connection_sink_ok. reflexivity.
  - reflexivity.
Defined.

(** ** Claims about plan acquisition *)

(** C3 (as stated, refuted).  The content [5] is neither a list nor an
    object with a [steps] key, and the parse raises nothing: the request
    returns the number, which [execute_plan] then wraps in a list. *)
Lemma C3_counterexample :
  (_groq_request number_plan (py "count to five") fresh).1 = Ret (JInt 5)
  /\ as_list (JInt 5) = [JInt 5].
Proof. split; [vm_compute; reflexivity | reflexivity]. Qed.

(** C3 (amended).  Once the completion has a text content, the parse raises
    exactly when [json.loads] does.  Whenever the content decodes, whatever
    its shape, the request returns: a bare list is the plan, an object with
    a [steps] key gives that key's value, and any value that is not a list
    at that point (an object without [steps] in particular) is wrapped in a
    one-element list. *)
Theorem C3_parse_accepts_every_shape w prompt st r st1 content :
  nonempty (GROQ_API_KEY w) = true ->
  retry_loop w prompt 3 None st = (Ret r, st1) ->
  completion_content r = Ret (JStr content) ->
  match json_loads w content with
  | Raise e => _groq_request w prompt st = (Raise e, st1)
  | Ret parsed =>
      _groq_request w prompt st = (Ret (steps_of parsed), st1) /\
      as_list (steps_of parsed) =
        match parsed with
        | JList steps => steps
        | JObj items =>
            match dict_get items (py "steps") with
            | Some (JList steps) => steps
            | Some v => [v]
            | None => [parsed]
            end
        | _ => [parsed]
        end
  end.
Proof.
  intros Hk Hr Hc.
  assert (_groq_request w prompt st
          = (parsed ← lift (json_loads w content); mret (steps_of parsed)) st1) as E.
  { unfold _groq_request. rewrite Hk. cbn [negb].
    rewrite (bind_ret _ _ _ _ _ Hr).
    erewrite bind_ret; [|unfold lift; rewrite Hc; reflexivity]. reflexivity. }
  rewrite E. unfold mbind, M_bind, lift.
  destruct (json_loads w content) as [parsed|e]; [|reflexivity].
  split; [reflexivity|].
  destruct parsed as [| | | | | |items]; try reflexivity.
  simpl. destruct (dict_get items (py "steps")) as [[]|]; reflexivity.
Qed.

Lemma C3_parse_accepts_every_shape_witness :
  _groq_request calendar_fails (py "plan my day") fresh
  = (Ret (steps_of standup_plan), called (PlannerPost (py "plan my day")) fresh) /\
  as_list (steps_of standup_plan)
  = [step "CalendarAgent" "Schedule standup for tomorrow"; step "SlackAgent" "Post 'see you' to #general"].
Proof.
  exact (C3_parse_accepts_every_shape calendar_fails (py "plan my day") fresh
           (response 200 (completion (JStr standup_text))) _ standup_text
           eq_refl eq_refl eq_refl).
Defined.

Lemma ask_ret {A} c (o : list Call -> result A) st a :
  o (calls st) = Ret a -> ask c o st = (Ret a, called c st).
Proof. intros H. unfold ask. now rewrite H. Qed.

Lemma retry_loop_S w prompt n r0 :
  retry_loop w prompt (S n) r0 =
  (r ← ask (PlannerPost prompt) (fun h => planner_post w h prompt);
   if (status_code r =? 429)%Z then
     ask (Sleep 5) (fun _ => Ret tt);; retry_loop w prompt n (Some r)
   else lift (raise_for_status GROQ_API_URL r);; mret r).
Proof. reflexivity. Qed.

(** A 4xx or 5xx status other than 429 ends acquisition at once: one request,
    no sleep, an [HTTPError]. *)
Lemma http_error_is_fatal w prompt st r :
  nonempty (GROQ_API_KEY w) = true ->
  planner_post w (calls st) prompt = Ret r ->
  status_code r <> 429%Z -> (400 <= status_code r < 600)%Z ->
  exists e, _groq_request w prompt st = (Raise e, called (PlannerPost prompt) st)
            /\ exn_class e = "HTTPError"%string.
Proof.
  intros Hk Hp Hn Hr. unfold _groq_request. rewrite Hk. cbn [negb].
  assert (exists e, raise_for_status GROQ_API_URL r = Raise e /\ exn_class e = "HTTPError"%string)
    as (e & He & Hc).
  { unfold raise_for_status.
    destruct (Z.ltb_spec (status_code r) 500).
    - replace (400 <=? status_code r)%Z with true by (symmetry; apply Z.leb_le; lia).
      simpl. eauto.
    - replace (500 <=? status_code r)%Z with true by (symmetry; apply Z.leb_le; lia).
      replace (status_code r <? 600)%Z with true by (symmetry; apply Z.ltb_lt; lia).
      rewrite andb_false_r. simpl. eauto. }
  exists e. split; [|exact Hc].
  apply bind_raise. rewrite retry_loop_S.
  rewrite (bind_ret _ _ _ _ _ (ask_ret (PlannerPost prompt) _ st r Hp)).
  apply Z.eqb_neq in Hn. rewrite Hn. apply bind_raise. unfold lift. now rewrite He.
Qed.

(** Three answers 429 in a row: a sleep of five seconds after each, no fourth
    request, and the loop ends with the third response in hand. *)
Lemma rate_limited_thrice w prompt st r1 r2 r3 :
  let st1 := called (Sleep 5) (called (PlannerPost prompt) st) in
  let st2 := called (Sleep 5) (called (PlannerPost prompt) st1) in
  let st3 := called (Sleep 5) (called (PlannerPost prompt) st2) in
  planner_post w (calls st) prompt = Ret r1 -> status_code r1 = 429%Z ->
  planner_post w (calls st1) prompt = Ret r2 -> status_code r2 = 429%Z ->
  planner_post w (calls st2) prompt = Ret r3 -> status_code r3 = 429%Z ->
  retry_loop w prompt 3 None st = (Ret r3, st3).
Proof.
  intros st1 st2 st3 H1 S1 H2 S2 H3 S3.
  pose proof (fun st => ask_ret (Sleep 5) (fun _ => Ret tt) st tt eq_refl) as Hsleep.
  rewrite retry_loop_S.
  rewrite (bind_ret _ _ _ _ _ (ask_ret (PlannerPost prompt) _ st r1 H1)), S1. cbn [Z.eqb Pos.eqb].
  rewrite (bind_ret _ _ _ _ _ (Hsleep _)). fold st1.
  rewrite retry_loop_S.
  rewrite (bind_ret _ _ _ _ _ (ask_ret (PlannerPost prompt) _ st1 r2 H2)), S2. cbn [Z.eqb Pos.eqb].
  rewrite (bind_ret _ _ _ _ _ (Hsleep _)). fold st2.
  rewrite retry_loop_S.
  rewrite (bind_ret _ _ _ _ _ (ask_ret (PlannerPost prompt) _ st2 r3 H3)), S3. cbn [Z.eqb Pos.eqb].
  rewrite (bind_ret _ _ _ _ _ (Hsleep _)). reflexivity.
Qed.

(** Three answers 429 whose last body holds no completion (an error body,
    say): decoding it raises, and the run is the planning log and the error
    log, after three requests and three sleeps. *)
Lemma rate_limited_without_completion w prompt st r1 r2 r3 e :
  sink_ok w -> nonempty (GROQ_API_KEY w) = true ->
  let st0 := published planning_log st in
  let st1 := called (Sleep 5) (called (PlannerPost prompt) st0) in
  let st2 := called (Sleep 5) (called (PlannerPost prompt) st1) in
  let st3 := called (Sleep 5) (called (PlannerPost prompt) st2) in
  planner_post w (calls st0) prompt = Ret r1 -> status_code r1 = 429%Z ->
  planner_post w (calls st1) prompt = Ret r2 -> status_code r2 = 429%Z ->
  planner_post w (calls st2) prompt = Ret r3 -> status_code r3 = 429%Z ->
  completion_content r3 = Raise e ->
  execute_plan w prompt st = (Ret tt, published (planning_failed e) st3) /\
  events (published (planning_failed e) st3) = events st ++ [planning_log; planning_failed e].
Proof.
  intros Hs Hk st0 st1 st2 st3 H1 S1 H2 S2 H3 S3 Hc.
  apply (planning_failure_stops w Hs).
  unfold _groq_request. rewrite Hk. cbn [negb].
  rewrite (bind_ret _ _ _ _ _ (rate_limited_thrice w prompt st0 r1 r2 r3 H1 S1 H2 S2 H3 S3)).
  apply bind_raise. unfold lift. now rewrite Hc.
Qed.

(** C9 (the code at the failing input).  Every attempt is answered 429 and
    the body of the third answer holds a completion: after the third sleep
    the loop is over, the body is decoded, and the plan is published and
    run. *)
Theorem C9_exhausted_retries_fall_through :
  let run := execute_plan always_429 (py "say hello") fresh in
  let action := JStr (py "Post 'hello' to #general") in
  run.1 = Ret tt /\
  calls run.2 =
    [PlannerPost (py "say hello"); Sleep 5; PlannerPost (py "say hello"); Sleep 5;
     PlannerPost (py "say hello"); Sleep 5; ChatPostMessage (py "#general") (py "hello")] /\
  events run.2 =
    [planning_log; Plan [step "SlackAgent" "Post 'hello' to #general"];
     StatusUpdate action in_progress; StatusUpdate action completed;
     Log (JStr (py "SlackAgent")) (py "Message successfully posted to #general") info;
     done_log].
Proof. vm_compute. repeat split; reflexivity. Qed.

(** ** Claims about the executor *)

(** C1 (as stated, refuted).  With one websocket whose peer is gone, the
    planning message raises inside the [try], the handler's own broadcast
    raises again, and that exception leaves [execute_plan]. *)
Lemma C1_counterexample :
  (execute_plan sink_down (py "plan my day") fresh).1
  = Raise (Exn "WebSocketDisconnect" (py "1006")).
Proof. vm_compute. reflexivity. Qed.

(** A second way out, with a working sink: a step without an [agent] key
    makes [step["agent"]] raise [KeyError] outside every [try]. *)
Example execute_plan_unreadable_step :
  (execute_plan agentless (py "pizza?") fresh).1 = Raise (Exn "KeyError" (py "'agent'")).
Proof. vm_compute. reflexivity. Qed.

(** C1 (amended).  When no websocket raises and every step of the acquired
    plan has an [agent] and an [action], [execute_plan] returns normally:
    a failure of plan acquisition becomes the "Planning failed" error log,
    which then ends the stream, and otherwise the stream ends with the
    final success log. *)
Theorem C1_execute_plan_returns w prompt st :
  sink_ok w -> plan_readable w prompt st = true ->
  exists st' evs,
    execute_plan w prompt st = (Ret tt, st') /\
    events st' = events st ++ planning_log :: evs /\
    ((exists e, (_groq_request w prompt (published planning_log st)).1 = Raise e /\
                evs = [planning_failed e])
     \/ (exists plan mid, (_groq_request w prompt (published planning_log st)).1 = Ret plan /\
                          evs = Plan (as_list plan) :: mid ++ [done_log])).
Proof.
  intros Hs Hr. destruct (execute_plan_trace w Hs prompt st Hr) as (st' & Hrun & H).
  destruct ((_groq_request w prompt (published planning_log st)).1) as [plan|e] eqn:E.
  - destruct H as (mid & Hev & _). exists st', (Plan (as_list plan) :: mid ++ [done_log]).
    split; [exact Hrun|]. split; [exact Hev|]. right. now exists plan, mid.
  - exists st', [planning_failed e]. split; [exact Hrun|]. split; [exact H|]. left. now exists e.
Qed.

Lemma C1_execute_plan_returns_witness :
  exists st' evs,
    execute_plan calendar_fails (py "plan my day") fresh = (Ret tt, st') /\
    events st' = events fresh ++ planning_log :: evs /\
    ((exists e, (_groq_request calendar_fails (py "plan my day")
                   (published planning_log fresh)).1 = Raise e /\ evs = [planning_failed e])
     \/ (exists plan mid, (_groq_request calendar_fails (py "plan my day")
                             (published planning_log fresh)).1 = Ret plan /\
                          evs = Plan (as_list plan) :: mid ++ [done_log])).
Proof.
  apply (C1_execute_plan_returns calendar_fails (py "plan my day") fresh).
  - apply no_connection_sink_ok. reflexivity.
  - vm_compute. reflexivity.
Defined.

(** C2 (as stated, refuted).  The client leaves once it has been sent the
    error log of the calendar step: the in-progress status of the next step
    cannot be sent, that exception leaves [execute_plan], and the Slack step
    is never dispatched.  With the same client and a calendar step that
    succeeds the whole plan runs, so it is the failure of the one step that
    ends the plan. *)
Lemma C2_counterexample :
  let failed := execute_plan leaves_on_error (py "plan my day") fresh in
  let passed := execute_plan stays (py "plan my day") fresh in
  failed.1 = Raise (Exn "WebSocketDisconnect" (py "1001")) /\
  calls failed.2 = [PlannerPost (py "plan my day"); CalendarRun (py "Schedule standup for tomorrow")] /\
  passed.1 = Ret tt /\
  calls passed.2 = [PlannerPost (py "plan my day"); CalendarRun (py "Schedule standup for tomorrow");
                    ChatPostMessage (py "#general.") (py "see you")].
Proof. repeat split; vm_compute; reflexivity. Qed.

(** C2 (amended).  When the capability call of a step raises [e], the sink
    accepting every message and the remaining steps being readable,
    [_execute_step] returns the text ["Error: " + str(e)] and publishes it
    in an error-level log; the loop goes on with the next step, that text as
    its context, and every remaining step is started. *)
Theorem C2_step_failure_is_isolated w context step rest st agent action e st_d :
  sink_ok w ->
  forallb has_fields rest = true ->
  getitem step "agent" = Ret agent ->
  getitem step "action" = Ret action ->
  dispatch w agent (with_context w context agent action)
    (published (StatusUpdate (with_context w context agent action) in_progress) st)
  = (Raise e, st_d) ->
  let text := py "Error: " ++ exn_msg e in
  let st1 := published (Log agent text error) st_d in
  _execute_step w agent (with_context w context agent action) st = (Ret text, st1) /\
  run_steps w context (step :: rest) st = run_steps w text rest st1 /\
  exists st', run_steps w text rest st1 = (Ret tt, st') /\
              started (events st') = started (events st1) + length rest.
Proof.
  intros Hs Hrest Ha Hb Hd text st1.
  assert (_execute_step w agent (with_context w context agent action) st = (Ret text, st1)) as He.
  { rewrite (execute_step_unfold _ Hs), Hd. reflexivity. }
  split; [exact He|]. split; [exact (run_steps_cons _ _ _ _ _ _ _ _ _ Ha Hb He)|].
  destruct (run_steps_threaded w Hs rest Hrest text st1) as (st' & evs & Hrun & Hev & _ & Hn).
  exists st'. split; [exact Hrun|]. now rewrite Hev, started_app, Hn.
Qed.

Lemma C2_step_failure_is_isolated_witness :
  let agent := JStr (py "CalendarAgent") in
  let action := JStr (py "Schedule standup for tomorrow") in
  let e := Exn "ValueError" (py "Authorized user info was not in the expected format") in
  let rest := [step "SlackAgent" "Post 'see you' to #general"] in
  let st_d := State [StatusUpdate action in_progress] [CalendarRun (py "Schedule standup for tomorrow")] ∅ [] in
  let text := py "Error: " ++ exn_msg e in
  let st1 := published (Log agent text error) st_d in
  _execute_step calendar_fails agent (with_context calendar_fails [] agent action) fresh
    = (Ret text, st1) /\
  run_steps calendar_fails [] (step "CalendarAgent" "Schedule standup for tomorrow" :: rest) fresh
    = run_steps calendar_fails text rest st1 /\
  exists st', run_steps calendar_fails text rest st1 = (Ret tt, st') /\
              started (events st') = started (events st1) + length rest.
Proof.
  apply (C2_step_failure_is_isolated calendar_fails [] _ _ fresh).
  - apply no_connection_sink_ok. reflexivity.
  - reflexivity.
  - reflexivity.
  - reflexivity.
  - vm_compute. reflexivity.
Defined.

(** C4 (as stated, refuted).  The calendar step raises: its messages are the
    "in progress" status and the error log, and no "completed" status is
    published for it; the only "completed" status of the run belongs to the
    Slack step that follows. *)
Lemma C4_counterexample :
  let failed := py "Error: Authorized user info was not in the expected format" in
  let post := JStr (py "Post 'see you' to #general. Info: " ++ failed) in
  let st' := (execute_plan calendar_fails (py "plan my day") fresh).2 in
  events st'
  = [planning_log; Plan (as_list (steps_of standup_plan));
     StatusUpdate (JStr (py "Schedule standup for tomorrow")) in_progress;
     Log (JStr (py "CalendarAgent")) failed error;
     StatusUpdate post in_progress;
     StatusUpdate post completed;
     Log (JStr (py "SlackAgent")) (py "Message successfully posted to #general.") info;
     done_log]
  /\ ~ In (StatusUpdate (JStr (py "Schedule standup for tomorrow")) completed) (events st').
Proof.
  split; [vm_compute; reflexivity|].
  vm_compute. intros H. repeat (destruct H as [H|H]; [discriminate H|]). exact H.
Qed.

(** C4 (amended).  With a sink that accepts every message, a step whose
    capability call returns publishes the "in progress" status, the
    auto-save log if it is a search, the "completed" status and an
    info-level log of the outcome, in this order; a step whose capability
    call raises publishes the "in progress" status and an error-level log of
    ["Error: " + str(e)], and no "completed" status. *)
Theorem C4_step_events w agent action st :
  sink_ok w ->
  exists msg st',
    _execute_step w agent action st = (Ret msg, st') /\
    match (dispatch w agent action (published (StatusUpdate action in_progress) st)).1 with
    | Ret m =>
        msg = m /\
        events st' = events st ++ [StatusUpdate action in_progress] ++ autosave_log agent action
                       ++ [StatusUpdate action completed; Log agent m info]
    | Raise e =>
        msg = py "Error: " ++ exn_msg e /\
        events st' = events st ++ [StatusUpdate action in_progress; Log agent msg error]
    end.
Proof.
  intros Hs. rewrite (execute_step_unfold _ Hs).
  pose proof (dispatch_events w Hs agent action (published (StatusUpdate action in_progress) st)) as He.
  destruct (dispatch w agent action _) as [[m|e] st2]; simpl in He |- *.
  - eexists _, _. split; [reflexivity|]. split; [reflexivity|].
    simpl. rewrite He. now rewrite <- !app_assoc.
  - eexists _, _. split; [reflexivity|]. split; [reflexivity|].
    simpl. rewrite He. now rewrite <- !app_assoc.
Qed.

Lemma C4_step_events_witness :
  exists msg st',
    _execute_step pizza (JStr (py "SearchAgent")) (JStr (py "Search for best pizza in Rome")) fresh
      = (Ret msg, st') /\
    msg = py "Pizza guide: Try Da Remo. " /\
    events st' =
      [StatusUpdate (JStr (py "Search for best pizza in Rome")) in_progress;
       Log (JStr (py "KnowledgeAgent"))
           (py "Auto-saved results for 'Search for best pizza in Rome' to knowledge base.") info;
       StatusUpdate (JStr (py "Search for best pizza in Rome")) completed;
       Log (JStr (py "SearchAgent")) msg info].
Proof.
  destruct (C4_step_events pizza (JStr (py "SearchAgent"))
              (JStr (py "Search for best pizza in Rome")) fresh) as (msg & st' & E & H).
  - apply no_connection_sink_ok. reflexivity.
  - assert ((dispatch pizza (JStr (py "SearchAgent")) (JStr (py "Search for best pizza in Rome"))
               (published (StatusUpdate (JStr (py "Search for best pizza in Rome")) in_progress)
                  fresh)).1 = Ret (py "Pizza guide: Try Da Remo. ")) as D
      by (vm_compute; reflexivity).
    rewrite D in H. destruct H as [Hm H]. exists msg, st'.
    split; [exact E|]. split; [exact Hm|]. rewrite Hm. exact H.
Defined.

(** C5.  In a run whose plan was acquired (the sink accepting every message,
    the steps readable), the messages between the plan and the final log
    are threaded from the empty context: each step is dispatched with
    [". Info: " + context] appended exactly when the context is not empty and
    the capability is SlackAgent or CommunicationAgent, and the text logged
    for a step, error or not, is the context of the next. *)
Theorem C5_context_threading w prompt st plan st2 :
  sink_ok w ->
  _groq_request w prompt (published planning_log st) = (Ret plan, st2) ->
  forallb has_fields (as_list plan) = true ->
  exists st' evs,
    execute_plan w prompt st = (Ret tt, st') /\
    events st' = events st ++ [planning_log; Plan (as_list plan)] ++ evs ++ [done_log] /\
    threaded w [] (as_list plan) evs.
Proof.
  intros Hs Hg Hf.
  destruct (execute_plan_trace w Hs prompt st) as (st' & Hrun & H).
  { unfold plan_readable. now rewrite Hg. }
  rewrite Hg in H. destruct H as (evs & Hev & Hth & _). now exists st', evs.
Qed.

Lemma C5_context_threading_witness :
  exists st' evs,
    execute_plan calendar_fails (py "plan my day") fresh = (Ret tt, st') /\
    events st' = events fresh ++ [planning_log; Plan (as_list (JList [step "CalendarAgent" "Schedule standup for tomorrow"; step "SlackAgent" "Post 'see you' to #general"]))]
                   ++ evs ++ [done_log] /\
    threaded calendar_fails []
      (as_list (JList [step "CalendarAgent" "Schedule standup for tomorrow"; step "SlackAgent" "Post 'see you' to #general"])) evs.
Proof.
  apply (C5_context_threading calendar_fails (py "plan my day") fresh _
           (_groq_request calendar_fails (py "plan my day") (published planning_log fresh)).2).
  - apply no_connection_sink_ok. reflexivity.
  - vm_compute. reflexivity.
  - reflexivity.
Defined.

(* ===================================================================== *)
(** * Part III: further properties of the program *)
(* ===================================================================== *)

(** ** State relations kept by every computation *)

Section Preserves.

Context (R : relation state) `{!Reflexive R} `{!Transitive R}.
Hypothesis R_called : forall c st, R st (called c st).
Hypothesis R_published : forall ev st, R st (published ev st).

Lemma preserves_ret {A} (a : A) : preserves R (mret a).
Proof using Reflexive0. intros st. simpl. reflexivity. Qed.

Lemma preserves_raise {A} e : preserves R (@raise A e).
Proof using Reflexive0. intros st. simpl. reflexivity. Qed.

Lemma preserves_lift {A} (r : result A) : preserves R (lift r).
Proof using Reflexive0. intros st. simpl. reflexivity. Qed.

Lemma preserves_get : preserves R get.
Proof using Reflexive0. intros st. simpl. reflexivity. Qed.

Lemma preserves_ask {A} c (o : list Call -> result A) : preserves R (ask c o).
Proof using R_called. intros st. apply R_called. Qed.

Lemma preserves_broadcast w ev : preserves R (broadcast w ev).
Proof using R_published.
  intros st. unfold broadcast. destruct (send_all _ _ _); apply R_published.
Qed.

Lemma preserves_bind {A B} (c : M A) (k : A -> M B) :
  preserves R c -> (forall a, preserves R (k a)) -> preserves R (c ≫= k).
Proof using Transitive0.
  intros Hc Hk st. unfold mbind, M_bind. specialize (Hc st).
  destruct (c st) as [[a|e] st1]; simpl in *; [|assumption].
  etransitivity; [exact Hc|apply Hk].
Qed.

Lemma preserves_try {A} (c : M A) h :
  preserves R c -> (forall e, preserves R (h e)) -> preserves R (try_except c h).
Proof using Transitive0.
  intros Hc Hh st. unfold try_except. specialize (Hc st).
  destruct (c st) as [[a|e] st1]; simpl in *; [assumption|].
  etransitivity; [exact Hc|apply Hh].
Qed.

Hint Resolve preserves_ret preserves_raise preserves_lift preserves_get preserves_ask
  preserves_broadcast preserves_bind preserves_try : effects.

Lemma slack_preserves w a : preserves R (SlackAgent.execute w a).
Proof using R_called Reflexive0 Transitive0.
  unfold SlackAgent.execute. destruct (re_search _ _); auto 10 with effects.
Qed.

Lemma communication_preserves w a : preserves R (CommunicationAgent.run w a).
Proof using R_called Reflexive0 Transitive0.
  unfold CommunicationAgent.run.
  destruct (re_search _ _); [destruct (nonempty _)|]; auto 10 with effects.
Qed.

Lemma search_preserves w q : preserves R (SearchAgent.run w q).
Proof using R_called Reflexive0 Transitive0.
  unfold SearchAgent.run. apply preserves_try; [|auto with effects].
  apply preserves_bind; [auto with effects|]. intros [|r l]; auto 10 with effects.
Qed.

Lemma knowledge_run_preserves w q : preserves R (KnowledgeAgent.run w q).
Proof using R_called Reflexive0 Transitive0.
  unfold KnowledgeAgent.run. apply preserves_bind; [auto with effects|]. intros st.
  destruct (negb _); [auto with effects|].
  apply preserves_try; [|auto with effects].
  apply preserves_bind; [auto with effects|]. intros r.
  apply preserves_bind; [auto with effects|]. intros _.
  apply preserves_bind; [auto with effects|]. intros []; auto with effects.
Qed.

Lemma retry_loop_preserves w p n r : preserves R (retry_loop w p n r).
Proof using R_called Reflexive0 Transitive0.
  revert r. induction n as [|n IH]; intros r; simpl.
  - destruct r; auto with effects.
  - apply preserves_bind; [auto with effects|]. intros r'.
    destruct (status_code r' =? 429)%Z; auto 10 with effects.
Qed.

Lemma groq_request_preserves w p : preserves R (_groq_request w p).
Proof using R_called Reflexive0 Transitive0.
  unfold _groq_request. destruct (negb _); [auto with effects|].
  pose proof (retry_loop_preserves w p). auto 10 with effects.
Qed.

(** Everything follows from the one operation that writes a file. *)
Hypothesis R_add_knowledge : forall w f c, preserves R (KnowledgeAgent.add_knowledge w f c).

Lemma dispatch_preserves w agent action : preserves R (dispatch w agent action).
Proof using All.
  unfold dispatch.
  pose proof slack_preserves. pose proof communication_preserves.
  pose proof search_preserves. pose proof knowledge_run_preserves.
  destruct (is_str "KnowledgeAgent" agent).
  { destruct action; auto with effects.
    destruct (Str.contains _ _); [destruct (re_search _ _)|]; auto with effects. }
  destruct (is_str "SearchAgent" agent).
  { destruct action; auto 10 with effects. }
  destruct (is_str "SlackAgent" agent); [destruct action; auto with effects|].
  destruct (is_str "CommunicationAgent" agent); [destruct action; auto with effects|].
  destruct (is_str "CalendarAgent" agent); [destruct action; auto 10 with effects|].
  auto with effects.
Qed.

Lemma execute_step_preserves w agent action : preserves R (_execute_step w agent action).
Proof using All.
  unfold _execute_step. pose proof (dispatch_preserves w agent action). auto 10 with effects.
Qed.

Lemma run_steps_preserves w plan : forall context, preserves R (run_steps w context plan).
Proof using All.
  induction plan as [|step rest IH]; intros context; simpl; [auto with effects|].
  pose proof (execute_step_preserves w). auto 10 with effects.
Qed.

Lemma execute_plan_preserves w prompt : preserves R (execute_plan w prompt).
Proof using All.
  unfold execute_plan.
  pose proof (groq_request_preserves w prompt). pose proof (run_steps_preserves w).
  apply preserves_bind; [auto 10 with effects|].
  intros [plan|]; auto 10 with effects.
Qed.

End Preserves.

Global Instance same_store_refl : Reflexive same_store.
Proof. intros st. split; reflexivity. Qed.

Global Instance same_store_trans : Transitive same_store.
Proof. intros a b c [H1 H2] [H3 H4]. split; congruence. Qed.

Global Instance records_kept_refl : Reflexive records_kept.
Proof. intros st k H. exact H. Qed.

Global Instance records_kept_trans : Transitive records_kept.
Proof. intros a b c H1 H2 k H. apply H2, H1, H. Qed.

Lemma same_store_records_kept st st' : same_store st st' -> records_kept st st'.
Proof. intros [H _] k Hk. now rewrite H. Qed.

Lemma add_knowledge_records_kept w f c :
  preserves records_kept (KnowledgeAgent.add_knowledge w f c).
Proof.
  intros st k Hk. unfold KnowledgeAgent.add_knowledge.
  destruct (write_error _ _ _); [destruct (failed_write _ _ _)|]; simpl; try exact Hk;
    (destruct (decide (re_sub safe_name_re (py "_") f ++ py ".txt" = k)) as [<-|Hne];
     [rewrite lookup_insert_eq; eauto | now rewrite lookup_insert_ne]).
Qed.

(** ** The knowledge directory *)

(** X1.  Apart from a search and from a knowledge step that asks to add
    knowledge, no step touches the knowledge directory or the text loaded
    from it, whatever the collaborators and the websockets do. *)
Theorem only_saving_steps_write w agent action :
  saves agent action = false ->
  preserves same_store (_execute_step w agent action).
Proof.
  intros Hs. unfold saves in Hs. apply orb_false_iff in Hs as [Hsearch Hk].
  assert (preserves same_store (dispatch w agent action)) as Hd.
  { unfold dispatch. rewrite Hsearch.
    destruct (is_str "KnowledgeAgent" agent).
    { destruct action; try (apply preserves_raise; typeclasses eauto).
      simpl in Hk. rewrite Hk. apply knowledge_run_preserves; try typeclasses eauto.
      intros c st. split; reflexivity. }
    destruct (is_str "SlackAgent" agent).
    { destruct action; try (apply preserves_raise; typeclasses eauto).
      apply slack_preserves; try typeclasses eauto. intros c st. split; reflexivity. }
    destruct (is_str "CommunicationAgent" agent).
    { destruct action; try (apply preserves_raise; typeclasses eauto).
      apply communication_preserves; try typeclasses eauto. intros c st. split; reflexivity. }
    destruct (is_str "CalendarAgent" agent).
    { destruct action; try (apply preserves_raise; typeclasses eauto).
      apply preserves_bind; [typeclasses eauto| |intros; apply preserves_ret; typeclasses eauto].
      apply preserves_ask. intros c st. split; reflexivity. }
    apply preserves_ret; typeclasses eauto. }
  assert (forall ev, preserves same_store (broadcast w ev)) as Hb.
  { intros ev. apply preserves_broadcast. intros e st. split; reflexivity. }
  unfold _execute_step.
  apply preserves_bind; [typeclasses eauto|apply Hb|]. intros _.
  apply preserves_try; [typeclasses eauto| |].
  - apply preserves_bind; [typeclasses eauto|exact Hd|]. intros msg.
    apply preserves_bind; [typeclasses eauto|apply Hb|]. intros _.
    apply preserves_bind; [typeclasses eauto|apply Hb|]. intros _.
    apply preserves_ret; typeclasses eauto.
  - intros e. apply preserves_bind; [typeclasses eauto|apply Hb|]. intros _.
    apply preserves_ret; typeclasses eauto.
Qed.

Lemma only_saving_steps_write_witness :
  saves (JStr (py "KnowledgeAgent")) (JStr (py "What is the refund policy?")) = false /\
  preserves same_store
    (_execute_step sink_down (JStr (py "KnowledgeAgent")) (JStr (py "What is the refund policy?"))).
Proof.
  split; [reflexivity|].
  apply (only_saving_steps_write sink_down (JStr (py "KnowledgeAgent"))
           (JStr (py "What is the refund policy?"))).
  reflexivity.
Defined.

(** X2.  A whole run, whatever the plan and whatever fails, removes no
    record from the knowledge directory: a record can only be added or
    overwritten. *)
Theorem execute_plan_keeps_records w prompt :
  preserves records_kept (execute_plan w prompt).
Proof.
  apply execute_plan_preserves; try typeclasses eauto.
  - intros c st k H. exact H.
  - intros ev st k H. exact H.
  - apply add_knowledge_records_kept.
Qed.

(** ** The requests of plan acquisition *)

Lemma groq_request_state w prompt st :
  (_groq_request w prompt st).2
  = if nonempty (GROQ_API_KEY w) then (retry_loop w prompt 3 None st).2 else st.
Proof.
  unfold _groq_request. destruct (nonempty _); cbn [negb]; [|reflexivity].
  unfold mbind at 1, M_bind.
  destruct (retry_loop w prompt 3 None st) as [[r|e] st1]; [|reflexivity].
  unfold mbind, M_bind, lift. destruct (completion_content r) as [c|]; [|reflexivity].
  destruct (loads w c); reflexivity.
Qed.

Lemma attempts_snoc prompt k :
  PlannerPost prompt :: Sleep 5 :: attempts prompt k
  = attempts prompt k ++ [PlannerPost prompt; Sleep 5].
Proof. induction k as [|k IH]; simpl; [reflexivity|]. now rewrite <- IH. Qed.

Lemma retry_loop_calls w prompt n : forall r st,
  exists k,
    k <= n /\
    (calls (retry_loop w prompt n r st).2 = calls st ++ attempts prompt k
     \/ k < n /\ calls (retry_loop w prompt n r st).2
                 = calls st ++ attempts prompt k ++ [PlannerPost prompt]).
Proof.
  induction n as [|n IH]; intros r0 st.
  - exists 0. split; [lia|]. left. simpl. destruct r0; simpl; now rewrite app_nil_r.
  - destruct (planner_post w (calls st) prompt) as [r|e] eqn:E.
    2:{ exists 0. split; [lia|]. right. split; [lia|].
        rewrite retry_loop_S.
        rewrite (bind_raise _ _ st e (called (PlannerPost prompt) st))
          by (unfold ask; now rewrite E).
        reflexivity. }
    rewrite retry_loop_S, (bind_ret _ _ _ _ _ (ask_ret _ _ _ _ E)).
    destruct (status_code r =? 429)%Z.
    + rewrite (bind_ret _ _ (called (PlannerPost prompt) st) tt
                 (called (Sleep 5) (called (PlannerPost prompt) st))) by reflexivity.
      destruct (IH (Some r) (called (Sleep 5) (called (PlannerPost prompt) st)))
        as (k & Hk & H).
      exists (S k). split; [lia|]. simpl calls in H.
      destruct H as [H|[Hlt H]]; [left|right; split; [lia|]];
        rewrite H, <- !app_assoc; reflexivity.
    + exists 0. split; [lia|]. right. split; [lia|].
      unfold mbind, M_bind, lift. destruct (raise_for_status _ _); reflexivity.
Qed.

(** X3.  Plan acquisition makes at most three requests to the planner, all
    with the same prompt; each request that is not the last one made is
    followed by a sleep of five seconds, and nothing else is called. *)
Theorem planner_requests_bounded w prompt st :
  exists k,
    k <= 3 /\
    (calls (_groq_request w prompt st).2 = calls st ++ attempts prompt k
     \/ k < 3 /\ calls (_groq_request w prompt st).2
                 = calls st ++ attempts prompt k ++ [PlannerPost prompt]).
Proof.
  rewrite groq_request_state. destruct (nonempty _).
  - apply retry_loop_calls.
  - exists 0. split; [lia|]. left. simpl. now rewrite app_nil_r.
Qed.

(** X4.  Only the status 429 is retried: when the first request raises, or is
    answered with another status that [raise_for_status] rejects, that
    exception leaves [_groq_request] after this one request, with no sleep. *)
Theorem only_429_is_retried w prompt st e :
  nonempty (GROQ_API_KEY w) = true ->
  planner_post w (calls st) prompt = Raise e
  \/ (exists r, planner_post w (calls st) prompt = Ret r /\ status_code r <> 429%Z
                /\ raise_for_status GROQ_API_URL r = Raise e) ->
  _groq_request w prompt st = (Raise e, called (PlannerPost prompt) st).
Proof.
  intros Hkey H. unfold _groq_request. rewrite Hkey. cbn [negb].
  apply bind_raise. rewrite retry_loop_S.
  destruct H as [H|(r & H & Hs & Hr)].
  - apply bind_raise. unfold ask. now rewrite H.
  - rewrite (bind_ret _ _ _ _ _ (ask_ret _ _ _ _ H)).
    apply Z.eqb_neq in Hs. rewrite Hs.
    apply bind_raise. unfold lift. now rewrite Hr.
Qed.

Lemma only_429_is_retried_witness :
  exists e,
    exn_class e = "HTTPError"%string /\
    _groq_request unavailable (py "plan my day") fresh
    = (Raise e, called (PlannerPost (py "plan my day")) fresh).
Proof.
  eexists. split; [|apply (only_429_is_retried unavailable (py "plan my day") fresh)].
  2: reflexivity.
  2:{ right. exists (response 503 JNull). split; [reflexivity|]. split; [discriminate|].
      vm_compute. reflexivity. }
  reflexivity.
Defined.

(** X5.  Without an API key the run asks nobody: it publishes the planning
    message and the failure "Missing GROQ_API_KEY", and makes no call. *)
Theorem missing_key_stops w prompt st :
  sink_ok w -> nonempty (GROQ_API_KEY w) = false ->
  execute_plan w prompt st
  = (Ret tt, published (planning_failed missing_key) (published planning_log st)).
Proof.
  intros Hs Hkey. rewrite (execute_plan_unfold w Hs).
  unfold _groq_request. rewrite Hkey. reflexivity.
Qed.

Lemma missing_key_stops_witness :
  sink_ok keyless /\ nonempty (GROQ_API_KEY keyless) = false /\
  execute_plan keyless (py "best pizza in Rome") fresh
  = (Ret tt, State [planning_log; Log system (py "Planning failed: Missing GROQ_API_KEY") error]
               [] ∅ []).
Proof.
  assert (sink_ok keyless) as Hs by (intros sent message; reflexivity).
  split; [exact Hs|]. split; [reflexivity|].
  apply (missing_key_stops keyless (py "best pizza in Rome") fresh Hs). reflexivity.
Defined.

(** X6.  A 429 followed by an accepted answer gives the plan: the first
    response is discarded, the loop sleeps five seconds once, and the
    content of the second response is decoded. *)
Theorem retry_then_success w prompt st r1 r2 content parsed :
  nonempty (GROQ_API_KEY w) = true ->
  let st1 := called (Sleep 5) (called (PlannerPost prompt) st) in
  planner_post w (calls st) prompt = Ret r1 -> status_code r1 = 429%Z ->
  planner_post w (calls st1) prompt = Ret r2 -> status_code r2 <> 429%Z ->
  raise_for_status GROQ_API_URL r2 = Ret tt ->
  completion_content r2 = Ret (JStr content) ->
  json_loads w content = Ret parsed ->
  _groq_request w prompt st = (Ret (steps_of parsed), called (PlannerPost prompt) st1).
Proof.
  intros Hkey st1 H1 S1 H2 S2 Hr Hc Hl. unfold _groq_request. rewrite Hkey. cbn [negb].
  assert (retry_loop w prompt 3 None st = (Ret r2, called (PlannerPost prompt) st1)) as Hloop.
  { rewrite retry_loop_S. rewrite (bind_ret _ _ _ _ _ (ask_ret _ _ _ _ H1)).
    rewrite S1. cbn [Z.eqb Pos.eqb].
    rewrite (bind_ret _ _ (called (PlannerPost prompt) st) tt st1) by reflexivity.
    rewrite retry_loop_S. rewrite (bind_ret _ _ _ _ _ (ask_ret _ _ _ _ H2)).
    apply Z.eqb_neq in S2. rewrite S2.
    unfold mbind, M_bind, lift. now rewrite Hr. }
  rewrite (bind_ret _ _ _ _ _ Hloop).
  unfold mbind, M_bind, lift. rewrite Hc. simpl. now rewrite Hl.
Qed.

Lemma retry_then_success_witness :
  _groq_request busy_once (py "say hello") fresh
  = (Ret (JList [step "SlackAgent" "Post 'hello' to #general"]),
     State [] [PlannerPost (py "say hello"); Sleep 5; PlannerPost (py "say hello")] ∅ []).
Proof.
  apply (retry_then_success busy_once (py "say hello") fresh
           (response 429 (JObj [(py "error", JStr (py "rate_limit_exceeded"))]))
           (response 200 (completion (JStr hello_text))) hello_text hello_plan);
    try reflexivity; discriminate.
Defined.

(** ** Steps outside the five capabilities, and steps that cannot be read *)







(** ** The search step *)






(** ** Steps that fail inside a capability *)

Lemma dispatch_returns w agent a :
  sink_ok w -> is_str "CalendarAgent" agent = false -> returns (dispatch w agent (JStr a)).
Proof.
  intros Hs Hc. unfold dispatch. rewrite Hc.
  destruct (is_str "KnowledgeAgent" agent).
  { destruct (Str.contains _ _); [destruct (re_search _ _)|]; auto with effects. }
  destruct (is_str "SearchAgent" agent).
  { apply returns_bind; [auto with effects|]. intros msg.
    apply returns_bind; [auto with effects|]. intros _.
    apply returns_bind; [|auto with effects].
    intros st. rewrite (broadcast_ok w _ st Hs). simpl. eauto. }
  destruct (is_str "SlackAgent" agent); [auto with effects|].
  destruct (is_str "CommunicationAgent" agent); auto with effects.
Qed.

(** X11.  Only the calendar can fail a step on a text instruction.  Whatever
    Slack, Twilio, the search engine, the chat endpoint or the file system
    do, a step of any other agent is reported "completed" with an
    info-level log; its failure shows only in the text of the outcome. *)
Theorem only_calendar_steps_fail w agent a st :
  sink_ok w -> is_str "CalendarAgent" agent = false ->
  exists msg st',
    _execute_step w agent (JStr a) st = (Ret msg, st') /\
    events st' = events st ++ StatusUpdate (JStr a) in_progress :: autosave_log agent (JStr a)
                   ++ [StatusUpdate (JStr a) completed; Log agent msg info].
Proof.
  intros Hs Hc. rewrite (execute_step_unfold w Hs).
  pose proof (dispatch_events w Hs agent (JStr a) (published (StatusUpdate (JStr a) in_progress) st))
    as He.
  destruct (dispatch_returns w agent a Hs Hc (published (StatusUpdate (JStr a) in_progress) st))
    as [msg Hm].
  destruct (dispatch w agent (JStr a) _) as [r st2]. simpl in Hm, He. subst r.
  exists msg. eexists. split; [reflexivity|].
  simpl. rewrite He. simpl. rewrite <- !app_assoc. reflexivity.
Qed.

Lemma only_calendar_steps_fail_witness :
  exists msg st',
    _execute_step offline (JStr (py "SearchAgent")) (JStr (py "Search for best pizza in Rome")) fresh
      = (Ret msg, st') /\
    events st' = events fresh ++
      StatusUpdate (JStr (py "Search for best pizza in Rome")) in_progress
      :: autosave_log (JStr (py "SearchAgent")) (JStr (py "Search for best pizza in Rome"))
      ++ [StatusUpdate (JStr (py "Search for best pizza in Rome")) completed;
          Log (JStr (py "SearchAgent")) msg info].
Proof.
  apply (only_calendar_steps_fail offline (JStr (py "SearchAgent"))
           (py "Search for best pizza in Rome") fresh).
  - intros sent message. reflexivity.
  - reflexivity.
Defined.

(** ** The knowledge directory: names and reloading *)



Lemma endswith_app suffix s : Str.endswith suffix (s ++ suffix) = true.
Proof. unfold Str.endswith. rewrite rev_app_distr. apply startswith_app. Qed.

Lemma read_all_readable w h entries : forall full_text,
  (forall f, read_error w h f = None) ->
  KnowledgeAgent.read_all w h entries full_text
  = full_text ++ flat_map (fun e => if Str.endswith (py ".txt") e.1
                                    then Str.universal_newlines e.2 ++ nl else []) entries.
Proof.
  induction entries as [|[f c] l IH]; intros acc Hr; simpl.
  - now rewrite app_nil_r.
  - destruct (Str.endswith _ f).
    + rewrite Hr, IH by exact Hr. now rewrite <- !app_assoc.
    + now rewrite IH.
Qed.

Lemma load_knowledge_contains w h dir name content :
  (forall f, read_error w h f = None) ->
  Str.endswith (py ".txt") name = true ->
  dir !! name = Some content ->
  exists pre post,
    KnowledgeAgent._load_knowledge w h dir = pre ++ Str.universal_newlines content ++ nl ++ post.
Proof.
  intros Hr He Hl. unfold KnowledgeAgent._load_knowledge. rewrite read_all_readable by exact Hr.
  apply elem_of_map_to_list in Hl. apply list_elem_of_split in Hl as (l1 & l2 & ->).
  rewrite flat_map_app. simpl. rewrite He.
  eexists _, _. rewrite <- (app_assoc (Str.universal_newlines content) nl). reflexivity.
Qed.

(** X13.  What is stored can be asked about at once.  After a write that
    succeeds, with every file of the directory readable, the loaded
    knowledge holds the stored content, its line ends read as [\n],
    followed by a line break; so it is not empty, and the next question goes
    to the chat endpoint in a prompt that holds both that content and the
    question. *)
Theorem stored_knowledge_is_queried w filename content query st :
  let st' := (KnowledgeAgent.add_knowledge w filename content st).2 in
  let stored := Str.universal_newlines (Str.strip content) in
  write_error w (calls st) (re_sub safe_name_re (py "_") filename ++ py ".txt") = None ->
  (forall f, read_error w (calls st) f = None) ->
  Str.contains (stored ++ nl) (knowledge st') = true /\
  exists prompt answer,
    KnowledgeAgent.run w query st' = (Ret answer, called (ChatPost prompt) st') /\
    Str.contains stored prompt = true /\
    Str.contains query prompt = true.
Proof.
  intros st' stored Hw Hr.
  assert (exists pre post, knowledge st' = pre ++ stored ++ nl ++ post)
    as (pre & post & Hk).
  { subst st'. unfold KnowledgeAgent.add_knowledge. rewrite Hw. simpl.
    eapply load_knowledge_contains; [exact Hr|apply endswith_app|apply lookup_insert_eq]. }
  split.
  { apply contains_spec. exists pre, post. rewrite Hk. now rewrite <- !app_assoc. }
  set (prompt := py "Context: " ++ knowledge st' ++ nl ++ nl ++ py "Question: " ++ query
                 ++ nl ++ nl ++ py "Answer only based on context:").
  assert (exists answer, KnowledgeAgent.run w query st' = (Ret answer, called (ChatPost prompt) st'))
    as [answer Hrun].
  { unfold KnowledgeAgent.run.
    rewrite (bind_ret _ _ st' st' st') by reflexivity.
    replace (nonempty (knowledge st')) with true
      by (rewrite Hk; destruct pre, stored; reflexivity).
    cbn [negb]. fold prompt.
    unfold try_except, mbind, M_bind, ask, lift, raise, mret, M_ret. fold (called (ChatPost prompt) st').
    destruct (chat_post w (calls st') prompt) as [r|e]; [|eauto].
    destruct (raise_for_status GROQ_API_URL r); [|eauto].
    destruct (completion_content r) as [[]|]; eauto. }
  exists prompt, answer. split; [exact Hrun|]. split; apply contains_spec.
  - exists (py "Context: " ++ pre),
      (nl ++ post ++ nl ++ nl ++ py "Question: " ++ query ++ nl ++ nl
       ++ py "Answer only based on context:").
    unfold prompt. rewrite Hk. now rewrite <- !app_assoc.
  - exists (py "Context: " ++ knowledge st' ++ nl ++ nl ++ py "Question: "),
      (nl ++ nl ++ py "Answer only based on context:").
    unfold prompt. now rewrite <- !app_assoc.
Qed.

Lemma stored_knowledge_is_queried_witness :
  let st' := (KnowledgeAgent.add_knowledge pizza (py "refunds") (py " Refunds take 5 days. ") fresh).2 in
  Str.contains (py "Refunds take 5 days." ++ nl) (knowledge st') = true /\
  exists prompt answer,
    KnowledgeAgent.run pizza (py "How long do refunds take?") st'
      = (Ret answer, called (ChatPost prompt) st') /\
    Str.contains (py "Refunds take 5 days.") prompt = true /\
    Str.contains (py "How long do refunds take?") prompt = true.
Proof.
  apply (stored_knowledge_is_queried pizza (py "refunds") (py " Refunds take 5 days. ")
           (py "How long do refunds take?") fresh).
  - reflexivity.
  - intros f. reflexivity.
Defined.

(** ** The messaging step after another step *)





(** ** The instruction that adds knowledge *)





Lemma space_folds_to_itself c : is_space c = true -> fold_case c = c.
Proof.
  unfold is_space, fold_case, in_range. intros H.
  assert (c < 0x41 \/ 0x5A < c)%N as H1.
  { repeat (apply orb_true_iff in H as [H|H]);
      try apply andb_true_iff in H as [H H'];
      repeat match goal with
             | H : (_ <=? _)%N = true |- _ => apply N.leb_le in H
             | H : (_ =? _)%N = true |- _ => apply N.eqb_eq in H
             end; lia. }
  assert (c <> 0x17F /\ c <> 0x212A /\ c <> 0x130 /\ c <> 0x131)%N as (H2 & H3 & H4 & H5).
  { repeat split; intros ->; discriminate H. }
  replace ((65 <=? c)%N && (c <=? 90)%N) with false
    by (symmetry; apply andb_false_iff; destruct H1; [left; apply N.leb_gt|right; apply N.leb_gt]; lia).
  apply N.eqb_neq in H2, H3. rewrite H2, H3.
  replace ((304 <=? c)%N && (c <=? 305)%N) with false; [reflexivity|].
  symmetry. apply andb_false_iff.
  destruct (N.le_gt_cases 304 c) as [Hc|Hc]; [right|left]; apply N.leb_gt; lia.
Qed.

Lemma match_not_space l c :
  eq_ignorecase l c = true -> is_space (fold_case l) = false -> is_space c = false.
Proof.
  unfold eq_ignorecase. intros H Hl. apply N.eqb_eq in H.
  destruct (is_space c) eqn:E; [|reflexivity].
  rewrite (space_folds_to_itself c E) in H. congruence.
Qed.




Lemma matches_i_length l : forall t, matches_i l t = true -> length t = length l.
Proof.
  induction l as [|a l IH]; intros [|c t] H; try discriminate; [reflexivity|].
  simpl in H. apply andb_true_iff in H as [_ H]. simpl. f_equal. now apply IH.
Qed.





(** ** The calendar instruction *)

Import Datetime CalendarAction.

Lemma valid_time d :
  valid d = true -> (0 <= hour d < 24 /\ 0 <= minute d < 60)%Z.
Proof.
  unfold valid. intros H.
  repeat (apply andb_true_iff in H as [H ?]).
  repeat match goal with
         | H : (_ <=? _)%Z = true |- _ => apply Z.leb_le in H
         | H : (_ <? _)%Z = true |- _ => apply Z.ltb_lt in H
         end.
  lia.
Qed.

Lemma replace_replace d h m h' m' : replace (replace d h m) h' m' = replace d h' m'.
Proof. reflexivity. Qed.

Lemma start_of_day now action :
  valid now = true ->
  start_of now action =
  (d ← (if Str.contains (py "tomorrow") (Str.lower action)
           || (23 * 60 + 30 <=? hour now * 60 + minute now)%Z
        then next_day now else Ret now);
   Ret (replace d 10 0)).
Proof.
  intros Hv. destruct (valid_time now Hv) as [Hh Hm]. unfold start_of, add.
  destruct (Str.contains _ _); cbn [orb].
  - replace (hour now * 60 + minute now + 0 * 60 + 0)%Z with (hour now * 60 + minute now)%Z by lia.
    rewrite (Z.div_small (hour now * 60 + minute now) 1440) by lia.
    simpl. destruct (next_day now); reflexivity.
  - destruct (Z.leb_spec (23 * 60 + 30) (hour now * 60 + minute now)) as [Hl|Hl].
    + replace ((hour now * 60 + minute now + 0 * 60 + 30) / 1440)%Z with 1%Z
        by (apply Z.div_unique with (r := (hour now * 60 + minute now + 30 - 1440)%Z); lia).
      simpl. destruct (next_day now); reflexivity.
    + rewrite (Z.div_small (hour now * 60 + minute now + 0 * 60 + 30) 1440) by lia.
      reflexivity.
Qed.

(** X16.  Whatever time the instruction names, the event runs from 10:00 to
    11:00, with the seconds of the clock.  Its day is the day of the clock,
    or the next one when the instruction holds "tomorrow" in any case or the
    clock shows 23:30 or later; the function raises only when that next day
    would be past 9999-12-31. *)
Theorem calendar_event_is_at_ten now action :
  valid now = true ->
  _parse_calendar_action now action =
  (d ← (if Str.contains (py "tomorrow") (Str.lower action)
           || (23 * 60 + 30 <=? hour now * 60 + minute now)%Z
        then next_day now else Ret now);
   Ret (EventDetails (title_of action) (isoformat (replace d 10 0)) (isoformat (replace d 11 0)))).
Proof.
  intros Hv. unfold _parse_calendar_action. rewrite (start_of_day now action Hv).
  destruct (Str.contains _ _ || _); [destruct (next_day now)|]; reflexivity.
Qed.

Lemma calendar_event_is_at_ten_witness :
  _parse_calendar_action (DateTime 2024 2 28 23 45 7 0) (py "Schedule standup for 3pm")
  = Ret (EventDetails (py "standup") (py "2024-02-29T10:00:07") (py "2024-02-29T11:00:07")).
Proof.
  rewrite (calendar_event_is_at_ten (DateTime 2024 2 28 23 45 7 0) (py "Schedule standup for 3pm"));
    reflexivity.
Defined.

(** X17.  An event can be put in the past.  Without "tomorrow" in the
    instruction and with the clock after 10:00 and before 23:30, the start
    time computed is 10:00 of the same day, which is earlier than the
    clock. *)
Theorem calendar_event_in_the_past now action :
  valid now = true ->
  Str.contains (py "tomorrow") (Str.lower action) = false ->
  (10 * 60 < hour now * 60 + minute now < 23 * 60 + 30)%Z ->
  start_of now action = Ret (replace now 10 0) /\
  lt (replace now 10 0) now = true.
Proof.
  intros Hv Ht Hc. rewrite (start_of_day now action Hv), Ht.
  destruct (valid_time now Hv) as [Hh Hm].
  replace (23 * 60 + 30 <=? hour now * 60 + minute now)%Z with false
    by (symmetry; apply Z.leb_gt; lia).
  split; [reflexivity|].
  unfold lt, replace. cbn [lex_lt year month day hour minute second microsecond].
  rewrite !Z.eqb_refl, !Z.ltb_irrefl. cbn [orb andb].
  destruct (Z.ltb_spec 10 (hour now)) as [H10|H10]; [reflexivity|].
  assert (hour now = 10%Z) as E by lia. rewrite E in *. cbn [orb Z.eqb Pos.eqb andb].
  replace (0 <? minute now)%Z with true by (symmetry; apply Z.ltb_lt; lia). reflexivity.
Qed.

Lemma calendar_event_in_the_past_witness :
  start_of (DateTime 2024 5 17 16 20 0 0) (py "Schedule review for 5pm")
  = Ret (DateTime 2024 5 17 10 0 0 0) /\
  lt (DateTime 2024 5 17 10 0 0 0) (DateTime 2024 5 17 16 20 0 0) = true.
Proof.
  apply (calendar_event_in_the_past (DateTime 2024 5 17 16 20 0 0) (py "Schedule review for 5pm"));
    [reflexivity|reflexivity|vm_compute; split; reflexivity].
Defined.

Lemma lstrip_none p s : forallb (fun c => negb (p c)) s = true -> Str.lstrip p s = s.
Proof.
  destruct s as [|c s]; [reflexivity|]. simpl. intros H.
  apply andb_true_iff in H as [H _]. apply negb_true_iff in H. now rewrite H.
Qed.

Lemma strip_word X : forallb not_space X = true -> Str.strip X = X.
Proof.
  intros H. unfold Str.strip, Str.strip_chars, Str.rstrip.
  rewrite (lstrip_none is_space X H), lstrip_none; [apply rev_involutive|].
  apply forallb_forall. intros c Hc. apply in_rev in Hc.
  rewrite forallb_forall in H. exact (H c Hc).
Qed.

Lemma plus_fails p pos c rest g : p c = false -> rmatch (plus p) (MState pos (c :: rest) g) = [].
Proof. intros H. unfold plus. cbn [rmatch m_rest]. simpl span. now rewrite H. Qed.

Lemma word_is_line X : forallb not_space X = true -> forallb dot X = true.
Proof.
  intros H. apply forallb_forall. intros c Hc. rewrite forallb_forall in H.
  specialize (H c Hc). unfold not_space in H. apply negb_true_iff in H.
  unfold dot. destruct (N.eqb_spec c 10) as [->|]; [discriminate H|reflexivity].
Qed.

(** The title group and what follows it, on a title of one word. *)
Lemma title_group_match pos X ws2 FOR rest g :
  X <> [] -> forallb not_space X = true -> ws2 <> [] -> forallb is_space ws2 = true ->
  matches_i (py "for") FOR = true ->
  exists n,
    head (rmatch (seqs [RGroup 1 (plus_lazy dot); plus is_space; lit_i "for"])
            (MState pos (X ++ ws2 ++ FOR ++ rest) g))
    = Some (MState n rest ((1, X) :: g)).
Proof.
  intros HXn HX Hw2n Hw2 HF.
  assert (span is_space (FOR ++ rest) = 0) as HFs.
  { destruct FOR as [|c FOR']; [discriminate|].
    change (py "for") with [0x66%N; 0x6F%N; 0x72%N] in HF. simpl in HF.
    apply andb_true_iff in HF as [HF _].
    apply (span_head_false is_space c _ (match_not_space _ _ HF eq_refl)). }
  destruct ws2 as [|c ws2']; [congruence|]. eexists. cbn [seqs].
  change ((c :: ws2') ++ FOR ++ rest) with (c :: ws2' ++ FOR ++ rest).
  apply head_lazy_group; [now apply word_is_line|exact HXn| |].
  { intros m x s' Hr Hx. cbn [rmatch].
    destruct m as [p0 r0 g0]. simpl in Hr. subst r0. rewrite plus_fails; [reflexivity|].
    rewrite forallb_forall in HX. specialize (HX x Hx). now apply negb_true_iff in HX. }
  change (c :: ws2' ++ FOR ++ rest) with ((c :: ws2') ++ FOR ++ rest).
  plus_step Hw2 Hw2n HFs.
  rewrite rmatch_lit_i by (discriminate || exact HF). reflexivity.
Qed.

Lemma calendar_first_match S ws1 art X ws2 FOR rest :
  title_parts S ws1 art X ws2 FOR = true ->
  exists n,
    head (rmatch calendar_re (MState 0 (S ++ ws1 ++ art ++ X ++ ws2 ++ FOR ++ rest) []))
    = Some (MState n rest [(1, X)]).
Proof.
  unfold title_parts. intros H.
  apply andb_true_iff in H as [H HF]. apply andb_true_iff in H as [H Hw2].
  apply andb_true_iff in H as [H Hw2n]. apply andb_true_iff in H as [H HX].
  apply andb_true_iff in H as [H HXn]. apply andb_true_iff in H as [H Hart].
  apply andb_true_iff in H as [H Hw1]. apply andb_true_iff in H as [HS Hw1n].
  apply nonempty_ne in Hw1n, HXn, Hw2n.
  assert (exists x X', X = x :: X' /\ is_space x = false) as (x & X' & EX & Hx).
  { destruct X as [|x X']; [congruence|]. simpl in HX. apply andb_true_iff in HX as [HX _].
    apply negb_true_iff in HX. eauto. }
  assert (span is_space (X ++ ws2 ++ FOR ++ rest) = 0) as HXs.
  { rewrite EX. apply (span_head_false is_space x _ Hx). }
  destruct art as [|a wsa]; cbn [article] in Hart.
  - (* no article: the optional part matches nothing *)
    destruct (title_group_match (0 + length S + length ws1) X ws2 FOR rest [] HXn HX Hw2n Hw2 HF)
      as [n Hn].
    cbn [seqs] in Hn. exists n. unfold calendar_re. cbn [seqs app].
    eapply head_seq_first; [apply rmatch_lit_i; [discriminate|exact HS]|].
    plus_step Hw1 Hw1n HXs.
    match goal with |- head (rmatch (RSeq ?opt ?r) ?m) = _ =>
      assert (rmatch opt m = [m]) as Eo end.
    { cbn [rmatch m_rest]. rewrite EX. cbn [app]. unfold chr_i.
      change (N_of_ascii "a") with 0x61%N. cbn [rmatch m_rest].
      destruct (eq_ignorecase 97 x) eqn:Ea; [|reflexivity].
      unfold consume. cbn [flat_map m_rest m_pos m_groups].
      change (drop 1 (x :: X' ++ ws2 ++ FOR ++ rest)) with (drop 0 (X' ++ ws2 ++ FOR ++ rest)).
      rewrite drop_0.
      destruct X' as [|x2 X''].
      { subst X. change (py "a") with [0x61%N] in Hart. cbn [matches_i] in Hart.
        rewrite Ea in Hart. discriminate. }
      cbn [app]. rewrite plus_fails; [reflexivity|].
      subst X. simpl in HX. apply andb_true_iff in HX as [_ HX].
      apply andb_true_iff in HX as [HX _]. now apply negb_true_iff in HX. }
    eapply head_seq_first; [exact Eo|]. exact Hn.
  - (* the article and its white space are passed over *)
    apply andb_true_iff in Hart as [Hart Hwa]. apply andb_true_iff in Hart as [Ha Hwan].
    apply nonempty_ne in Hwan.
    destruct (title_group_match (0 + length S + length ws1 + 1 + length wsa) X ws2 FOR rest []
                HXn HX Hw2n Hw2 HF) as [n Hn].
    cbn [seqs] in Hn. exists n. unfold calendar_re. cbn [seqs].
    eapply head_seq_first; [apply rmatch_lit_i; [discriminate|exact HS]|].
    change ((a :: wsa) ++ X ++ ws2 ++ FOR ++ rest) with (a :: wsa ++ X ++ ws2 ++ FOR ++ rest).
    plus_step Hw1 Hw1n (span_head_false is_space a (wsa ++ X ++ ws2 ++ FOR ++ rest)
                          (match_not_space _ _ Ha eq_refl)).
    destruct (rmatch_plus_first is_space (0 + length S + length ws1 + 1) wsa
                (X ++ ws2 ++ FOR ++ rest) [] Hwa Hwan HXs) as [l El].
    match goal with |- head (rmatch (RSeq ?opt ?r) ?m) = _ =>
      assert (exists l', rmatch opt m
                = MState (0 + length S + length ws1 + 1 + length wsa)
                    (X ++ ws2 ++ FOR ++ rest) [] :: l') as [l' Eo] end.
    { cbn [rmatch m_rest]. unfold chr_i. change (N_of_ascii "a") with 0x61%N.
      cbn [rmatch m_rest]. rewrite Ha. unfold consume. cbn [flat_map m_rest m_pos m_groups].
      change (drop 1 (a :: wsa ++ X ++ ws2 ++ FOR ++ rest))
        with (drop 0 (wsa ++ X ++ ws2 ++ FOR ++ rest)).
      rewrite drop_0, El. simpl. eauto. }
    eapply head_seq_first; [exact Eo|]. exact Hn.
Qed.

(** X18.  The title of the event is the word between [schedule], with an
    optional article [a], and [for]: the keywords in any case, runs of
    white space between the parts, the title one word.  What follows
    [for] plays no part in the title. *)
Theorem calendar_title_is_the_word S ws1 art X ws2 FOR rest now :
  title_parts S ws1 art X ws2 FOR = true ->
  _parse_calendar_action now (S ++ ws1 ++ art ++ X ++ ws2 ++ FOR ++ rest) =
  (start ← start_of now (S ++ ws1 ++ art ++ X ++ ws2 ++ FOR ++ rest);
   end_ ← add start 0 1 0;
   Ret (EventDetails X (isoformat start) (isoformat end_))).
Proof.
  intros H. destruct (calendar_first_match S ws1 art X ws2 FOR rest H) as [n Hn].
  unfold _parse_calendar_action, title_of.
  assert (re_search calendar_re (S ++ ws1 ++ art ++ X ++ ws2 ++ FOR ++ rest)
          = Some (ReMatch 0 n [(1, X)])) as E.
  { apply search_from_here. unfold match_here.
    destruct (rmatch calendar_re _) as [|m l]; [discriminate|].
    simpl in Hn. injection Hn as ->. reflexivity. }
  rewrite E. change (group 1 (ReMatch 0 n [(1, X)])) with X.
  rewrite strip_word; [reflexivity|].
  unfold title_parts in H. repeat (apply andb_true_iff in H as [H ?]). assumption.
Qed.

Lemma calendar_title_is_the_word_witness :
  title_parts (py "Schedule") (py "  ") (py "A  ") (py "standup") (py " ") (py "for") = true /\
  _parse_calendar_action (DateTime 2024 12 31 9 5 0 250000)
    (py "Schedule  A  standup for 9am for the team tomorrow")
  = Ret (EventDetails (py "standup") (py "2025-01-01T10:00:00.250000")
           (py "2025-01-01T11:00:00.250000")).
Proof.
  split; [reflexivity|].
  change (py "Schedule  A  standup for 9am for the team tomorrow")
    with (py "Schedule" ++ py "  " ++ py "A  " ++ py "standup" ++ py " " ++ py "for"
          ++ py " 9am for the team tomorrow").
  rewrite (calendar_title_is_the_word (py "Schedule") (py "  ") (py "A  ") (py "standup") (py " ")
             (py "for") (py " 9am for the team tomorrow") (DateTime 2024 12 31 9 5 0 250000));
    reflexivity.
Defined.

(** ** The registry of websockets *)

Section RegistryFacts.

Import Registry.

Context {Socket : Type} `{EqDecision Socket}.

Lemma remove_first_spec (x : Socket) (l : list Socket) :
  match remove_first x l with
  | Some rest => exists l1 l2, l = l1 ++ x :: l2 /\ ~ In x l1 /\ rest = l1 ++ l2
  | None => ~ In x l
  end.
Proof.
  induction l as [|y l IH]; simpl; [tauto|].
  destruct (decide (y = x)) as [->|Hne].
  - exists [], l. simpl. tauto.
  - destruct (remove_first x l) as [rest|]; simpl.
    + destruct IH as (l1 & l2 & -> & Hn & ->). exists (y :: l1), l2. simpl.
      split; [reflexivity|]. split; [|reflexivity]. intros [E|Hin]; [congruence|tauto].
    + intros [E|Hin]; [congruence|tauto].
Qed.

Lemma remove_first_last (x : Socket) (l : list Socket) :
  ~ In x l -> remove_first x (l ++ [x]) = Some l.
Proof.
  induction l as [|y l IH]; simpl; intros Hn.
  - destruct (decide (x = x)); [reflexivity|congruence].
  - destruct (decide (y = x)) as [E|_]; [tauto|]. rewrite IH by tauto. reflexivity.
Qed.

(** X19.  [disconnect] removes one registration of the websocket, the first
    in the list, and nothing else; on a websocket that is not registered it
    raises ValueError and leaves the list alone. *)
Theorem disconnect_removes_first (websocket : Socket) (active : list Socket) :
  (exists l1 l2,
     active = l1 ++ websocket :: l2 /\ ~ In websocket l1 /\
     disconnect websocket active = (Ret tt, l1 ++ l2))
  \/ (~ In websocket active /\
      disconnect websocket active
      = (Raise (Exn "ValueError" (py "list.remove(x): x not in list")), active)).
Proof.
  unfold disconnect. pose proof (remove_first_spec websocket active) as H0.
  destruct (remove_first websocket active) as [rest|].
  - left. destruct H0 as (l1 & l2 & E & Hn & ->). exists l1, l2. auto.
  - right. auto.
Qed.

(** X20.  An endpoint whose websocket was accepted and whose loop is ended by
    an exception.  When it is a WebSocketDisconnect the registry is again
    what it was before the connection; any other exception leaves the
    endpoint with the websocket still registered. *)
Theorem endpoint_leaves_registry incoming e (websocket : Socket) (active : list Socket) :
  receive_loop incoming = Some e -> ~ In websocket active ->
  websocket_endpoint None incoming websocket active =
  if String.eqb (exn_class e) "WebSocketDisconnect"
  then (Ended (Ret tt), active)
  else (Ended (Raise e), active ++ [websocket]).
Proof.
  intros Hl Hn. unfold websocket_endpoint, connect, leave. rewrite Hl.
  destruct (String.eqb _ _); [|reflexivity].
  unfold disconnect. now rewrite remove_first_last.
Qed.

End RegistryFacts.

Lemma endpoint_leaves_registry_witness :
  Registry.websocket_endpoint None [Ret (py "ping"); Raise (Exn "KeyError" (py "'text'"))] 3 [1; 2]
  = (Registry.Ended (Raise (Exn "KeyError" (py "'text'"))), [1; 2; 3]) /\
  Registry.websocket_endpoint None [Ret (py "ping"); Raise (Exn "WebSocketDisconnect" (py "1001"))]
    3 [1; 2]
  = (Registry.Ended (Ret tt), [1; 2]).
Proof.
  split.
  - apply (endpoint_leaves_registry [Ret (py "ping"); Raise (Exn "KeyError" (py "'text'"))]
             (Exn "KeyError" (py "'text'")) 3 [1; 2]); [reflexivity|].
    intros [E|[E|[]]]; discriminate E.
  - apply (endpoint_leaves_registry
             [Ret (py "ping"); Raise (Exn "WebSocketDisconnect" (py "1001"))]
             (Exn "WebSocketDisconnect" (py "1001")) 3 [1; 2]); [reflexivity|].
    intros [E|[E|[]]]; discriminate E.
Defined.

(** X21.  While a websocket that raises on every message is registered, no
    run gets anywhere: the planning message cannot be sent, neither can the
    failure message of the handler, and that second exception leaves
    [execute_plan] before the planner has been asked. *)
Theorem dead_socket_stops_every_run w prompt st :
  sink_dead w ->
  exists e1 e2,
    ConnectionManager.send_all (active_connections w) (events st) planning_log = Some e1 /\
    execute_plan w prompt st
    = (Raise e2, published (planning_failed e1) (published planning_log st)).
Proof.
  intros Hd.
  destruct (ConnectionManager.send_all (active_connections w) (events st) planning_log)
    as [e1|] eqn:E1; [|exfalso; exact (Hd _ _ E1)].
  destruct (ConnectionManager.send_all (active_connections w)
              (events (published planning_log st)) (planning_failed e1))
    as [e2|] eqn:E2; [|exfalso; exact (Hd _ _ E2)].
  exists e1, e2. split; [reflexivity|].
  unfold execute_plan.
  match goal with |- (?c ≫= _) st = _ =>
    assert (c st = (Raise e2, published (planning_failed e1) (published planning_log st))) as T end.
  { erewrite try_raise.
    2:{ apply bind_raise. unfold broadcast. fold planning_log. rewrite E1. reflexivity. }
    apply bind_raise. unfold broadcast. fold (planning_failed e1).
    change (events (published planning_log st)) with (events st ++ [planning_log]) in E2.
    cbn [events]. rewrite E2. reflexivity. }
  now rewrite (bind_raise _ _ _ _ _ T).
Qed.

Lemma dead_socket_stops_every_run_witness :
  sink_dead sink_down /\
  execute_plan sink_down (py "plan my day") fresh
  = (Raise (Exn "WebSocketDisconnect" (py "1006")),
     State [planning_log; planning_failed (Exn "WebSocketDisconnect" (py "1006"))] [] ∅ []).
Proof.
  assert (sink_dead sink_down) as Hd by (intros sent message; discriminate).
  split; [exact Hd|].
  destruct (dead_socket_stops_every_run sink_down (py "plan my day") fresh Hd)
    as (e1 & e2 & H1 & H2).
  rewrite H2. vm_compute in H1. injection H1 as <-.
  assert (e2 = Exn "WebSocketDisconnect" (py "1006")) as ->; [|reflexivity].
  assert ((execute_plan sink_down (py "plan my day") fresh).1
          = Raise (Exn "WebSocketDisconnect" (py "1006"))) as H3 by (vm_compute; reflexivity).
  rewrite H2 in H3. simpl in H3. now injection H3.
Defined.

(** ** The query of a search *)

Lemma matches_i_nth l : forall t d,
  matches_i l t = true -> d < length l -> eq_ignorecase (nth d l 0%N) (nth d t 0%N) = true.
Proof.
  induction l as [|a l IH]; intros [|c t] d H Hd; try discriminate; [simpl in Hd; lia|].
  simpl in H. apply andb_true_iff in H as [Hc H].
  destruct d as [|d]; [exact Hc|]. simpl. apply IH; [exact H|simpl in Hd; lia].
Qed.

(** A keyword cannot match where another one, different at position [d],
    does. *)
Lemma lit_i_excludes (s s' : string) d W pos rest g :
  s <> EmptyString -> d < length (py s) -> d < length (py s') ->
  (fold_case (nth d (py s) 0%N) =? fold_case (nth d (py s') 0%N))%N = false ->
  matches_i (py s') W = true ->
  rmatch (lit_i s) (MState pos (W ++ rest) g) = [].
Proof.
  intros Hs Hd Hd' Hne HW.
  destruct (rmatch (lit_i s) _) as [|m' l] eqn:E; [reflexivity|exfalso].
  assert (In m' (rmatch (lit_i s) (MState pos (W ++ rest) g))) as Hin by (rewrite E; now left).
  apply in_rmatch_lit_i in Hin as (t & Ht & Hr & _); [|exact Hs]. cbn [m_rest] in Hr.
  pose proof (matches_i_nth _ _ d Ht Hd) as H1.
  pose proof (matches_i_nth _ _ d HW Hd') as H2.
  assert (nth d t 0%N = nth d W 0%N) as En.
  { rewrite <- (app_nth1 t (m_rest m') 0%N), <- Hr, app_nth1; [reflexivity| |].
    - rewrite (matches_i_length _ _ HW). exact Hd'.
    - rewrite (matches_i_length _ _ Ht). exact Hd. }
  rewrite En in H1. unfold eq_ignorecase in H1, H2.
  apply N.eqb_eq in H1, H2. rewrite H1, H2, N.eqb_refl in Hne. discriminate.
Qed.

Lemma search_prefix_first_match W ws X :
  search_prefix W = true -> ws <> [] -> forallb is_space ws = true -> span is_space X = 0 ->
  head (rmatch search_prefix_re (MState 0 (W ++ ws ++ X) []))
  = Some (MState (0 + length W + length ws) X [(1, W)]).
Proof.
  intros HW Hn Hw HX. unfold search_prefix_re. cbn [seqs].
  eapply head_seq_first; [reflexivity|].
  assert (exists l, rmatch (RGroup 1 (RAlt (lit_i "Search for") (RAlt (lit_i "SearchAgent")
                              (RAlt (lit_i "find") (lit_i "tell me about")))))
                      (MState 0 (W ++ ws ++ X) [])
                    = MState (0 + length W) (ws ++ X) [(1, W)] :: l) as [l E].
  { cbn [rmatch]. unfold search_prefix in HW.
    apply orb_true_iff in HW as [HW|H4].
    2:{ rewrite (lit_i_excludes "Search for" "tell me about" 0 W) by (reflexivity || discriminate || (simpl; lia) || exact H4).
        rewrite (lit_i_excludes "SearchAgent" "tell me about" 0 W) by (reflexivity || discriminate || (simpl; lia) || exact H4).
        rewrite (lit_i_excludes "find" "tell me about" 0 W) by (reflexivity || discriminate || (simpl; lia) || exact H4).
        rewrite rmatch_lit_i by (discriminate || exact H4). cbn [app map m_pos m_rest m_groups]. rewrite Nat.sub_0_r. change (0 + length W) with (length W). rewrite take_app_length. eauto. }
    apply orb_true_iff in HW as [HW|H3].
    2:{ rewrite (lit_i_excludes "Search for" "find" 0 W) by (reflexivity || discriminate || (simpl; lia) || exact H3).
        rewrite (lit_i_excludes "SearchAgent" "find" 0 W) by (reflexivity || discriminate || (simpl; lia) || exact H3).
        rewrite (rmatch_lit_i "find") by (discriminate || exact H3). cbn [app map m_pos m_rest m_groups]. rewrite Nat.sub_0_r. change (0 + length W) with (length W). rewrite take_app_length. eauto. }
    apply orb_true_iff in HW as [H1|H2].
    - rewrite (rmatch_lit_i "Search for") by (discriminate || exact H1). cbn [app map m_pos m_rest m_groups]. rewrite Nat.sub_0_r. change (0 + length W) with (length W). rewrite take_app_length. eauto.
    - rewrite (lit_i_excludes "Search for" "SearchAgent" 6 W) by (reflexivity || discriminate || (simpl; lia) || exact H2).
      rewrite (rmatch_lit_i "SearchAgent") by (discriminate || exact H2). cbn [app map m_pos m_rest m_groups]. rewrite Nat.sub_0_r. change (0 + length W) with (length W). rewrite take_app_length. eauto. }
  eapply head_seq_first; [exact E|].
  destruct (rmatch_plus_first is_space (0 + length W) ws X [(1, W)] Hw Hn HX) as [l' E'].
  now rewrite E'.
Qed.

Lemma sub_go_after_start repl : forall s pos k,
  pos <> 0 -> sub_go search_prefix_re repl pos k s = drop k s.
Proof.
  induction s as [|c s IH]; intros pos k Hp; [now destruct k|].
  destruct k as [|k]; cbn [sub_go].
  - assert (match_here search_prefix_re pos (c :: s) = None) as ->.
    { unfold match_here, search_prefix_re. cbn [seqs rmatch m_pos].
      destruct (Nat.eqb_spec pos 0); [congruence|reflexivity]. }
    rewrite IH by lia. now rewrite !drop_0.
  - rewrite IH by lia. reflexivity.
Qed.

Lemma lstrip_span p s : Str.lstrip p s = drop (span p s) s.
Proof. induction s as [|c s IH]; [reflexivity|]. simpl. destruct (p c); [exact IH|reflexivity]. Qed.

Lemma lstrip_app p ws X : forallb p ws = true -> Str.lstrip p (ws ++ X) = Str.lstrip p X.
Proof.
  induction ws as [|c ws IH]; [reflexivity|]. simpl. intros H.
  apply andb_true_iff in H as [Hc H]. rewrite Hc. now apply IH.
Qed.

(** X22.  The query sent to the search engine is the instruction without its
    prefix: on [Search for], [SearchAgent], [find] or [tell me about] (in
    any case) at the very start, followed by white space, the engine is
    asked for the rest of the instruction, without surrounding white space,
    and for three results. *)
Theorem search_query_drops_prefix w W ws X st :
  search_prefix W = true -> nonempty ws = true -> forallb is_space ws = true ->
  exists msg,
    SearchAgent.run w (W ++ ws ++ X) st = (Ret msg, called (DdgsText (Str.strip X) 3) st).
Proof.
  intros HW Hn Hw. apply nonempty_ne in Hn.
  destruct (search_run_state w (W ++ ws ++ X) st) as [msg Hrun]. exists msg. rewrite Hrun.
  do 3 f_equal.
  set (k := span is_space X).
  assert (re_sub search_prefix_re [] (W ++ ws ++ X) = Str.lstrip is_space X) as E.
  { rewrite lstrip_span. fold k.
    pose proof (search_prefix_first_match W (ws ++ take k X) (drop k X) HW) as Hm.
    rewrite <- app_assoc, take_drop in Hm.
    specialize (Hm ltac:(destruct ws; [congruence|discriminate])).
    rewrite forallb_app, Hw, span_take in Hm by (unfold k; lia).
    specialize (Hm eq_refl (span_drop_span is_space X)).
    unfold re_sub. destruct (W ++ ws ++ X) as [|c s] eqn:Es.
    { destruct W; [discriminate HW|discriminate Es]. }
    cbn [sub_go]. unfold match_here.
    destruct (rmatch search_prefix_re (MState 0 (c :: s) [])) as [|m l]; [discriminate|].
    simpl in Hm. injection Hm as ->. cbn [m_end m_pos].
    assert (exists j, 0 + length W + length (ws ++ take k X) - 0 = S j) as [j Ej].
    { destruct W; [discriminate HW|]. simpl. eexists. reflexivity. }
    cbn [Nat.add] in Ej |- *. rewrite Ej. cbn [app]. rewrite sub_go_after_start by lia.
    change (drop j s) with (drop (S j) (c :: s)). rewrite <- Es, <- Ej.
    rewrite Nat.sub_0_r, length_app, length_take, Nat.min_l by (unfold k; apply span_le).
    rewrite (app_assoc W ws X). rewrite Nat.add_assoc.
    replace (length W + length ws) with (length (W ++ ws)) by (rewrite length_app; lia).
    rewrite <- drop_drop, drop_app_length. reflexivity. }
  rewrite E. unfold Str.strip, Str.strip_chars. f_equal.
  rewrite (lstrip_span is_space (Str.lstrip is_space X)), (lstrip_span is_space X).
  now rewrite span_drop_span, drop_0.
Qed.

Lemma search_query_drops_prefix_witness :
  exists msg,
    SearchAgent.run pizza (py "TELL ME ABOUT   best pizza in Rome ") fresh
    = (Ret msg, called (DdgsText (py "best pizza in Rome") 3) fresh).
Proof.
  apply (search_query_drops_prefix pizza (py "TELL ME ABOUT") (py "  ") (py " best pizza in Rome ") fresh);
    reflexivity.
Defined.
